(** * acquire-zarr streaming core: a shallow embedding and its properties

    The development follows [src/streaming/zarr.stream.cpp] and
    [src/streaming/sink.cpp].  Part I embeds the data model and the
    operations; Part II states and proves their properties.

    Conventions.
    - A C++ call that may throw, or whose behaviour is undefined, yields an
      [outcome]; member functions of the stream thread the stream through
      explicitly (type [M]).
    - The collaborators whose sources are in other translation units (array
      writers, sinks, the JSON library, string helpers) are interfaces:
      type classes whose methods are the calls the stream makes. *)

From Stdlib Require Import ZArith List String Ascii Strings.Byte DecimalString DecimalNat Lia.
From Stdlib Require Import Floats.SpecFloat.
From stdpp Require Import base gmap strings list.

Open Scope nat_scope.

(* ================================================================== *)
(** * Part I: the embedding *)
(* ================================================================== *)

(** ** Outcomes of a call *)

Inductive outcome (A : Type) : Type :=
| Returns (a : A)          (* normal return *)
| Throws (what : string)   (* std::runtime_error (EXPECT / CHECK) or another exception *)
| Undefined                (* the C++ standard gives the call no meaning *)
| Hangs.                   (* the loop never leaves *)
Arguments Returns {A} a.
Arguments Throws {A} what.
Arguments Undefined {A}.
Arguments Hangs {A}.

Definition obind {A B} (m : outcome A) (k : A -> outcome B) : outcome B :=
  match m with
  | Returns a => k a
  | Throws w => Throws w
  | Undefined => Undefined
  | Hangs => Hangs
  end.

Notation "'let*' x := m 'in' k" := (obind m (fun x => k))
  (at level 10, x name, m at level 100, k at level 200).
Notation "'let*' ' pat := m 'in' k" :=
  (obind m (fun x => match x with pat => k end))
  (at level 10, pat pattern, m at level 100, k at level 200).

(** [EXPECT(e, msg)] and [CHECK(e)]: throw [std::runtime_error] when [e] is
    false (the behaviour [sink.hh] documents for them). *)
Definition EXPECT (e : bool) (msg : string) : outcome unit :=
  if e then Returns tt else Throws msg.

Definition CHECK (e : bool) : outcome unit :=
  EXPECT e "Expression evaluated as false".

(** A loop body run over the values its counter takes, stopping at the first
    abnormal outcome. *)
Fixpoint foldM {A St} (body : A -> St -> outcome St) (l : list A) (s : St)
  : outcome St :=
  match l with
  | [] => Returns s
  | a :: l' => let* s' := body a s in foldM body l' s'
  end.

(** ** Bytes *)

Abbreviation ByteVector := (list byte) (only parsing).

(** [std::to_string] on an unsigned value. *)
Definition to_string (n : nat) : string := NilZero.string_of_uint (Nat.to_uint n).

(** ** Dimensions (zarr.dimension.hh) *)

Inductive ZarrDimensionType :=
| ZarrDimensionType_Space
| ZarrDimensionType_Channel
| ZarrDimensionType_Time
| ZarrDimensionType_Other.

(** A value of a C enum as it arrives in a settings struct: one of the
    enumerators, or a number at or above the enum's [...Count]. *)
Inductive c_enum (E : Type) :=
| Enumerator (e : E)
| OutOfRange (raw : nat).
Arguments Enumerator {E} e.
Arguments OutOfRange {E} raw.

#[global] Instance ZarrDimensionType_eq_dec : EqDecision ZarrDimensionType.
Proof. solve_decision. Defined.

#[global] Instance c_enum_eq_dec {E} `{EqDecision E} : EqDecision (c_enum E).
Proof. solve_decision. Defined.

(** [v >= ...Count] *)
Definition at_least_count {E} (v : c_enum E) : bool :=
  match v with Enumerator _ => false | OutOfRange _ => true end.

(** The number of a value that is out of range, as the messages print it. *)
Definition raw_value {E} (v : c_enum E) : nat :=
  match v with Enumerator _ => 0 | OutOfRange raw => raw end.

Record ZarrDimension := {
  name : string;
  type : c_enum ZarrDimensionType;
  array_size_px : nat;
  chunk_size_px : nat;
  shard_size_chunks : nat
}.

(** [ArrayDimensions]: the ordered dimensions; [ndims()], [at(i)],
    [width_dim()], [height_dim()]. *)
Abbreviation ArrayDimensions := (list ZarrDimension) (only parsing).

Definition ndims (dimensions : ArrayDimensions) : nat := length dimensions.

Definition width_dim (dimensions : ArrayDimensions) : option ZarrDimension :=
  dimensions !! (ndims dimensions - 1).

Definition height_dim (dimensions : ArrayDimensions) : option ZarrDimension :=
  dimensions !! (ndims dimensions - 2).

Definition DimensionPartsFun := ZarrDimension -> nat.

(** ** sink.cpp: construct_data_paths *)

(** [path + (path.empty() ? kstr : "/" + kstr)] *)
Definition push_index (path : string) (k : nat) : string :=
  let kstr := to_string k in
  path +:+ (if String.eqb path "" then kstr else "/" +:+ kstr).

(** The [j] loop: [n_paths] times, pop the front of the queue and push its
    [n_parts] children at the back. *)
Fixpoint expand_queue (n_paths n_parts : nat) (paths_queue : list string)
  : outcome (list string) :=
  match n_paths with
  | 0 => Returns paths_queue
  | S j =>
      match paths_queue with
      | [] => Undefined (* front() of an empty queue *)
      | path :: rest =>
          expand_queue j n_parts (rest ++ map (push_index path) (seq 0 n_parts))
      end
  end.

(** The [i] loop over the intermediate dimensions [1 .. ndims-2]. *)
Definition intermediate_paths (dimensions : ArrayDimensions)
    (parts_along_dimension : DimensionPartsFun) (paths_queue : list string)
  : outcome (list string) :=
  foldM (fun i paths_queue =>
           match dimensions !! i with
           | None => Throws "out_of_range"
           | Some dim =>
               let n_parts := parts_along_dimension dim in
               let* _ := CHECK (negb (n_parts =? 0)) in
               expand_queue (length paths_queue) n_parts paths_queue
           end)
        (seq 1 (ndims dimensions - 2)) paths_queue.

(** The final loop: every queued path gets one child per part of the width
    dimension, always behind a separator. *)
Fixpoint final_paths (n_paths n_parts : nat) (paths_queue paths_out : list string)
  : outcome (list string) :=
  match n_paths with
  | 0 => Returns paths_out
  | S i =>
      match paths_queue with
      | [] => Undefined
      | path :: rest =>
          final_paths i n_parts rest
            (paths_out ++ map (fun j => path +:+ "/" +:+ to_string j) (seq 0 n_parts))
      end
  end.

Definition construct_data_paths (base_path : string) (dimensions : ArrayDimensions)
    (parts_along_dimension : DimensionPartsFun) : outcome (list string) :=
  let paths_queue := [base_path] in
  let* paths_queue :=
    intermediate_paths dimensions parts_along_dimension paths_queue in
  match width_dim dimensions with
  | None => Undefined
  | Some dim =>
      let n_parts := parts_along_dimension dim in
      let* _ := CHECK (negb (n_parts =? 0)) in
      final_paths (length paths_queue) n_parts paths_queue []
  end.

(** Row-major enumeration of the index tuples of a grid with the given
    number of parts per axis: the first axis varies slowest. *)
Fixpoint index_tuples (parts : list nat) : list (list nat) :=
  match parts with
  | [] => [[]]
  | n :: parts' =>
      flat_map (fun k => map (cons k) (index_tuples parts')) (seq 0 n)
  end.

(** The path of one index tuple: the base path followed by one component
    per index. *)
Definition data_path (base_path : string) (idx : list nat) : string :=
  fold_left push_index (removelast idx) base_path
    +:+ "/" +:+ to_string (List.last idx 0).

(** ** The environment: filesystem and object store

    [std::filesystem] and the S3 client are outside the repository; the
    model keeps what the stream observes of them.  A location is the
    sequence of names that leads to it from the root directory, [cwd] is the
    location of the directory the process runs in, and there are no
    symbolic links.  Paths are the strings the program passes: their
    decomposition follows the generic pathname format, their resolution the
    rules of POSIX.  A query of the status fails in no other way than by
    finding nothing. *)

Inductive fs_node :=
| Directory (writable : bool)
| RegularFile (content : list byte).

Record World := {
  files : gmap (list string) fs_node;
  cwd : list string;
  (** locations at which removing or creating reports an error *)
  io_errors : gset (list string);
  (** [S3ConnectionPool]'s constructor throws with this message *)
  s3_pool_error : option string;
  s3_connection_valid : bool;
  s3_buckets : gset string
}.

Definition set_files (f : gmap (list string) fs_node) (w : World) : World :=
  {| files := f; cwd := cwd w; io_errors := io_errors w;
     s3_pool_error := s3_pool_error w;
     s3_connection_valid := s3_connection_valid w; s3_buckets := s3_buckets w |}.

Fixpoint split_on (sep : ascii) (s cur : string) : list string :=
  match s with
  | EmptyString => [cur]
  | String c s' =>
      if Ascii.eqb c sep then cur :: split_on sep s' ""
      else split_on sep s' (cur +:+ String c "")
  end.

(** The file names of a path: what stands between its separators. *)
Definition path_names (p : string) : list string :=
  filter (fun c => c <> ""%string) (split_on "/" p "").

(** [path.has_root_directory()] *)
Definition has_root_directory (p : string) : bool := String.prefix "/" p.

Definition is_separator (c : ascii) : bool := Ascii.eqb c "/".

Fixpoint skip_while (f : ascii -> bool) (l : list ascii) : list ascii :=
  match l with
  | [] => []
  | c :: l' => if f c then skip_while f l' else l
  end.

(** Whether the path ends in a separator. *)
Definition has_trailing_separator (p : string) : bool :=
  match rev (list_ascii_of_string p) with
  | c :: _ => is_separator c
  | [] => false
  end.

(** [path.parent_path()]: the path itself when it has no file name at all
    (it is empty or the root directory); otherwise the path without its last
    element (the last file name, or the empty element after a trailing
    separator) and without the separators before that element, of which the
    root directory stays. *)
Definition parent_path (p : string) : string :=
  let reversed := rev (list_ascii_of_string p) in
  let without_filename := skip_while (fun c => negb (is_separator c)) reversed in
  let without_separators := skip_while is_separator without_filename in
  match skip_while is_separator reversed with
  | [] => p
  | _ :: _ =>
      match without_separators, without_filename with
      | _ :: _, _ => string_of_list_ascii (rev without_separators)
      | [], _ :: _ => "/"
      | [], [] => ""
      end
  end.

(** One step of the resolution of a path: from the directory at [cur]
    through the name [name]. *)
Definition enter (cur : list string) (name : string) : list string :=
  if String.eqb name "." then cur
  else if String.eqb name ".." then removelast cur
  else cur ++ [name].

(** Where the resolution of a path starts. *)
Definition start_of (w : World) (p : string) : list string :=
  if has_root_directory p then [] else cwd w.

(** The location a path names. *)
Definition fs_location (w : World) (p : string) : list string :=
  fold_left enter (path_names p) (start_of w p).

(** Whether the resolution gets through: every name is entered from a
    directory that exists. *)
Fixpoint passable (f : gmap (list string) fs_node) (cur : list string)
    (names : list string) : bool :=
  match names with
  | [] => true
  | name :: names =>
      match f !! cur with
      | Some (Directory _) => passable f (enter cur name) names
      | _ => false
      end
  end.

(** [fs::status(p)]: the node a path resolves to.  The empty path resolves
    to nothing, and a path with a trailing separator to directories only. *)
Definition fs_status (w : World) (p : string) : option fs_node :=
  if String.eqb p "" then None
  else if negb (passable (files w) (start_of w p) (path_names p)) then None
  else match files w !! fs_location w p with
       | Some (RegularFile content) =>
           if has_trailing_separator p then None else Some (RegularFile content)
       | node => node
       end.

Definition fs_exists (w : World) (p : string) : bool :=
  bool_decide (is_Some (fs_status w p)).

Definition fs_is_directory (w : World) (p : string) : bool :=
  match fs_status w p with Some (Directory _) => true | _ => false end.

(** Whether the permissions of the directory at [p] have a write bit. *)
Definition fs_is_writable (w : World) (p : string) : bool :=
  match fs_status w p with Some (Directory wr) => wr | _ => false end.

(** [q] is [p] or lies beneath it. *)
Definition beneath (p q : list string) : Prop := p `prefix_of` q.

(** [fs::remove_all(p, ec)]; the result is the error code.  What lies
    beneath the node goes first; then [remove(p)] resolves [p] once more and
    takes the node itself.  When the path no longer resolves nothing more
    is removed, and that is no error; the system refuses to take the root
    directory and a path that ends in [.] or [..]. *)
Definition fs_remove_all (w : World) (p : string) : World * option string :=
  match fs_status w p with
  | None => (w, None)
  | Some _ =>
      let target := fs_location w p in
      if bool_decide (target ∈ io_errors w) then (w, Some "Permission denied"%string)
      else
        let w := set_files (filter (fun kv => ¬ (beneath target kv.1 /\ kv.1 <> target))
                                   (files w)) w in
        if negb (passable (files w) (start_of w p) (path_names p)) then (w, None)
        else
          match last (path_names p) with
          | None => (w, Some "Device or resource busy"%string)
          | Some name =>
              if String.eqb name "." then (w, Some "Invalid argument"%string)
              else if String.eqb name ".." then (w, Some "Directory not empty"%string)
              else (set_files (delete target (files w)) w, None)
          end
  end.

(** The walk of [create_directories]: every name that is missing where the
    walk enters it becomes a directory.  [created] tells whether the last
    file name entered was made by this walk. *)
Fixpoint make_directories (f : gmap (list string) fs_node)
    (errors : gset (list string)) (cur : list string) (names : list string)
    (created : bool) : gmap (list string) fs_node * bool * option string :=
  match names with
  | [] =>
      match f !! cur with
      | Some (Directory _) => (f, created, None)
      | _ => (f, false, Some "Not a directory"%string)
      end
  | name :: names =>
      match f !! cur with
      | Some (Directory _) =>
          let next := enter cur name in
          if String.eqb name "." || String.eqb name ".."
          then make_directories f errors next names created
          else
            match f !! next with
            | Some _ => make_directories f errors next names false
            | None =>
                if bool_decide (next ∈ errors)
                then (f, false, Some "Permission denied"%string)
                else make_directories (<[next := Directory true]> f) errors
                                      next names true
            end
      | Some (RegularFile _) => (f, false, Some "Not a directory"%string)
      | None => (f, false, Some "No such file or directory"%string)
      end
  end.

(** [fs::create_directories(p, ec)]: true iff a directory was created for
    the directory [p] names; an existing directory gives false without an
    error, the empty path false with one. *)
Definition fs_create_directories (w : World) (p : string)
  : World * bool * option string :=
  if String.eqb p "" then (w, false, Some "Invalid argument"%string)
  else if fs_is_directory w p then (w, false, None)
  else
    let '(f, created, ec) :=
      make_directories (files w) (io_errors w) (start_of w p) (path_names p)
                       false in
    (set_files f w, created, ec).

(** ** Settings (acquire.zarr.types.h) *)

Definition ZarrVersion_2 : nat := 2.
Definition ZarrVersion_3 : nat := 3.
Definition ZarrVersionCount : nat := 4.

Inductive ZarrDataType :=
| ZarrDataType_uint8 | ZarrDataType_uint16 | ZarrDataType_uint32 | ZarrDataType_uint64
| ZarrDataType_int8 | ZarrDataType_int16 | ZarrDataType_int32 | ZarrDataType_int64
| ZarrDataType_float32 | ZarrDataType_float64.

Inductive ZarrCompressor := ZarrCompressor_None | ZarrCompressor_Blosc1.

Inductive ZarrCompressionCodec :=
| ZarrCompressionCodec_None
| ZarrCompressionCodec_BloscLZ4
| ZarrCompressionCodec_BloscZstd.

#[global] Instance ZarrDataType_eq_dec : EqDecision ZarrDataType.
Proof. solve_decision. Defined.

#[global] Instance ZarrCompressor_eq_dec : EqDecision ZarrCompressor.
Proof. solve_decision. Defined.

#[global] Instance ZarrCompressionCodec_eq_dec : EqDecision ZarrCompressionCodec.
Proof. solve_decision. Defined.

Definition BLOSC_NOSHUFFLE : nat := 0.
Definition BLOSC_SHUFFLE : nat := 1.
Definition BLOSC_BITSHUFFLE : nat := 2.

Record S3Settings := {
  endpoint : string;
  bucket_name : string;
  region : option string
}.

Record CompressionSettings := {
  compressor : c_enum ZarrCompressor;
  codec : c_enum ZarrCompressionCodec;
  level : nat;
  shuffle : nat
}.

(** [ZarrStreamSettings_s]; a null pointer is [None], and the dimension
    array carries its [dimension_count] as its length. *)
Record ZarrStreamSettings_s := {
  store_path : option string;
  s3_settings : option S3Settings;
  compression_settings : option CompressionSettings;
  dimensions : option (list ZarrDimension);
  multiscale : bool;
  data_type : c_enum ZarrDataType;
  version : nat;
  max_threads : nat
}.

Definition dimension_count (settings : ZarrStreamSettings_s) : nat :=
  match dimensions settings with Some ds => length ds | None => 0 end.

(** String helpers of [zarr.common.hh]. *)
Class StringLib := {
  trim : string -> string;
  is_empty_string : string -> bool
}.

Section Validation.
Context `{StringLib}.

Definition is_s3_acquisition (settings : ZarrStreamSettings_s) : bool :=
  bool_decide (is_Some (s3_settings settings)).

Definition is_compressed_acquisition (settings : ZarrStreamSettings_s) : bool :=
  bool_decide (is_Some (compression_settings settings)).

Definition construct_s3_settings (settings : S3Settings) : S3Settings :=
  {| endpoint := trim (endpoint settings);
     bucket_name := trim (bucket_name settings);
     region := match region settings with
               | Some r => Some (trim r)
               | None => None
               end |}.

(** The validators return their verdict and the error string they leave
    behind ([error] is an in-out parameter in the source). *)
Definition validate_s3_settings (settings : S3Settings) (error : string)
  : bool * string :=
  if is_empty_string (endpoint settings) then (false, "S3 endpoint is empty"%string)
  else
    let trimmed := trim (bucket_name settings) in
    if (String.length trimmed <? 3) || (63 <? String.length trimmed) then
      (false, "Invalid length for S3 bucket name: "
              +:+ to_string (String.length trimmed)
              +:+ ". Must be between 3 and 63 characters")
    else (true, error).

Definition validate_filesystem_store_path (w : World) (data_root : string)
    (error : string) : bool * string :=
  let path := data_root in
  let parent_path := parent_path path in
  let parent_path := if String.eqb parent_path "" then "."%string
                     else parent_path in
  if negb (fs_exists w parent_path) || negb (fs_is_directory w parent_path) then
    (false, "Parent path '" +:+ parent_path
            +:+ "' does not exist or is not a directory")
  else if negb (fs_is_writable w parent_path) then
    (false, "Parent path '" +:+ parent_path +:+ "' is not writable")
  else (true, error).

Definition validate_compression_settings (settings : CompressionSettings)
    (error : string) : bool * string :=
  if at_least_count (compressor settings) then
    (false, "Invalid compressor: " +:+ to_string (raw_value (compressor settings)))
  else if at_least_count (codec settings) then
    (false, "Invalid compression codec: "
            +:+ to_string (raw_value (codec settings)))
  else if negb (bool_decide (compressor settings = Enumerator ZarrCompressor_None))
          && bool_decide (codec settings = Enumerator ZarrCompressionCodec_None)
  then (false, "Compression codec must be set when using a compressor"%string)
  else if 9 <? level settings then
    (false, "Invalid compression level: " +:+ to_string (level settings)
            +:+ ". Must be between 0 and 9")
  else if negb (shuffle settings =? BLOSC_NOSHUFFLE)
          && negb (shuffle settings =? BLOSC_SHUFFLE)
          && negb (shuffle settings =? BLOSC_BITSHUFFLE)
  then (false, "Invalid shuffle: " +:+ to_string (shuffle settings)
               +:+ ". Must be " +:+ to_string BLOSC_NOSHUFFLE
               +:+ " (no shuffle), " +:+ to_string BLOSC_SHUFFLE
               +:+ " (byte  shuffle), or " +:+ to_string BLOSC_BITSHUFFLE
               +:+ " (bit shuffle)")
  else (true, error).

Definition validate_dimension (dimension : ZarrDimension) (version : nat)
    (is_append : bool) (error : string) : bool * string :=
  if is_empty_string (name dimension) then (false, "Dimension name is empty"%string)
  else if at_least_count (type dimension) then
    (false, "Invalid dimension type: "
            +:+ to_string (raw_value (type dimension)))
  else if negb is_append && (array_size_px dimension =? 0) then
    (false, "Array size must be nonzero"%string)
  else if chunk_size_px dimension =? 0 then
    (false, "Invalid chunk size: " +:+ to_string (chunk_size_px dimension))
  else if (version =? ZarrVersion_3) && (shard_size_chunks dimension =? 0) then
    (false, "Shard size must be nonzero"%string)
  else (true, error).

(** The loop [for (i = 0; i < ndims; ++i)] over the dimensions. *)
Fixpoint validate_dimensions (dims : list ZarrDimension) (i : nat) (version : nat)
    (error : string) : bool * string :=
  match dims with
  | [] => (true, error)
  | dim :: rest =>
      let '(ok, error) := validate_dimension dim version (i =? 0) error in
      if ok then validate_dimensions rest (S i) version error
      else (false, error)
  end.

Definition is_space (dim : option ZarrDimension) : bool :=
  match dim with
  | Some d => bool_decide (type d = Enumerator ZarrDimensionType_Space)
  | None => false
  end.

(** [ZarrStream_s::validate_settings_]; the second component is [error_]. *)
Definition validate_settings_ (w : World) (settings : option ZarrStreamSettings_s)
    (error_ : string) : bool * string :=
  match settings with
  | None => (false, "Null pointer: settings"%string)
  | Some settings =>
    let version := version settings in
    if (version <? ZarrVersion_2) || (ZarrVersionCount <=? version) then
      (false, "Invalid Zarr version: " +:+ to_string version)
    else
    match store_path settings with
    | None => (false, "Null pointer: store_path"%string)
    | Some store_path =>
      if String.eqb store_path "" then (false, "Store path is empty"%string) else
      let '(ok, error_) :=
        match s3_settings settings with
        | Some s3 => validate_s3_settings s3 error_
        | None => validate_filesystem_store_path w store_path error_
        end in
      if negb ok then (false, error_) else
      if at_least_count (data_type settings) then
        (false, "Invalid data type: "
                +:+ to_string (raw_value (data_type settings)))
      else
      let '(ok, error_) :=
        match compression_settings settings with
        | Some c => validate_compression_settings c error_
        | None => (true, error_)
        end in
      if negb ok then (false, error_) else
      match dimensions settings with
      | None => (false, "Null pointer: dimensions"%string)
      | Some dims =>
        let ndims := length dims in
        if ndims <? 3 then
          (false, "Invalid number of dimensions: " +:+ to_string ndims
                  +:+ ". Must be at least 3")
        else if negb (is_space (dims !! (ndims - 1))) then
          (false, "Last dimension must be of type Space"%string)
        else if negb (is_space (dims !! (ndims - 2))) then
          (false, "Second to last dimension must be of type Space"%string)
        else validate_dimensions dims 0 version error_
      end
    end
  end.

End Validation.

(** ** Element types

    [double] is IEEE binary64 and [float] binary32, as [spec_float]s with the
    operations of [SpecFloat] (round to nearest, ties to even).  Integers are
    their values in [Z]; frames are byte vectors that the scalers read and
    write through [reinterpret_cast], least significant byte first. *)

Definition double := spec_float.

Definition dadd : double -> double -> double := SFadd 53 1024.
Definition dmul : double -> double -> double := SFmul 53 1024.

(** [static_cast<double>(z)] for an integer [z]. *)
Definition double_of_Z (z : Z) : double := binary_normalize 53 1024 z 0 false.

(** The literals [0.25], [0.5], [1.], and [std::pow(2, i)]. *)
Definition quarter : double := binary_normalize 53 1024 1 (-2) false.
Definition half : double := binary_normalize 53 1024 1 (-1) false.
Definition one : double := double_of_Z 1.
Definition pow2 (i : nat) : double := binary_normalize 53 1024 1 (Z.of_nat i) false.

(** The integer part of a finite double (rounding toward zero). *)
Definition trunc_double (d : double) : option Z :=
  match d with
  | S754_zero _ => Some 0%Z
  | S754_finite s m e =>
      let magnitude :=
        match e with
        | Zneg k => Z.shiftr (Zpos m) (Zpos k)
        | _ => Z.shiftl (Zpos m) e
        end in
      Some (if s then Z.opp magnitude else magnitude)
  | _ => None
  end.

(** [static_cast<T>(d)] for an integer type with the given range: the
    integer part when it fits, undefined otherwise. *)
Definition int_of_double (lo hi : Z) (d : double) : option Z :=
  match trunc_double d with
  | Some z => if (lo <=? z)%Z && (z <=? hi)%Z then Some z else None
  | None => None
  end.

(** Conversions between binary32 and binary64. *)
Definition double_of_float (f : spec_float) : double :=
  match f with
  | S754_finite s m e => binary_normalize 53 1024 (cond_Zopp s (Zpos m)) e s
  | _ => f
  end.

Definition float_of_double (d : double) : spec_float :=
  match d with
  | S754_finite s m e => binary_normalize 24 128 (cond_Zopp s (Zpos m)) e s
  | _ => d
  end.

(** Object representations. *)
Definition byte_of_Z (z : Z) : byte :=
  default x00 (Byte.of_N (Z.to_N (z mod 256))).

Fixpoint le_bytes (n : nat) (z : Z) : list byte :=
  match n with
  | 0 => []
  | S n' => byte_of_Z z :: le_bytes n' (z / 256)
  end.

Fixpoint le_value (bs : list byte) : Z :=
  match bs with
  | [] => 0%Z
  | b :: bs' => (Z.of_N (Byte.to_N b) + 256 * le_value bs')%Z
  end.

Definition load_unsigned (n : nat) (bs : list byte) : Z := le_value (take n bs).

Definition load_signed (n : nat) (bs : list byte) : Z :=
  let u := load_unsigned n bs in
  if (u <? 2 ^ (8 * Z.of_nat n - 1))%Z then u else (u - 2 ^ (8 * Z.of_nat n))%Z.

(** IEEE interchange encoding with [prec] significand bits (hidden bit
    included) and [ew] exponent bits.  NaNs lose their payload. *)
Definition float_of_bits (prec emax ew : Z) (b : Z) : spec_float :=
  let mw := (prec - 1)%Z in
  let s := Z.testbit b (mw + ew) in
  let E := ((b / 2 ^ mw) mod 2 ^ ew)%Z in
  let m := (b mod 2 ^ mw)%Z in
  if (E =? 0)%Z then
    match m with
    | Zpos p => S754_finite s p (emin prec emax)
    | _ => S754_zero s
    end
  else if (E =? 2 ^ ew - 1)%Z then
    if (m =? 0)%Z then S754_infinity s else S754_nan
  else
    match (m + 2 ^ mw)%Z with
    | Zpos p => S754_finite s p (E + emin prec emax - 1)
    | _ => S754_nan
    end.

Definition bits_of_float (prec emax ew : Z) (f : spec_float) : Z :=
  let mw := (prec - 1)%Z in
  let sign (s : bool) := if s then (2 ^ (mw + ew))%Z else 0%Z in
  match f with
  | S754_zero s => sign s
  | S754_infinity s => (sign s + (2 ^ ew - 1) * 2 ^ mw)%Z
  | S754_nan => ((2 ^ ew - 1) * 2 ^ mw + 2 ^ (mw - 1))%Z
  | S754_finite s m e =>
      if (Zpos m <? 2 ^ mw)%Z then (sign s + Zpos m)%Z
      else (sign s + (e - emin prec emax + 1) * 2 ^ mw + (Zpos m - 2 ^ mw))%Z
  end.

(** What [scale_image<T>] and [average_two_frames<T>] need of [T]. *)
Record PixelType := {
  px : Type;
  sizeof : nat;
  (** [reinterpret_cast<const T*>(p)[0]] *)
  load : list byte -> px;
  (** the bytes of a [T] *)
  store : px -> list byte;
  (** [static_cast<double>(x)] *)
  to_double : px -> double;
  (** [static_cast<T>(d)]; [None] where the conversion is undefined *)
  of_double : double -> option px;
  (** the operand [a + b] of [0.5 * (a + b)]: the sum in the type the usual
      arithmetic conversions give it, converted to double; [None] on signed
      overflow *)
  sum_as_double : px -> px -> option double
}.

Definition wrapping_sum (bits : Z) (a b : Z) : option Z :=
  Some ((a + b) mod 2 ^ bits)%Z.

Definition exact_sum (a b : Z) : option Z := Some (a + b)%Z.

Definition checked_sum (bits : Z) (a b : Z) : option Z :=
  let c := (a + b)%Z in
  if (- 2 ^ (bits - 1) <=? c)%Z && (c <? 2 ^ (bits - 1))%Z then Some c else None.

Definition unsigned_pixel (bytes : nat) (sum : Z -> Z -> option Z) : PixelType :=
  {| px := Z;
     sizeof := bytes;
     load := load_unsigned bytes;
     store := le_bytes bytes;
     to_double := double_of_Z;
     of_double := int_of_double 0 (2 ^ (8 * Z.of_nat bytes) - 1);
     sum_as_double := fun a b => double_of_Z <$> sum a b |}.

Definition signed_pixel (bytes : nat) (sum : Z -> Z -> option Z) : PixelType :=
  {| px := Z;
     sizeof := bytes;
     load := load_signed bytes;
     store := le_bytes bytes;
     to_double := double_of_Z;
     of_double := int_of_double (- 2 ^ (8 * Z.of_nat bytes - 1))
                                (2 ^ (8 * Z.of_nat bytes - 1) - 1);
     sum_as_double := fun a b => double_of_Z <$> sum a b |}.

Definition float_pixel : PixelType :=
  {| px := spec_float;
     sizeof := 4;
     load := fun bs => float_of_bits 24 128 8 (load_unsigned 4 bs);
     store := fun f => le_bytes 4 (bits_of_float 24 128 8 f);
     to_double := double_of_float;
     of_double := fun d => Some (float_of_double d);
     sum_as_double := fun a b => Some (double_of_float (SFadd 24 128 a b)) |}.

Definition double_pixel : PixelType :=
  {| px := spec_float;
     sizeof := 8;
     load := fun bs => float_of_bits 53 1024 11 (load_unsigned 8 bs);
     store := fun f => le_bytes 8 (bits_of_float 53 1024 11 f);
     to_double := fun d => d;
     of_double := fun d => Some d;
     sum_as_double := fun a b => Some (dadd a b) |}.

(** The instantiations the [switch (dtype_)] selects.  Operands narrower
    than [int] are promoted to [int]; [unsigned] sums wrap; [int] and
    [long] sums must not overflow. *)
Definition pixel_of (t : ZarrDataType) : PixelType :=
  match t with
  | ZarrDataType_uint8 => unsigned_pixel 1 exact_sum
  | ZarrDataType_uint16 => unsigned_pixel 2 exact_sum
  | ZarrDataType_uint32 => unsigned_pixel 4 (wrapping_sum 32)
  | ZarrDataType_uint64 => unsigned_pixel 8 (wrapping_sum 64)
  | ZarrDataType_int8 => signed_pixel 1 exact_sum
  | ZarrDataType_int16 => signed_pixel 2 exact_sum
  | ZarrDataType_int32 => signed_pixel 4 (checked_sum 32)
  | ZarrDataType_int64 => signed_pixel 8 (checked_sum 64)
  | ZarrDataType_float32 => float_pixel
  | ZarrDataType_float64 => double_pixel
  end.

(** ** The scalers (zarr.stream.cpp, anonymous namespace) *)

Definition defined {A} (o : option A) : outcome A :=
  match o with Some a => Returns a | None => Undefined end.

(** [p_as_T[idx]] *)
Definition peek (T : PixelType) (p : list byte) (idx : nat) : px T :=
  load T (drop (idx * sizeof T) p).

(** [p_as_T[idx] = v], inside the buffer. *)
Definition poke (T : PixelType) (p : list byte) (idx : nat) (v : px T)
  : outcome (list byte) :=
  let off := idx * sizeof T in
  let bs := store T v in
  if off + length bs <=? length p
  then Returns (take off p ++ bs ++ drop (off + length bs) p)
  else Undefined.

(** The values of [i] in [for (i = 0; i < stop; i += 2)]. *)
Definition by_twos (stop : nat) : list nat :=
  map (fun k => 2 * k) (seq 0 (Nat.div2 (S stop))).

Definition bool_to_nat (b : bool) : nat := if b then 1 else 0.

(** The value the inner loop of [scale_image] stores for the input position
    [(row, col)]: the mean of the pixel, its right, lower and diagonal
    neighbours, a neighbour beyond the edge replaced by the pixel on the
    edge. *)
Definition scaled_value (T : PixelType) (src : list byte) (width height : nat)
    (row col : nat) : option (px T) :=
  let downscale := 2 in
  let factor := quarter in
  let w_pad := width + width mod downscale in
  let h_pad := height + height mod downscale in
  let pad_height := (row =? height - 1) && negb (height =? h_pad) in
  let src_idx := row * width + col in
  let pad_width := (col =? width - 1) && negb (width =? w_pad) in
  let here := to_double T (peek T src src_idx) in
  let right :=
    to_double T (peek T src (src_idx + (1 - bool_to_nat pad_width))) in
  let down :=
    to_double T (peek T src (src_idx + width * (1 - bool_to_nat pad_height))) in
  let diag :=
    to_double T
      (peek T src (src_idx + width * (1 - bool_to_nat pad_height)
                   + (1 - bool_to_nat pad_width))) in
  of_double T (dmul factor (dadd (dadd (dadd here right) down) diag)).

(** [scale_image<T>(src, width, height)]: the downscaled bytes and the
    updated [width] and [height]. *)
Definition scale_image (T : PixelType) (src : list byte) (width height : nat)
  : outcome (list byte * nat * nat) :=
  let bytes_of_src := length src in
  let bytes_of_frame := width * height * sizeof T in
  let* _ := EXPECT (bytes_of_frame <=? bytes_of_src) "Expecting at least" in
  let downscale := 2 in
  let w_pad := width + width mod downscale in
  let h_pad := height + height mod downscale in
  (* w_pad * h_pad * factor * bytes_of_type is a whole number; the cast to
     uint32_t is defined when it is below 2^32 *)
  let* size_downscaled :=
    defined (let n := w_pad * h_pad * sizeof T / 4 in
             if (Z.of_nat n <? 2 ^ 32)%Z then Some n else None) in
  let dst := repeat x00 size_downscaled in
  let* '(dst, dst_idx) :=
    foldM (fun row '(dst, dst_idx) =>
      foldM (fun col '(dst, dst_idx) =>
        let* v := defined (scaled_value T src width height row col) in
        let* dst := poke T dst dst_idx v in
        Returns (dst, S dst_idx))
        (by_twos width) (dst, dst_idx))
      (by_twos height) (dst, 0) in
  Returns (dst, w_pad / 2, h_pad / 2).

(** [static_cast<T>(0.5 * (a + b))] *)
Definition averaged_value (T : PixelType) (a b : px T) : option (px T) :=
  match sum_as_double T a b with
  | Some sum => of_double T (dmul half sum)
  | None => None
  end.

(** [average_two_frames<T>(dst, src)]: the new contents of [dst]. *)
Definition average_two_frames (T : PixelType) (dst src : list byte)
  : outcome (list byte) :=
  let bytes_of_dst := length dst in
  let bytes_of_src := length src in
  let* _ := EXPECT (bytes_of_dst =? bytes_of_src) "Expecting bytes in destination" in
  let num_pixels := bytes_of_src / sizeof T in
  foldM (fun i dst =>
           let* v := defined (averaged_value T (peek T dst i) (peek T src i)) in
           poke T dst i v)
        (seq 0 num_pixels) dst.

(** ** Collaborators of the stream *)

(** [zarr::ArrayWriter] (array.writer.hh): [write_frame] returns the number
    of bytes written; [finalize_array] reports success. *)
Class ArrayWriterOps (W : Type) := {
  write_frame : W -> list byte -> W * nat;
  finalize_array : W -> bool
}.

(** [zarr::Sink] (sink.hh) and the constructors of its two variants.  The
    constructor of the file sink works on the filesystem. *)
Class SinkOps (K : Type) := {
  sink_write : K -> nat -> list byte -> K * bool;
  flush_ : K -> K * bool;
  new_FileSink : string -> World -> World * outcome K;
  new_S3Sink : string -> string -> outcome K
}.

(** JSON values ([nlohmann::json]); objects keep their members as a list of
    key/value pairs with distinct keys. *)
#[warnings="-register-all"]
Inductive json :=
| JNull
| JBool (b : bool)
| JInt (z : Z)
| JFloat (d : double)
| JString (s : string)
| JArray (elements : list json)
| JObject (members : list (string * json)).

(** [json::parse(text, nullptr, false, true)] ([None]: the value is
    discarded) and [json::dump(indent)]. *)
Class JsonLib := {
  json_parse : string -> option json;
  json_dump : json -> nat -> string
}.

Fixpoint members_set (key : string) (v : json) (members : list (string * json))
  : list (string * json) :=
  match members with
  | [] => [(key, v)]
  | (k, x) :: rest =>
      if String.eqb k key then (k, v) :: rest else (k, x) :: members_set key v rest
  end.

(** [j[key] = v] *)
Definition json_set (key : string) (v : json) (j : json) : json :=
  match j with
  | JObject members => JObject (members_set key v members)
  | JNull => JObject [(key, v)]
  | _ => j
  end.

Fixpoint members_get (key : string) (members : list (string * json)) : option json :=
  match members with
  | [] => None
  | (k, x) :: rest => if String.eqb k key then Some x else members_get key rest
  end.

(** [j.at(key)] *)
Definition json_get (key : string) (j : json) : option json :=
  match j with
  | JObject members => members_get key members
  | _ => None
  end.

(** [j.push_back(v)] on an array or null value. *)
Definition json_push_back (v : json) (j : json) : json :=
  match j with
  | JArray elements => JArray (elements ++ [v])
  | JNull => JArray [v]
  | _ => j
  end.

Inductive ZarrStatusCode :=
| ZarrStatusCode_Success
| ZarrStatusCode_InvalidArgument
| ZarrStatusCode_WillNotOverwrite
| ZarrStatusCode_InternalError
| ZarrStatusCode_IOError.

(** ** The stream (zarr.stream.hh) *)

Section Stream.
Context {W K : Type} `{ArrayWriterOps W} `{SinkOps K} `{JsonLib} `{StringLib}.

(** [ZarrStream_s].  A [unique_ptr] that may be null is an [option]; the
    thread pool is represented by what it does to the stream: calls of
    [set_error_]. *)
Record ZarrStream_s := {
  error_ : string;
  version_ : nat;
  store_path_ : string;
  s3_settings_ : option S3Settings;
  compression_settings_ : option CompressionSettings;
  dtype_ : c_enum ZarrDataType;
  dimensions_ : list ZarrDimension;
  multiscale_ : bool;
  frame_buffer_ : list byte;
  frame_buffer_offset_ : nat;
  (** whether the pointer is set *)
  s3_connection_pool_ : bool;
  writers_ : list W;
  metadata_sinks_ : gmap string (option K);
  scaled_frames_ : gmap nat (option (list byte))
}.

Definition with_error_ (e : string) (s : ZarrStream_s) : ZarrStream_s :=
  {| error_ := e; version_ := version_ s; store_path_ := store_path_ s;
     s3_settings_ := s3_settings_ s;
     compression_settings_ := compression_settings_ s; dtype_ := dtype_ s;
     dimensions_ := dimensions_ s; multiscale_ := multiscale_ s;
     frame_buffer_ := frame_buffer_ s;
     frame_buffer_offset_ := frame_buffer_offset_ s;
     s3_connection_pool_ := s3_connection_pool_ s; writers_ := writers_ s;
     metadata_sinks_ := metadata_sinks_ s; scaled_frames_ := scaled_frames_ s |}.

Definition with_frame_buffer_ (b : list byte) (o : nat) (s : ZarrStream_s)
  : ZarrStream_s :=
  {| error_ := error_ s; version_ := version_ s; store_path_ := store_path_ s;
     s3_settings_ := s3_settings_ s;
     compression_settings_ := compression_settings_ s; dtype_ := dtype_ s;
     dimensions_ := dimensions_ s; multiscale_ := multiscale_ s;
     frame_buffer_ := b;
     frame_buffer_offset_ := o;
     s3_connection_pool_ := s3_connection_pool_ s; writers_ := writers_ s;
     metadata_sinks_ := metadata_sinks_ s; scaled_frames_ := scaled_frames_ s |}.

Definition with_s3_connection_pool_ (p : bool) (s : ZarrStream_s) : ZarrStream_s :=
  {| error_ := error_ s; version_ := version_ s; store_path_ := store_path_ s;
     s3_settings_ := s3_settings_ s;
     compression_settings_ := compression_settings_ s; dtype_ := dtype_ s;
     dimensions_ := dimensions_ s; multiscale_ := multiscale_ s;
     frame_buffer_ := frame_buffer_ s;
     frame_buffer_offset_ := frame_buffer_offset_ s;
     s3_connection_pool_ := p; writers_ := writers_ s;
     metadata_sinks_ := metadata_sinks_ s; scaled_frames_ := scaled_frames_ s |}.

Definition with_writers_ (ws : list W) (s : ZarrStream_s) : ZarrStream_s :=
  {| error_ := error_ s; version_ := version_ s; store_path_ := store_path_ s;
     s3_settings_ := s3_settings_ s;
     compression_settings_ := compression_settings_ s; dtype_ := dtype_ s;
     dimensions_ := dimensions_ s; multiscale_ := multiscale_ s;
     frame_buffer_ := frame_buffer_ s;
     frame_buffer_offset_ := frame_buffer_offset_ s;
     s3_connection_pool_ := s3_connection_pool_ s; writers_ := ws;
     metadata_sinks_ := metadata_sinks_ s; scaled_frames_ := scaled_frames_ s |}.

Definition with_metadata_sinks_ (m : gmap string (option K)) (s : ZarrStream_s)
  : ZarrStream_s :=
  {| error_ := error_ s; version_ := version_ s; store_path_ := store_path_ s;
     s3_settings_ := s3_settings_ s;
     compression_settings_ := compression_settings_ s; dtype_ := dtype_ s;
     dimensions_ := dimensions_ s; multiscale_ := multiscale_ s;
     frame_buffer_ := frame_buffer_ s;
     frame_buffer_offset_ := frame_buffer_offset_ s;
     s3_connection_pool_ := s3_connection_pool_ s; writers_ := writers_ s;
     metadata_sinks_ := m; scaled_frames_ := scaled_frames_ s |}.

Definition with_scaled_frames_ (f : gmap nat (option (list byte)))
    (s : ZarrStream_s) : ZarrStream_s :=
  {| error_ := error_ s; version_ := version_ s; store_path_ := store_path_ s;
     s3_settings_ := s3_settings_ s;
     compression_settings_ := compression_settings_ s; dtype_ := dtype_ s;
     dimensions_ := dimensions_ s; multiscale_ := multiscale_ s;
     frame_buffer_ := frame_buffer_ s;
     frame_buffer_offset_ := frame_buffer_offset_ s;
     s3_connection_pool_ := s3_connection_pool_ s; writers_ := writers_ s;
     metadata_sinks_ := metadata_sinks_ s; scaled_frames_ := f |}.

(** Member functions: the stream goes in and comes out, whatever the
    outcome. *)
Definition M (A : Type) : Type := ZarrStream_s -> ZarrStream_s * outcome A.

Definition ret {A} (a : A) : M A := fun s => (s, Returns a).

Definition bind {A B} (m : M A) (k : A -> M B) : M B :=
  fun s =>
    match m s with
    | (s', Returns a) => k a s'
    | (s', Throws w) => (s', Throws w)
    | (s', Undefined) => (s', Undefined)
    | (s', Hangs) => (s', Hangs)
    end.

(** A call that does not touch the stream. *)
Definition lift {A} (o : outcome A) : M A := fun s => (s, o).

(** A plain update of members. *)
Definition modify (f : ZarrStream_s -> ZarrStream_s) : M unit :=
  fun s => (f s, Returns tt).

End Stream.

Arguments ZarrStream_s : clear implicits.
Arguments M : clear implicits.

Notation "'let!' x := m 'in' k" := (bind m (fun x => k))
  (at level 10, x name, m at level 100, k at level 200).
Notation "'let!' ' pat := m 'in' k" :=
  (bind m (fun x => match x with pat => k end))
  (at level 10, pat pattern, m at level 100, k at level 200).

Section StreamMethods.
Context {W K : Type} `{ArrayWriterOps W} `{SinkOps K} `{JsonLib} `{StringLib}.

Abbreviation Stream := (ZarrStream_s W K).
Abbreviation Method := (M W K).

Definition is_s3_acquisition_ (s : Stream) : bool :=
  bool_decide (is_Some (s3_settings_ s)).

(** [ZarrStream_s::set_error_] *)
Definition set_error_ (msg : string) (s : Stream) : Stream := with_error_ msg s.

(** The thread pool's error callback,
    [[this](const std::string& err) { this->set_error_(err); }],
    called once per failed job. *)
Definition report_errors (errs : list string) (s : Stream) : Stream :=
  fold_left (fun s err => set_error_ err s) errs s.

(** [ZarrStream_s::create_store_]: the stream, the environment and the
    verdict. *)
Definition create_store_ (s : Stream) (w : World) : Stream * World * bool :=
  if is_s3_acquisition_ s then
    match s3_pool_error w with
    | Some what =>
        (set_error_ ("Error creating S3 connection pool: " +:+ what) s, w, false)
    | None =>
        let s := with_s3_connection_pool_ true s in
        if negb (s3_connection_valid w) then
          (set_error_ "Failed to connect to S3" s, w, false)
        else (s, w, true)
    end
  else
    let '(w, removed) :=
      if fs_exists w (store_path_ s) then
        let '(w, ec) := fs_remove_all w (store_path_ s) in (w, ec)
      else (w, None) in
    match removed with
    | Some message =>
        (set_error_ ("Failed to remove existing store path '" +:+ store_path_ s
                     +:+ "': " +:+ message) s, w, false)
    | None =>
        let '(w, created, ec) := fs_create_directories w (store_path_ s) in
        if negb created then
          (set_error_ ("Failed to create store path '" +:+ store_path_ s
                       +:+ "': " +:+ default "Success"%string ec) s, w, false)
        else (s, w, true)
    end.

(** [scaled_frames_[i]]: the slot, empty when the key is new. *)
Definition scaled_frame (s : Stream) (i : nat) : option (list byte) :=
  default None (scaled_frames_ s !! i).

(** [writers_[i]->write_frame(data)] *)
Definition writer_write_frame (i : nat) (data : list byte) : Method nat :=
  fun s =>
    match writers_ s !! i with
    | None => (s, Undefined)
    | Some w =>
        let '(w, n) := write_frame w data in
        (with_writers_ (<[i := w]> (writers_ s)) s, Returns n)
    end.

(** The body of [for (auto i = 1; i < writers_.size(); ++i)] in
    [write_multiscale_frames_], over the remaining values of [i].  [dst] is
    averaged in place, and [frame_data] and the next [data] are views of
    it. *)
Fixpoint multiscale_levels (T : PixelType) (levels : list nat)
    (data : list byte) (frame_width frame_height : nat) : Method unit :=
  match levels with
  | [] => ret tt
  | i :: levels =>
      let! '(dst, frame_width, frame_height) :=
        lift (scale_image T data frame_width frame_height) in
      fun s =>
        match scaled_frame s i with
        | Some held =>
            (let! dst := lift (average_two_frames T dst held) in
             let frame_data := dst in
             let! n := writer_write_frame i frame_data in
             let! _ := lift (EXPECT (negb (n =? 0)) "Failed to write frame to writer") in
             let! _ := modify (fun s => with_scaled_frames_
                                          (<[i := None]> (scaled_frames_ s)) s) in
             fun s =>
               let data := if i + 1 <? length (writers_ s) then dst else data in
               multiscale_levels T levels data frame_width frame_height s) s
        | None =>
            (with_scaled_frames_ (<[i := Some dst]> (scaled_frames_ s)) s,
             Returns tt)
        end
  end.

(** [ZarrStream_s::write_multiscale_frames_] *)
Definition write_multiscale_frames_ (data : list byte) : Method unit :=
  fun s =>
    if negb (multiscale_ s) then (s, Returns tt) else
    match dtype_ s with
    | OutOfRange _ => (s, Throws "Invalid data type")
    | Enumerator t =>
        match width_dim (dimensions_ s), height_dim (dimensions_ s) with
        | Some wd, Some hd =>
            multiscale_levels (pixel_of t) (seq 1 (length (writers_ s) - 1)) data
              (array_size_px wd) (array_size_px hd) s
        | _, _ => (s, Undefined)
        end
    end.

(** [ZarrStream_s::write_frame_] *)
Definition write_frame_ (data : list byte) : Method nat :=
  fun s =>
    let bytes_of_full_frame := length (frame_buffer_ s) in
    (let! n_bytes := writer_write_frame 0 data in
     let! _ := lift (EXPECT (n_bytes =? bytes_of_full_frame) "") in
     if negb (n_bytes =? length data) then
       let! _ := modify (set_error_ "Incomplete write to full-resolution array.") in
       ret n_bytes
     else
       let! _ := write_multiscale_frames_ data in
       ret n_bytes) s.

(** [memcpy(dst + dst_off, src + src_off, n)] with both ranges in bounds. *)
Definition memcpy (dst : list byte) (dst_off : nat) (src : list byte)
    (src_off n : nat) : list byte :=
  take dst_off dst ++ take n (drop src_off src) ++ drop (dst_off + n) dst.

(** The [while (bytes_written < nbytes)] loop of [append].  [input] is the
    caller's buffer and [data] the offset of the moving pointer into it;
    [fuel] bounds the number of iterations. *)
Fixpoint append_loop (fuel : nat) (input : list byte)
    (nbytes bytes_of_frame data bytes_written : nat) : Method nat :=
  match fuel with
  | 0 => lift Hangs
  | S fuel =>
      if negb (bytes_written <? nbytes) then ret bytes_written else
      let bytes_remaining := nbytes - bytes_written in
      fun s =>
        if 0 <? frame_buffer_offset_ s then
          (* add to / finish a partial frame *)
          let bytes_to_copy :=
            Nat.min (bytes_of_frame - frame_buffer_offset_ s) bytes_remaining in
          let s := with_frame_buffer_
                     (memcpy (frame_buffer_ s) (frame_buffer_offset_ s)
                             input (data + bytes_written) bytes_to_copy)
                     (frame_buffer_offset_ s + bytes_to_copy) s in
          let bytes_written := bytes_written + bytes_to_copy in
          if frame_buffer_offset_ s =? bytes_of_frame then
            (let! n := write_frame_ (frame_buffer_ s) in
             if n <? bytes_of_frame then ret bytes_written (* break *)
             else
               let data := data + bytes_to_copy in
               let! _ := modify (fun s => with_frame_buffer_ (frame_buffer_ s) 0 s) in
               append_loop fuel input nbytes bytes_of_frame data bytes_written) s
          else append_loop fuel input nbytes bytes_of_frame data bytes_written s
        else if bytes_remaining <? bytes_of_frame then
          (* begin partial frame *)
          let s := with_frame_buffer_
                     (memcpy (frame_buffer_ s) 0 input data bytes_remaining)
                     bytes_remaining s in
          let bytes_written := bytes_written + bytes_remaining in
          append_loop fuel input nbytes bytes_of_frame data bytes_written s
        else
          (* at least one full frame *)
          (let! n := write_frame_ (take bytes_of_frame (drop data input)) in
           if n <? bytes_of_frame then ret bytes_written (* break *)
           else
             let bytes_written := bytes_written + bytes_of_frame in
             let data := data + bytes_of_frame in
             append_loop fuel input nbytes bytes_of_frame data bytes_written) s
  end.

(** [ZarrStream::append(data_, nbytes)], with [nbytes] the length of the
    input.  The loop runs at most [nbytes + 1] times when frames are not
    empty; one more iteration sees it leave. *)
Definition append (input : list byte) : Method nat :=
  let nbytes := length input in
  fun s =>
    (let! _ := lift (EXPECT (String.eqb (error_ s) "") "Cannot append data") in
     if nbytes =? 0 then ret 0
     else
       let bytes_of_frame := length (frame_buffer_ s) in
       append_loop (nbytes + 2) input nbytes bytes_of_frame 0 0) s.

(** Successive calls of [append], while they return. *)
Fixpoint appends (pieces : list (list byte)) : Method (list nat) :=
  match pieces with
  | [] => ret []
  | x :: pieces =>
      let! n := append x in
      let! ns := appends pieces in
      ret (n :: ns)
  end.

End StreamMethods.

(** ** Metadata and tear-down (zarr.stream.cpp) *)

(** [a - b] in [size_t]. *)
Definition size_t_sub (a b : nat) : Z := ((Z.of_nat a - Z.of_nat b) mod 2 ^ 64)%Z.

Definition dimension_type_to_string (t : c_enum ZarrDimensionType) : string :=
  match t with
  | Enumerator ZarrDimensionType_Time => "time"
  | Enumerator ZarrDimensionType_Channel => "channel"
  | Enumerator ZarrDimensionType_Space => "space"
  | Enumerator ZarrDimensionType_Other => "other"
  | OutOfRange _ => "(unknown)"
  end.

(** One entry of ["datasets"]. *)
Definition dataset (path : string) (scales : list double) : json :=
  JObject [("path"%string, JString path);
           ("coordinateTransformations"%string,
            JArray [JObject [("type"%string, JString "scale");
                             ("scale"%string, JArray (map JFloat scales))]])].

Definition downsampling_metadata : json :=
  JObject [("description"%string,
            JString ("The fields in the metadata describe how to reproduce this "
                     +:+ "multiscaling in scikit-image. The method and its parameters "
                     +:+ "are " +:+ "given here."));
           ("method"%string, JString "skimage.transform.downscale_local_mean");
           ("version"%string, JString "0.21.0");
           ("args"%string, JString "[2]");
           ("kwargs"%string, JArray [JString "cval"; JInt 0])].

(** [j[key].push_back(v)] *)
Definition json_push_at (key : string) (v : json) (j : json) : json :=
  json_set key (json_push_back v (default JNull (json_get key j))) j.

Section StreamMetadata.
Context {W K : Type} `{ArrayWriterOps W} `{SinkOps K} `{JsonLib} `{StringLib}.

(** The [axes] loop: one push per dimension. *)
Definition ome_axes (dims : list ZarrDimension) : json :=
  fold_left (fun axes '(i, dim) =>
               let type := dimension_type_to_string (type dim) in
               if (Z.of_nat i <? size_t_sub (ndims dims) 2)%Z then
                 json_push_back
                   (JObject [("name"%string, JString (name dim));
                             ("type"%string, JString type)]) axes
               else
                 json_push_back
                   (JObject [("name"%string, JString (name dim));
                             ("type"%string, JString type);
                             ("unit"%string, JString "micrometer")]) axes)
            (imap (fun i dim => (i, dim)) dims) JNull.

(** [ZarrStream_s::make_ome_metadata_] *)
Definition make_ome_metadata_ (s : ZarrStream_s W K) : json :=
  let n := ndims (dimensions_ s) in
  (* multiscales[0] *)
  let m := json_set "axes" (ome_axes (dimensions_ s)) JNull in
  let scales := repeat one n in
  let m := json_set "datasets" (JArray [dataset "0" scales]) m in
  let m :=
    fold_left (fun m i =>
                 let scales :=
                   [pow2 i]
                   ++ repeat one (Z.to_nat (size_t_sub n 3))
                   ++ [pow2 i] (* y *)
                   ++ [pow2 i] (* x *) in
                 let m := json_push_at "datasets" (dataset (to_string i) scales) m in
                 let m := json_set "type" (JString "local_mean") m in
                 json_set "metadata" downsampling_metadata m)
              (seq 1 (length (writers_ s) - 1)) m in
  if version_ s =? ZarrVersion_2 then
    let m := json_set "version" (JString "0.4") m in
    let m := json_set "name" (JString "/") m in
    JArray [m]
  else
    JObject [("version"%string, JString "0.5");
             ("name"%string, JString "/");
             ("multiscales"%string, JArray [m])].

(** [sink->write(0, bytes of metadata.dump(4))] on [metadata_sinks_.at(key)];
    [at] throws on a missing key, a null sink gives [on_null]. *)
Definition write_to_metadata_sink {A} (metadata_key : string) (text : string)
    (on_null : M W K A) (on_written : bool -> M W K A) : M W K A :=
  fun s =>
    match metadata_sinks_ s !! metadata_key with
    | None => (s, Throws "out_of_range")
    | Some None => on_null s
    | Some (Some sink) =>
        let '(sink, ok) := sink_write sink 0 (list_byte_of_string text) in
        on_written ok
          (with_metadata_sinks_
             (<[metadata_key := Some sink]> (metadata_sinks_ s)) s)
    end.

(** [ZarrStream_s::write_base_metadata_] *)
Definition write_base_metadata_ : M W K bool :=
  fun s =>
    let '(metadata, metadata_key) :=
      if version_ s =? 2 then
        (json_set "multiscales" (make_ome_metadata_ s) JNull, ".zattrs"%string)
      else
        (json_set "zarr_format"
           (JString "https://purl.org/zarr/spec/protocol/core/3.0")
           (json_set "metadata_key_suffix" (JString ".json")
              (json_set "metadata_encoding"
                 (JString "https://purl.org/zarr/spec/protocol/core/3.0")
                 (json_set "extensions" (JArray []) JNull))),
         "zarr.json"%string) in
    write_to_metadata_sink metadata_key (json_dump metadata 4)
      (let! _ := modify (set_error_ ("Metadata sink '" +:+ metadata_key
                                     +:+ "'not found")) in
       ret false)
      (fun ok =>
         if negb ok then
           let! _ := modify (set_error_ "Error writing base metadata") in
           ret false
         else ret true) s.

(** [ZarrStream_s::write_group_metadata_] *)
Definition write_group_metadata_ : M W K bool :=
  fun s =>
    let '(metadata, metadata_key) :=
      if version_ s =? 2 then
        (JObject [("zarr_format"%string, JInt 2)], ".zgroup"%string)
      else
        let multiscales := make_ome_metadata_ s in
        (json_set "node_type" (JString "group")
           (json_set "consolidated_metadata" JNull
              (json_set "zarr_format" (JInt 3)
                 (json_set "attributes" (json_set "ome" multiscales JNull) JNull))),
         "zarr.json"%string) in
    write_to_metadata_sink metadata_key (json_dump metadata 4)
      (let! _ := modify (set_error_ ("Metadata sink '" +:+ metadata_key
                                     +:+ "'not found")) in
       ret false)
      (fun ok =>
         if negb ok then
           let! _ := modify (set_error_ "Error writing group metadata") in
           ret false
         else ret true) s.

(** [validate_custom_metadata] *)
Definition validate_custom_metadata (metadata : string) : bool :=
  if String.eqb metadata "" then false
  else match json_parse metadata with
       | None => false (* val.is_discarded() *)
       | Some _ => true
       end.

Definition strip_file_scheme (path : string) : string :=
  if String.prefix "file://" path
  then String.substring 7 (String.length path - 7) path
  else path.

(** [zarr::make_file_sink] (sink.cpp); [path.empty()] asks once more
    whether [file_path] is empty. *)
Definition make_file_sink (file_path : string) (w : World)
  : World * outcome (option K) :=
  let file_path := strip_file_scheme file_path in
  if String.eqb file_path "" then (w, Throws "File path must not be empty.") else
  let path := file_path in
  if String.eqb path "" then (w, Throws ("Invalid file path: " +:+ file_path)) else
  let parent_path := parent_path path in
  let '(w, ready) :=
    if negb (fs_is_directory w parent_path) then
      let '(w, created, _) := fs_create_directories w parent_path in (w, created)
    else (w, true) in
  if negb ready then (w, Returns None)
  else
    let '(w, made) := new_FileSink file_path w in
    (w, let* sink := made in Returns (Some sink)).

(** [zarr::make_s3_sink] (sink.cpp), with [bucket_exists] inlined. *)
Definition make_s3_sink (bucket_name object_key : string) (connection_pool : bool)
    (w : World) : outcome (option K) :=
  let* _ := EXPECT (negb (String.eqb object_key "")) "Object key must not be empty." in
  let* _ := CHECK (negb (String.eqb bucket_name "")) in
  let* _ := EXPECT connection_pool "S3 connection pool not provided." in
  if negb (bool_decide (bucket_name ∈ s3_buckets w)) then Returns None
  else let* sink := new_S3Sink bucket_name object_key in Returns (Some sink).

(** [ZarrStream_s::write_custom_metadata]: the stream, the environment and
    the status. *)
Definition write_custom_metadata (custom_metadata : string) (overwrite : bool)
    (s : ZarrStream_s W K) (w : World)
  : ZarrStream_s W K * World * outcome ZarrStatusCode :=
  if negb (validate_custom_metadata custom_metadata) then
    (s, w, Returns ZarrStatusCode_InvalidArgument)
  else
    let metadata_key := "acquire.json"%string in
    (* the sink map after the first [if], or the early return *)
    let prepared : ZarrStream_s W K * World * outcome (option ZarrStatusCode) :=
      if negb (bool_decide (is_Some (metadata_sinks_ s !! metadata_key))) then
        let base_path := strip_file_scheme (store_path_ s) in
        let prefix := if String.eqb base_path "" then ""%string
                      else base_path +:+ "/" in
        let sink_path := prefix +:+ metadata_key in
        let '(w, made) :=
          match s3_settings_ s with
          | Some s3 =>
              (w, make_s3_sink (bucket_name s3) sink_path (s3_connection_pool_ s) w)
          | None => make_file_sink sink_path w
          end in
        match made with
        | Returns sink =>
            (with_metadata_sinks_ (<[metadata_key := sink]> (metadata_sinks_ s)) s,
             w, Returns None)
        | Throws what => (s, w, Throws what)
        | Undefined => (s, w, Undefined)
        | Hangs => (s, w, Hangs)
        end
      else if negb overwrite then
        (s, w, Returns (Some ZarrStatusCode_WillNotOverwrite))
      else (s, w, Returns None) in
    match prepared with
    | (s, w, Returns (Some status)) => (s, w, Returns status)
    | (s, w, Returns None) =>
        match metadata_sinks_ s !! metadata_key with
        | None => (s, w, Throws "out_of_range")
        | Some None => (s, w, Returns ZarrStatusCode_InternalError)
        | Some (Some sink) =>
            match json_parse custom_metadata with
            | None => (s, w, Undefined) (* excluded by the validation above *)
            | Some metadata_json =>
                let metadata_str := json_dump metadata_json 4 in
                let '(sink, ok) :=
                  sink_write sink 0 (list_byte_of_string metadata_str) in
                let s := with_metadata_sinks_
                           (<[metadata_key := Some sink]> (metadata_sinks_ s)) s in
                if negb ok then (s, w, Returns ZarrStatusCode_IOError)
                else (s, w, Returns ZarrStatusCode_Success)
            end
        end
    | (s, w, Throws what) => (s, w, Throws what)
    | (s, w, Undefined) => (s, w, Undefined)
    | (s, w, Hangs) => (s, w, Hangs)
    end.

(** [zarr::finalize_sink] (sink.cpp): what is left of the pointer, and the
    verdict. *)
Definition finalize_sink (sink : option K) : option K * bool :=
  match sink with
  | None => (None, true)
  | Some k =>
      let '(k, ok) := flush_ k in
      if negb ok then (Some k, false) else (None, true)
  end.

(** The loop over [metadata_sinks_] in [finalize_stream], in the order the
    map enumerates its entries. *)
Fixpoint finalize_sinks (entries : list (string * option K))
    (sinks : gmap string (option K)) : gmap string (option K) * bool :=
  match entries with
  | [] => (sinks, true)
  | (sink_name, sink) :: entries =>
      let '(sink, ok) := finalize_sink sink in
      let sinks := <[sink_name := sink]> sinks in
      if negb ok then (sinks, false) else finalize_sinks entries sinks
  end.

(** The loop over [writers_] in [finalize_stream]. *)
Fixpoint finalize_arrays (writers : list W) : bool :=
  match writers with
  | [] => true
  | w :: writers => if negb (finalize_array w) then false else finalize_arrays writers
  end.

(** [finalize_stream(stream)]; a null [stream] is [None]. *)
Definition finalize_stream (stream : option (ZarrStream_s W K))
  : option (ZarrStream_s W K) * outcome bool :=
  match stream with
  | None => (None, Returns true)
  | Some s =>
      let '(s, r) :=
        (let! ok := write_group_metadata_ in
         if negb ok then ret false else
         fun s =>
           let '(sinks, ok) :=
             finalize_sinks (map_to_list (metadata_sinks_ s)) (metadata_sinks_ s) in
           if negb ok then (with_metadata_sinks_ sinks s, Returns false) else
           let s := with_metadata_sinks_ ∅ s in
           if negb (finalize_arrays (writers_ s)) then (s, Returns false) else
           (with_writers_ [] s, Returns true)) s in
      (Some s, r)
  end.

End StreamMetadata.

(** ** Stand-ins for the collaborators

    Small executable implementations of the interfaces, used to run the
    model on concrete inputs. *)

(** A writer that keeps the frames it accepted, and accepts only as many as
    its [capacity]; afterwards [write_frame] reports 0 bytes. *)
Record TestWriter := {
  accepted : list (list byte);
  capacity : nat
}.

#[global] Instance TestWriter_ops : ArrayWriterOps TestWriter := {|
  write_frame w data :=
    match capacity w with
    | 0 => (w, 0)
    | S c => ({| accepted := accepted w ++ [data]; capacity := c |}, length data)
    end;
  finalize_array w := true
|}.

(** A sink over a byte vector, which fails once it is [broken]. *)
Record TestSink := {
  contents : list byte;
  broken : bool
}.

(** Modelled from the spec: the positioned write of the file sink, whose
    code is not among the sources ("[write] performs a positioned write at
    [offset]").  The bytes go to [offset], a gap before them is filled with
    zeros, and what the sink holds beyond them stays. *)
Definition pwrite (old : list byte) (offset : nat) (buf : list byte) : list byte :=
  take offset (old ++ repeat x00 (offset - length old))
  ++ buf ++ drop (offset + length buf) old.

(** Modelled from the spec: the constructor of the file sink, whose code is
    not among the sources ("Opens/creates a regular file ... Parent
    directory must exist").  A missing file is created empty, and the sink
    starts from the bytes of the file. *)
Definition open_file (path : string) (w : World) : World * outcome TestSink :=
  let parent := if String.eqb (parent_path path) "" then "."%string
                else parent_path path in
  if negb (fs_is_directory w parent) then (w, Throws "Failed to open file")
  else
    match fs_status w path with
    | Some (RegularFile content) =>
        (w, Returns {| contents := content; broken := false |})
    | Some (Directory _) => (w, Throws "Failed to open file")
    | None =>
        if has_trailing_separator path then (w, Throws "Failed to open file")
        else (set_files (<[fs_location w path := RegularFile []]> (files w)) w,
              Returns {| contents := []; broken := false |})
    end.

#[global] Instance TestSink_ops : SinkOps TestSink := {|
  sink_write k offset buf :=
    if broken k then (k, false)
    else ({| contents := pwrite (contents k) offset buf; broken := false |}, true);
  flush_ k := (k, negb (broken k));
  new_FileSink := open_file;
  new_S3Sink bucket key := Returns {| contents := []; broken := false |}
|}.

(** A JSON library that knows the five shortest documents. *)
#[global] Instance TestJson : JsonLib := {|
  json_parse text :=
    if String.eqb text "{}" then Some (JObject [])
    else if String.eqb text "[]" then Some (JArray [])
    else if String.eqb text "null" then Some JNull
    else if String.eqb text "true" then Some (JBool true)
    else if String.eqb text "false" then Some (JBool false)
    else None;
  json_dump j indent :=
    match j with
    | JObject [] => "{}"
    | JArray [] => "[]"
    | JNull => "null"
    | JBool true => "true"
    | JBool false => "false"
    | _ => "..."
    end%string
|}.

Fixpoint trim_left (s : string) : string :=
  match s with
  | String " " s' => trim_left s'
  | _ => s
  end.

Definition string_rev (s : string) : string :=
  string_of_list_ascii (rev (list_ascii_of_string s)).

#[global] Instance TestStrings : StringLib := {|
  trim s := string_rev (trim_left (string_rev (trim_left s)));
  is_empty_string s := String.eqb (trim_left s) ""
|}.

Abbreviation TestStream := (ZarrStream_s TestWriter TestSink).

Definition dim (n : string) (t : ZarrDimensionType) (array_size chunk_size shard_size : nat)
  : ZarrDimension :=
  {| name := n; type := Enumerator t; array_size_px := array_size;
     chunk_size_px := chunk_size; shard_size_chunks := shard_size |}.

(** A stream as its constructor leaves it: [levels] writers, empty slots for
    the levels above 0, a zeroed frame buffer. *)
Definition test_stream (v : nat) (t : ZarrDataType) (dims : list ZarrDimension)
    (multiscale : bool) (bytes_of_frame levels : nat) : TestStream :=
  {| error_ := ""; version_ := v; store_path_ := "out.zarr";
     s3_settings_ := None; compression_settings_ := None;
     dtype_ := Enumerator t; dimensions_ := dims; multiscale_ := multiscale;
     frame_buffer_ := repeat x00 bytes_of_frame; frame_buffer_offset_ := 0;
     s3_connection_pool_ := false;
     writers_ := repeat {| accepted := []; capacity := 1000 |} levels;
     metadata_sinks_ :=
       list_to_map
         (map (fun key => (key, Some {| contents := []; broken := false |}))
              (if v =? 2 then [".zattrs"%string; ".zgroup"%string]
               else ["zarr.json"%string]));
     scaled_frames_ :=
       if multiscale then list_to_map (map (fun l => (l, None)) (seq 1 (levels - 1)))
       else ∅ |}.





(** A working directory [/work] that exists and is writable, and nothing
    else. *)
Definition empty_world : World :=
  {| files := {[ [] := Directory true; ["work"%string] := Directory true ]};
     cwd := ["work"%string]; io_errors := ∅;
     s3_pool_error := None; s3_connection_valid := true; s3_buckets := ∅ |}.

Definition test_settings (dims : list ZarrDimension) : ZarrStreamSettings_s :=
  {| store_path := Some "out.zarr"%string; s3_settings := None;
     compression_settings := None; dimensions := Some dims; multiscale := false;
     data_type := Enumerator ZarrDataType_uint8; version := 2; max_threads := 1 |}.

(** A working directory that holds an earlier acquisition under
    [out.zarr] and an unrelated file. *)
Definition used_world : World :=
  {| files := {[ [] := Directory true;
                 ["work"%string] := Directory true;
                 ["work"%string; "out.zarr"%string] := Directory true;
                 ["work"%string; "out.zarr"%string; "0"%string] := Directory true;
                 ["work"%string; "out.zarr"%string; "0"%string; ".zarray"%string]
                   := RegularFile ["{"%byte; "}"%byte];
                 ["work"%string; "notes.txt"%string] := RegularFile [] ]};
     cwd := ["work"%string]; io_errors := ∅;
     s3_pool_error := None; s3_connection_valid := true; s3_buckets := ∅ |}.

(** Geometry of scenario S1 of the specification. *)
Definition dims_S1 : list ZarrDimension :=
  [ dim "t" ZarrDimensionType_Time 0 5 1;
    dim "y" ZarrDimensionType_Space 48 16 1;
    dim "x" ZarrDimensionType_Space 48 16 1 ].

(** The stream of scenario S1 with another store path. *)
Definition stream_at (store_path : string) : TestStream :=
  let s := test_stream 2 ZarrDataType_uint8 dims_S1 false (48 * 48) 1 in
  {| error_ := error_ s; version_ := version_ s; store_path_ := store_path;
     s3_settings_ := s3_settings_ s;
     compression_settings_ := compression_settings_ s;
     dtype_ := dtype_ s; dimensions_ := dimensions_ s;
     multiscale_ := multiscale_ s;
     frame_buffer_ := frame_buffer_ s;
     frame_buffer_offset_ := frame_buffer_offset_ s;
     s3_connection_pool_ := s3_connection_pool_ s;
     writers_ := writers_ s; metadata_sinks_ := metadata_sinks_ s;
     scaled_frames_ := scaled_frames_ s |}.

(** ** Notions used in the statements of Part II *)

(** [multiscales[0]] of the value [make_ome_metadata_] returns: the value
    itself is the array for version 2, and carries it under ["multiscales"]
    for version 3. *)
Definition ome_multiscales (v : nat) (ome : json) : option json :=
  match (if v =? ZarrVersion_2 then Some ome else json_get "multiscales" ome) with
  | Some (JArray (m :: _)) => Some m
  | _ => None
  end.

Definition ome_datasets (v : nat) (ome : json) : option (list json) :=
  match ome_multiscales v ome with
  | Some m =>
      match json_get "datasets" m with
      | Some (JArray ds) => Some ds
      | _ => None
      end
  | None => None
  end.

(** The scale vector of a level over [n] dimensions: all ones at level 0;
    above, [2^level] for the append dimension, 1 for every dimension that is
    neither the append dimension nor spatial, [2^level] for height and
    width. *)
Definition level_scales (n level : nat) : list double :=
  match level with
  | 0 => repeat one n
  | _ => [pow2 level] ++ repeat one (n - 3) ++ [pow2 level; pow2 level]
  end.

(** The output of the 2x2 downsampling, in the words of the specification.
    [half_up n] is the ceiling of [n / 2]. *)
Definition half_up (n : nat) : nat := Nat.div2 (S n).

(** Pixel [(r, c)] of a [height] x [width] image as a double, the last row
    and column replicated beyond the edges. *)
Definition padded_pixel (T : PixelType) (src : list byte) (width height r c : nat)
  : double :=
  to_double T (peek T src (Nat.min r (height - 1) * width + Nat.min c (width - 1))).

(** [0.25 * (P(2r,2c) + P(2r,2c+1) + P(2r+1,2c) + P(2r+1,2c+1))], summed in
    doubles and cast to [T]. *)
Definition downsampled_pixel (T : PixelType) (src : list byte) (width height : nat)
    (rc : nat * nat) : option (px T) :=
  let '(r, c) := rc in
  let P := padded_pixel T src width height in
  of_double T
    (dmul quarter
       (dadd (dadd (dadd (P (2 * r) (2 * c)) (P (2 * r) (2 * c + 1)))
                   (P (2 * r + 1) (2 * c)))
             (P (2 * r + 1) (2 * c + 1)))).

(** The positions of a [rows] x [cols] image in row-major order. *)
Definition grid (rows cols : nat) : list (nat * nat) :=
  flat_map (fun r => map (pair r) (seq 0 cols)) (seq 0 rows).

Fixpoint traverse {A B} (f : A -> option B) (l : list A) : option (list B) :=
  match l with
  | [] => Some []
  | a :: l' =>
      match f a with
      | Some b =>
          match traverse f l' with
          | Some bs => Some (b :: bs)
          | None => None
          end
      | None => None
      end
  end.

(** The downsampled image: its pixels in row-major order, when every cast
    is defined. *)
Definition downsampled_image (T : PixelType) (src : list byte) (width height : nat)
  : option (list byte) :=
  flat_map (store T)
    <$> traverse (downsampled_pixel T src width height)
                 (grid (half_up height) (half_up width)).

(** A conversion of [x] that truncates toward zero gives a value that is no
    farther from zero than [x]. *)
Definition toward_zero (x result : double) : bool :=
  SFleb (SFabs result) (SFabs x).

(** The 2x2 float32 image [1, 1+2^-23; 1+2^-23, 1+2^-23]. *)
Definition float_image_2x2 : list byte :=
  le_bytes 4 0x3F800000 ++ le_bytes 4 0x3F800001
  ++ le_bytes 4 0x3F800001 ++ le_bytes 4 0x3F800001.

(** The pairwise average of two frames, pixel by pixel. *)
Definition averaged_pixels (T : PixelType) (a b : list byte) : option (list (px T)) :=
  traverse (fun i => averaged_value T (peek T a i) (peek T b i))
           (seq 0 (length b / sizeof T)).

(** A three-level uint8 stream over 4x4 frames, and two frames. *)
Definition dims_4x4 : list ZarrDimension :=
  [ dim "t" ZarrDimensionType_Time 0 1 1;
    dim "y" ZarrDimensionType_Space 4 1 1;
    dim "x" ZarrDimensionType_Space 4 1 1 ].

Definition pyramid_stream : TestStream :=
  test_stream 2 ZarrDataType_uint8 dims_4x4 true 16 3.

Definition dark_frame : list byte := flat_map (le_bytes 1) (repeat 0%Z 16).
Definition bright_frame : list byte := flat_map (le_bytes 1) (repeat 100%Z 16).

(** The whole frames of [frame] bytes in a byte sequence, and the bytes
    behind the last whole frame. *)
Definition whole_frames (frame : nat) (X : list byte) : list (list byte) :=
  map (fun k => take frame (drop (k * frame) X)) (seq 0 (length X / frame)).

Definition remainder (frame : nat) (X : list byte) : list byte :=
  drop (length X / frame * frame) X.

Section StreamNotions.
Context {W K : Type} `{ArrayWriterOps W} `{SinkOps K} `{JsonLib} `{StringLib}.

(** The stream after [write_frame_] has taken the frames one by one, each
    in full; [None] as soon as a call throws, is undefined or reports a
    short write. *)
Fixpoint deliver (frames : list (list byte)) (s : ZarrStream_s W K)
  : option (ZarrStream_s W K) :=
  match frames with
  | [] => Some s
  | f :: frames =>
      match write_frame_ f s with
      | (s', Returns n) => if n =? length f then deliver frames s' else None
      | _ => None
      end
  end.

(** The bytes of the frame in progress. *)
Definition pending (s : ZarrStream_s W K) : list byte :=
  take (frame_buffer_offset_ s) (frame_buffer_ s).

(** Two streams that agree on every member (writers, held frames, sinks,
    error state, settings) and on the frame in progress; the bytes of the
    frame buffer behind the frame in progress are left out. *)
Definition same_store (s1 s2 : ZarrStream_s W K) : Prop :=
  with_frame_buffer_ [] 0 s1 = with_frame_buffer_ [] 0 s2
  /\ pending s1 = pending s2.

End StreamNotions.

Section StreamProofNotions.
Context {W K : Type} `{ArrayWriterOps W} `{SinkOps K} `{JsonLib} `{StringLib}.

(** A method commutes with an update [f] of the stream when running it
    after [f] is running it before [f]. *)
Definition commutes {A} (f : ZarrStream_s W K -> ZarrStream_s W K) (m : M W K A)
  : Prop :=
  forall s, m (f s) = (f (m s).1, (m s).2).

(** Updates that leave the writers and the held frames alone. *)
Definition outside_cascade (f : ZarrStream_s W K -> ZarrStream_s W K) : Prop :=
  (forall s, writers_ (f s) = writers_ s)
  /\ (forall s, scaled_frames_ (f s) = scaled_frames_ s)
  /\ (forall ws s, f (with_writers_ ws s) = with_writers_ ws (f s))
  /\ (forall sf s, f (with_scaled_frames_ sf s) = with_scaled_frames_ sf (f s)).

Definition never_hangs {A} (m : M W K A) : Prop := forall s, (m s).2 <> Hangs.

(** An outcome of [append] on [n] bytes that is neither a short count nor
    a loop without end. *)
Definition full_or_raises (n : nat) (r : outcome nat) : Prop :=
  match r with
  | Returns k => k = n
  | Throws _ | Undefined => True
  | Hangs => False
  end.

End StreamProofNotions.

(** A stream whose only writer accepts nothing, over 2x2 uint8 frames. *)
Definition dims_2x2 : list ZarrDimension :=
  [ dim "t" ZarrDimensionType_Time 0 1 1;
    dim "y" ZarrDimensionType_Space 2 1 1;
    dim "x" ZarrDimensionType_Space 2 1 1 ].

Definition failing_stream : TestStream :=
  with_writers_ [ {| accepted := []; capacity := 0 |} ]
    (test_stream 2 ZarrDataType_uint8 dims_2x2 false 4 1).

Definition frame_2x2 : list byte := flat_map (le_bytes 1) [1; 2; 3; 4]%Z.

(** Two frames and three bytes of a third one for the 4x4 pyramid, and one
    way of cutting them. *)
Definition two_frames_and_a_bit : list byte :=
  dark_frame ++ bright_frame ++ flat_map (le_bytes 1) [7; 8; 9]%Z.

Definition three_pieces : list (list byte) :=
  [ take 5 two_frames_and_a_bit;
    take 20 (drop 5 two_frames_and_a_bit);
    drop 25 two_frames_and_a_bit ].

(** The pyramid after two frames went through [write_frame_]. *)
Definition pyramid_after_two_frames : TestStream :=
  default pyramid_stream
    (deliver (whole_frames 16 two_frames_and_a_bit) pyramid_stream).

(** ** Further notions used in Part II *)

(** One round of the queue: every path replaced by its children, in order. *)
Definition children (n_parts : nat) (paths : list string) : list string :=
  flat_map (fun path => map (push_index path) (seq 0 n_parts)) paths.

(** Two dimensions that differ at most in the value of a non-zero chunk
    size. *)
Definition same_but_chunk (d d' : ZarrDimension) : Prop :=
  name d' = name d /\ type d' = type d
  /\ array_size_px d' = array_size_px d
  /\ shard_size_chunks d' = shard_size_chunks d
  /\ chunk_size_px d <> 0 /\ chunk_size_px d' <> 0.

Definition with_dimensions (dims : list ZarrDimension) (st : ZarrStreamSettings_s)
  : ZarrStreamSettings_s :=
  {| store_path := store_path st; s3_settings := s3_settings st;
     compression_settings := compression_settings st; dimensions := Some dims;
     multiscale := multiscale st; data_type := data_type st;
     version := version st; max_threads := max_threads st |}.

(** The claim read on the settings: some dimension has a bounded extent and
    a chunk larger than it. *)
Definition has_oversized_chunk (st : ZarrStreamSettings_s) : Prop :=
  exists dims d, dimensions st = Some dims /\ d ∈ dims
                 /\ 0 < array_size_px d /\ array_size_px d < chunk_size_px d.

Definition dims_oversized : list ZarrDimension :=
  [ dim "t" ZarrDimensionType_Time 0 5 1;
    dim "y" ZarrDimensionType_Space 48 64 1;
    dim "x" ZarrDimensionType_Space 48 16 1 ].


(** [z] is the number [d] without its fractional part: same sign, and a
    magnitude that is the integer part of the magnitude of [d]. *)
Definition integer_part_of (d : double) (z : Z) : Prop :=
  match d with
  | S754_zero _ => z = 0%Z
  | S754_finite s m e =>
      (if s then (z <= 0)%Z else (0 <= z)%Z)
      /\ if (0 <=? e)%Z then Z.abs z = (Zpos m * 2 ^ e)%Z
         else (Z.abs z * 2 ^ (- e) <= Zpos m < (Z.abs z + 1) * 2 ^ (- e))%Z
  | _ => False
  end.

(** The conversion to [T] truncates toward zero when it is defined. *)
Definition truncates (T : PixelType) (as_Z : px T -> Z) : Prop :=
  forall d v, of_double T d = Some v -> integer_part_of d (as_Z v).

(** What [static_cast<T>(double)] does for each element type. *)
Definition cast_rule (t : ZarrDataType) : Prop :=
  match t with
  | ZarrDataType_uint8 => truncates (pixel_of ZarrDataType_uint8) (fun z => z)
  | ZarrDataType_uint16 => truncates (pixel_of ZarrDataType_uint16) (fun z => z)
  | ZarrDataType_uint32 => truncates (pixel_of ZarrDataType_uint32) (fun z => z)
  | ZarrDataType_uint64 => truncates (pixel_of ZarrDataType_uint64) (fun z => z)
  | ZarrDataType_int8 => truncates (pixel_of ZarrDataType_int8) (fun z => z)
  | ZarrDataType_int16 => truncates (pixel_of ZarrDataType_int16) (fun z => z)
  | ZarrDataType_int32 => truncates (pixel_of ZarrDataType_int32) (fun z => z)
  | ZarrDataType_int64 => truncates (pixel_of ZarrDataType_int64) (fun z => z)
  | ZarrDataType_float32 =>
      (* the nearest binary32 number, ties to even *)
      forall d, of_double (pixel_of ZarrDataType_float32) d
                = Some (match d with
                        | S754_finite s m e =>
                            binary_normalize 24 128 (cond_Zopp s (Zpos m)) e s
                        | _ => d
                        end)
  | ZarrDataType_float64 =>
      forall d, of_double (pixel_of ZarrDataType_float64) d = Some d
  end.

(** ** What the validators accept, in words *)

Section ValidSettings.
Context `{StringLib}.

Definition valid_s3_settings (s3 : S3Settings) : Prop :=
  is_empty_string (endpoint s3) = false
  /\ 3 <= String.length (trim (bucket_name s3)) <= 63.

(** The directory that is to hold the store: the parent of the store path,
    and the working directory when the store path is a single name. *)
Definition store_parent (store_path : string) : string :=
  if String.eqb (parent_path store_path) "" then "."%string
  else parent_path store_path.

(** That directory exists and is writable. *)
Definition valid_store_parent (w : World) (store_path : string) : Prop :=
  fs_status w (store_parent store_path) = Some (Directory true).

Definition valid_compression_settings (c : CompressionSettings) : Prop :=
  (exists k, compressor c = Enumerator k)
  /\ (exists k, codec c = Enumerator k)
  /\ (compressor c <> Enumerator ZarrCompressor_None ->
      codec c <> Enumerator ZarrCompressionCodec_None)
  /\ level c <= 9
  /\ shuffle c <= 2.

Definition valid_dimension (version : nat) (is_append : bool) (d : ZarrDimension)
  : Prop :=
  is_empty_string (name d) = false
  /\ (exists t, type d = Enumerator t)
  /\ (is_append = false -> 0 < array_size_px d)
  /\ 0 < chunk_size_px d
  /\ (version = 3 -> 0 < shard_size_chunks d).

Definition valid_settings (w : World) (st : ZarrStreamSettings_s) : Prop :=
  (version st = 2 \/ version st = 3)
  /\ (exists path, store_path st = Some path /\ path <> ""%string
                   /\ match s3_settings st with
                      | Some s3 => valid_s3_settings s3
                      | None => valid_store_parent w path
                      end)
  /\ (exists t, data_type st = Enumerator t)
  /\ (forall c, compression_settings st = Some c -> valid_compression_settings c)
  /\ exists dims,
       dimensions st = Some dims
       /\ 3 <= length dims
       /\ (exists d, dims !! (length dims - 1) = Some d
                     /\ type d = Enumerator ZarrDimensionType_Space)
       /\ (exists d, dims !! (length dims - 2) = Some d
                     /\ type d = Enumerator ZarrDimensionType_Space)
       /\ forall i d, dims !! i = Some d ->
                      valid_dimension (version st) (i =? 0) d.

(** The verdict of a validator on an error string: acceptance leaves the
    string alone, rejection replaces it by a message. *)
Definition verdict (valid : Prop) (error : string) (r : bool * string) : Prop :=
  (valid /\ r = (true, error))
  \/ (~ valid /\ exists message, r = (false, message) /\ message <> ""%string).

End ValidSettings.

(** ** Notions about paths *)

(** Whether a string holds a separator. *)
Fixpoint has_slash (s : string) : bool :=
  match s with
  | EmptyString => false
  | String c s' => Ascii.eqb c "/" || has_slash s'
  end.

(** ** Stand-ins for the custom metadata scenarios *)

(** A working directory in which [out.zarr] is a regular file, so that no
    directory of that name can be made. *)
Definition blocked_world : World :=
  {| files := {[ [] := Directory true;
                 ["work"%string] := Directory true;
                 ["work"%string; "out.zarr"%string] := RegularFile [] ]};
     cwd := ["work"%string]; io_errors := ∅;
     s3_pool_error := None; s3_connection_valid := true; s3_buckets := ∅ |}.

(** The path [write_custom_metadata] gives the sink of [acquire.json]. *)
Definition custom_metadata_path {W K} (s : ZarrStream_s W K) : string :=
  let base_path := strip_file_scheme (store_path_ s) in
  (if String.eqb base_path "" then ""%string else base_path +:+ "/")
  +:+ "acquire.json".

(** ** Notions about the OME metadata *)

(** The entry of ["axes"] for dimension [i] of [n]: its name and type, and
    for the last two dimensions the unit. *)
Definition ome_axis (n i : nat) (d : ZarrDimension) : json :=
  JObject ([("name"%string, JString (name d));
            ("type"%string, JString (dimension_type_to_string (type d)))]
           ++ if n - 2 <=? i then [("unit"%string, JString "micrometer")] else []).

Definition is_object (j : json) : bool :=
  match j with JObject _ => true | _ => false end.

(** One round of the loop over the levels above 0 in [make_ome_metadata_]. *)
Definition ome_level_entry (n : nat) (m : json) (i : nat) : json :=
  json_set "metadata" downsampling_metadata
    (json_set "type" (JString "local_mean")
       (json_push_at "datasets"
          (dataset (to_string i)
             ([pow2 i] ++ repeat one (Z.to_nat (size_t_sub n 3))
              ++ [pow2 i] ++ [pow2 i])) m)).

(** One round of the loop over the dimensions in [make_ome_metadata_]. *)
Definition ome_axes_step (n : nat) (axes : json) (entry : nat * ZarrDimension)
  : json :=
  let '(i, dim) := entry in
  let type := dimension_type_to_string (type dim) in
  if (Z.of_nat i <? size_t_sub n 2)%Z then
    json_push_back
      (JObject [("name"%string, JString (name dim));
                ("type"%string, JString type)]) axes
  else
    json_push_back
      (JObject [("name"%string, JString (name dim));
                ("type"%string, JString type);
                ("unit"%string, JString "micrometer")]) axes.

(** ** Notions about what [append] leaves alone *)

Section StreamErasure.
Context {W K : Type}.

(** The stream without its frame buffer, its writers and its held frames:
    the error state, the settings, the connection pool and the metadata
    sinks. *)
Definition erase_frames (s : ZarrStream_s W K) : ZarrStream_s W K :=
  with_frame_buffer_ [] 0 (with_writers_ [] (with_scaled_frames_ ∅ s)).

(** The result of a call on [s] differs from [s] at most in the frame
    buffer, the writers and the held frames, and has as many writers. *)
Definition same_but_frames {A} (s : ZarrStream_s W K)
    (r : ZarrStream_s W K * outcome A) : Prop :=
  erase_frames r.1 = erase_frames s
  /\ length (writers_ r.1) = length (writers_ s).

(** The result of a call keeps a property [Q] of the stream and a frame
    buffer of [F] bytes with the offset inside it, before its end when the
    call returns. *)
Definition keeps {A} (Q : ZarrStream_s W K -> Prop) (F : nat)
    (r : ZarrStream_s W K * outcome A) : Prop :=
  Q r.1
  /\ length (frame_buffer_ r.1) = F
  /\ frame_buffer_offset_ r.1 <= F
  /\ (forall a, r.2 = Returns a -> frame_buffer_offset_ r.1 < F).

End StreamErasure.

(** An earlier acquisition under [out.zarr] that cannot be removed. *)
Definition locked_world : World :=
  {| files := {[ [] := Directory true;
                 ["work"%string] := Directory true;
                 ["work"%string; "out.zarr"%string] := Directory true ]};
     cwd := ["work"%string];
     io_errors := {[ ["work"%string; "out.zarr"%string] ]};
     s3_pool_error := None; s3_connection_valid := true; s3_buckets := ∅ |}.

(** ** Doubles that hold integers exactly *)

(** The double of value [z * 2^e], when that value has at most 53
    significant bits. *)
Definition dbl (z e : Z) : double := binary_normalize 53 1024 z e false.

(** The normal form of a positive [S] below [2^53]: its bits moved up
    against bit 52, and the exponent that takes them back. *)
Definition normal_mantissa (S : positive) : positive :=
  match (53 - Zpos (digits2_pos S))%Z with
  | Zpos k => Pos.iter xO S k
  | _ => S
  end.

Definition normal_exponent (S : positive) : Z := (Zpos (digits2_pos S) - 53)%Z.

(** ** The integer element types, read as integers *)

(** Signedness and size of the integer element types. *)
Definition integer_layout (t : ZarrDataType) : option (bool * nat) :=
  match t with
  | ZarrDataType_uint8 => Some (false, 1)
  | ZarrDataType_uint16 => Some (false, 2)
  | ZarrDataType_uint32 => Some (false, 4)
  | ZarrDataType_uint64 => Some (false, 8)
  | ZarrDataType_int8 => Some (true, 1)
  | ZarrDataType_int16 => Some (true, 2)
  | ZarrDataType_int32 => Some (true, 4)
  | ZarrDataType_int64 => Some (true, 8)
  | ZarrDataType_float32 | ZarrDataType_float64 => None
  end.

(** The integer types of at most 32 bits. *)
Definition narrow_integer (t : ZarrDataType) : bool :=
  match integer_layout t with
  | Some (_, bytes) => bytes <=? 4
  | None => false
  end.

(** Pixel [idx] of a frame of integers. *)
Definition integer_at (t : ZarrDataType) (p : list byte) (idx : nat) : Z :=
  match integer_layout t with
  | Some (true, bytes) => load_signed bytes (drop (idx * bytes) p)
  | Some (false, bytes) => load_unsigned bytes (drop (idx * bytes) p)
  | None => 0%Z
  end.

(** The mean of a 2x2 block of integers, the fraction dropped: the
    quotient that rounds toward zero. *)
Definition integer_mean (t : ZarrDataType) (src : list byte) (width height : nat)
    (rc : nat * nat) : Z :=
  let '(r, c) := rc in
  let P r c :=
    integer_at t src (Nat.min r (height - 1) * width + Nat.min c (width - 1)) in
  Z.quot (P (2 * r) (2 * c) + P (2 * r) (2 * c + 1)
          + P (2 * r + 1) (2 * c) + P (2 * r + 1) (2 * c + 1)) 4.

(** [a + b] in the type the operands of [average_two_frames] are added in:
    [int] for operands narrower than [int], which cannot overflow;
    [unsigned], which wraps; [int], where overflow is undefined. *)
Definition integer_sum (t : ZarrDataType) (a b : Z) : option Z :=
  match t with
  | ZarrDataType_uint8 | ZarrDataType_uint16
  | ZarrDataType_int8 | ZarrDataType_int16 => Some (a + b)%Z
  | ZarrDataType_uint32 => Some ((a + b) mod 2 ^ 32)%Z
  | ZarrDataType_int32 =>
      if (- 2 ^ 31 <=? a + b)%Z && (a + b <? 2 ^ 31)%Z then Some (a + b)%Z else None
  | _ => None
  end.

(** Half the sum, the fraction dropped. *)
Definition integer_average (t : ZarrDataType) (a b : Z) : option Z :=
  (fun sum => Z.quot sum 2) <$> integer_sum t a b.

(** ** Construction of a stream (zarr.stream.cpp, array.writer.hh) *)

(** [zarr::BloscCompressionParams] (blosc.compression.params.hh). *)
Record BloscCompressionParams := {
  codec_id : string;
  clevel : nat;
  blosc_shuffle : nat
}.

(** [zarr::ArrayWriterConfig] (array.writer.hh); the members that share a
    name with a member of the settings carry the prefix [config_]. *)
Record ArrayWriterConfig := {
  config_dimensions : list ZarrDimension;
  config_dtype : c_enum ZarrDataType;
  level_of_detail : Z;
  config_bucket_name : option string;
  config_store_path : string;
  compression_params : option BloscCompressionParams
}.

(** What the constructor calls outside [zarr.stream.cpp] and [sink.cpp]:
    [bytes_of_frame] and [blosc_codec_to_string] (zarr.common.hh) and
    [downsample] (array.writer.hh), whose second component is the value it
    returns; *)
Class ConfigLib := {
  bytes_of_frame : list ZarrDimension -> c_enum ZarrDataType -> nat;
  blosc_codec_to_string : c_enum ZarrCompressionCodec -> string;
  downsample : ArrayWriterConfig -> ArrayWriterConfig * bool
}.

(** the constructors of the two array writers (the second argument tells
    whether an S3 connection pool is passed); *)
Class WriterMakers (W : Type) := {
  new_ZarrV2ArrayWriter : ArrayWriterConfig -> bool -> outcome W;
  new_ZarrV3ArrayWriter : ArrayWriterConfig -> bool -> outcome W
}.

(** and the makers of the metadata sinks (sink.hh), which fill the map they
    are given. *)
Class SinkMakers (K : Type) := {
  make_metadata_s3_sinks :
    nat -> string -> string -> gmap string (option K)
    -> gmap string (option K) * outcome bool;
  make_metadata_file_sinks :
    nat -> string -> World -> gmap string (option K)
    -> World * gmap string (option K) * outcome bool
}.

(** The configuration after [i] rounds of [downsample]. *)
Definition downsampled `{ConfigLib} (config : ArrayWriterConfig) (i : nat)
  : ArrayWriterConfig :=
  Nat.iter i (fun config => (downsample config).1) config.

Section Construction.
Context {W K : Type} `{ArrayWriterOps W} `{SinkOps K} `{JsonLib} `{StringLib}
        `{ConfigLib} `{WriterMakers W} `{SinkMakers K}.

(** The members as the constructor's initializer list leaves them.  The
    members it does not mention and that have no default ([version_],
    [dtype_], [multiscale_]) are given a value here; [commit_settings_]
    assigns them before anything reads them. *)
Definition blank_stream : ZarrStream_s W K :=
  {| error_ := ""; version_ := 0; store_path_ := "";
     s3_settings_ := None; compression_settings_ := None;
     dtype_ := OutOfRange 0; dimensions_ := []; multiscale_ := false;
     frame_buffer_ := []; frame_buffer_offset_ := 0;
     s3_connection_pool_ := false; writers_ := [];
     metadata_sinks_ := ∅; scaled_frames_ := ∅ |}.

(** [ZarrStream_s::is_compressed_acquisition_] *)
Definition is_compressed_acquisition_ (s : ZarrStream_s W K) : bool :=
  bool_decide (is_Some (compression_settings_ s)).

(** [ZarrStream_s::commit_settings_]; reading a null [store_path] is
    undefined.  The tests [is_s3_acquisition(settings)] and
    [is_compressed_acquisition(settings)] are the matches on the two
    pointers. *)
Definition commit_settings_ (settings : ZarrStreamSettings_s) (s : ZarrStream_s W K)
  : outcome (ZarrStream_s W K) :=
  match store_path settings with
  | None => Undefined
  | Some path =>
      Returns
        {| error_ := error_ s;
           version_ := version settings;
           store_path_ := trim path;
           s3_settings_ :=
             match s3_settings settings with
             | Some s3 => Some (construct_s3_settings s3)
             | None => s3_settings_ s
             end;
           compression_settings_ :=
             match compression_settings settings with
             | Some c =>
                 Some {| compressor := compressor c; codec := codec c;
                         level := level c; shuffle := shuffle c |}
             | None => compression_settings_ s
             end;
           dtype_ := data_type settings;
           dimensions_ := default [] (dimensions settings);
           multiscale_ := multiscale settings;
           frame_buffer_ := frame_buffer_ s;
           frame_buffer_offset_ := frame_buffer_offset_ s;
           s3_connection_pool_ := s3_connection_pool_ s;
           writers_ := writers_ s;
           metadata_sinks_ := metadata_sinks_ s;
           scaled_frames_ := scaled_frames_ s |}
  end.

(** [std::make_unique<zarr::ZarrV2ArrayWriter>(config, thread_pool_,
    s3_connection_pool_)] or its version 3 counterpart, as [version_]
    selects. *)
Definition construct_writer (version_ : nat) (s3_connection_pool_ : bool)
    (config : ArrayWriterConfig) : outcome W :=
  if version_ =? 2 then new_ZarrV2ArrayWriter config s3_connection_pool_
  else new_ZarrV3ArrayWriter config s3_connection_pool_.

Definition new_writer (config : ArrayWriterConfig) : M W K W :=
  fun s => (s, construct_writer (version_ s) (s3_connection_pool_ s) config).

Definition push_writer (w : W) : M W K unit :=
  modify (fun s => with_writers_ (writers_ s ++ [w]) s).

(** The [while (do_downsample)] loop of [create_writers_]; [fuel] bounds
    the number of rounds. *)
Fixpoint downsample_loop (fuel : nat) (config : ArrayWriterConfig) : M W K unit :=
  match fuel with
  | 0 => lift Hangs
  | S fuel =>
      let '(downsampled_config, do_downsample) := downsample config in
      let! w := new_writer downsampled_config in
      let! _ := push_writer w in
      let config := downsampled_config in
      if do_downsample then downsample_loop fuel config else ret tt
  end.

(** The configuration of the writer of level 0. *)
Definition base_config (s : ZarrStream_s W K) : ArrayWriterConfig :=
  let blosc_compression_params :=
    if is_compressed_acquisition_ s then
      match compression_settings_ s with
      | Some c =>
          Some {| codec_id := blosc_codec_to_string (codec c);
                  clevel := level c; blosc_shuffle := shuffle c |}
      | None => None
      end
    else None in
  let s3_bucket_name :=
    if is_s3_acquisition_ s then
      match s3_settings_ s with
      | Some s3 => Some (bucket_name s3)
      | None => None
      end
    else None in
  {| config_dimensions := dimensions_ s;
     config_dtype := dtype_ s;
     level_of_detail := 0;
     config_bucket_name := s3_bucket_name;
     config_store_path := store_path_ s;
     compression_params := blosc_compression_params |}.

(** [ZarrStream_s::create_writers_] *)
Definition create_writers_ (fuel : nat) : M W K bool :=
  let! _ := modify (with_writers_ []) in
  fun s =>
    let config := base_config s in
    (let! w := new_writer config in
     let! _ := push_writer w in
     let! _ := if multiscale_ s then downsample_loop fuel config else ret tt in
     ret true) s.

(** [ZarrStream_s::create_scaled_frames_]; [emplace] leaves an entry that
    exists alone. *)
Definition create_scaled_frames_ (s : ZarrStream_s W K) : ZarrStream_s W K :=
  with_scaled_frames_
    (fold_left (fun frames level =>
                  match frames !! level with
                  | None => <[level := None]> frames
                  | Some _ => frames
                  end)
               (seq 1 (length (writers_ s) - 1)) (scaled_frames_ s)) s.

(** [ZarrStream_s::create_metadata_sinks_]: exceptions of the makers are
    caught and reported. *)
Definition create_metadata_sinks_ (s : ZarrStream_s W K) (w : World)
  : ZarrStream_s W K * World * outcome bool :=
  let '(w, sinks, made) :=
    if s3_connection_pool_ s then
      match s3_settings_ s with
      | Some s3 =>
          let '(sinks, made) :=
            make_metadata_s3_sinks (version_ s) (bucket_name s3) (store_path_ s)
                                   (metadata_sinks_ s) in
          (w, sinks, made)
      | None => (w, metadata_sinks_ s, Undefined)
      end
    else make_metadata_file_sinks (version_ s) (store_path_ s) w (metadata_sinks_ s) in
  let s := with_metadata_sinks_ sinks s in
  match made with
  | Returns true => (s, w, Returns true)
  | Returns false => (set_error_ "Error creating metadata sinks" s, w, Returns false)
  | Throws what =>
      (set_error_ ("Error creating metadata sinks: " +:+ what) s, w, Returns false)
  | Undefined => (s, w, Undefined)
  | Hangs => (s, w, Hangs)
  end.

(** [EXPECT(step, error_)] on the result of a step of the constructor. *)
Definition expect_step (s : ZarrStream_s W K) (r : outcome bool)
  : outcome unit :=
  let* ok := r in EXPECT ok (error_ s).

(** [ZarrStream_s::ZarrStream_s(settings)]: the environment after the call
    and the stream, unless the constructor throws. *)
Definition new_ZarrStream_s (fuel : nat) (settings : option ZarrStreamSettings_s)
    (w : World) : World * outcome (ZarrStream_s W K) :=
  let s := blank_stream in
  let '(ok, error) := validate_settings_ w settings (error_ s) in
  let s := with_error_ error s in
  match expect_step s (Returns ok), settings with
  | Returns _, Some settings =>
      match commit_settings_ settings s with
      | Returns s =>
          (* start_thread_pool_: the pool is not a member of the record *)
          let s := with_frame_buffer_
                     (repeat x00 (bytes_of_frame (dimensions_ s) (dtype_ s)))
                     (frame_buffer_offset_ s) s in
          let '(s, w, ok) := create_store_ s w in
          match expect_step s (Returns ok) with
          | Returns _ =>
              let '(s, r) := create_writers_ fuel s in
              match expect_step s r with
              | Returns _ =>
                  let s := if multiscale_ s then create_scaled_frames_ s else s in
                  let '(s, w, r) := create_metadata_sinks_ s w in
                  match expect_step s r with
                  | Returns _ =>
                      let '(s, r) := write_base_metadata_ s in
                      match expect_step s r with
                      | Returns _ =>
                          let '(s, r) := write_group_metadata_ s in
                          match expect_step s r with
                          | Returns _ => (w, Returns s)
                          | Throws what => (w, Throws what)
                          | Undefined => (w, Undefined)
                          | Hangs => (w, Hangs)
                          end
                      | Throws what => (w, Throws what)
                      | Undefined => (w, Undefined)
                      | Hangs => (w, Hangs)
                      end
                  | Throws what => (w, Throws what)
                  | Undefined => (w, Undefined)
                  | Hangs => (w, Hangs)
                  end
              | Throws what => (w, Throws what)
              | Undefined => (w, Undefined)
              | Hangs => (w, Hangs)
              end
          | Throws what => (w, Throws what)
          | Undefined => (w, Undefined)
          | Hangs => (w, Hangs)
          end
      | Throws what => (w, Throws what)
      | Undefined => (w, Undefined)
      | Hangs => (w, Hangs)
      end
  | Returns _, None => (w, Undefined)
  | Throws what, _ => (w, Throws what)
  | Undefined, _ => (w, Undefined)
  | Hangs, _ => (w, Hangs)
  end.

End Construction.

(** Stand-ins for the collaborators of the constructor: frames of one byte
    per pixel, a [downsample] that halves the two frame dimensions and goes
    on while both still exceed their chunk, writers and sinks that are
    always made. *)
Definition halve (d : ZarrDimension) : ZarrDimension :=
  {| name := name d; type := type d;
     array_size_px := (array_size_px d + 1) / 2;
     chunk_size_px := chunk_size_px d;
     shard_size_chunks := shard_size_chunks d |}.

Definition halve_frame (dims : list ZarrDimension) : list ZarrDimension :=
  take (length dims - 2) dims ++ map halve (drop (length dims - 2) dims).

Definition test_metadata_sinks (version : nat)
    (sinks : gmap string (option TestSink)) : gmap string (option TestSink) :=
  fold_left (fun sinks key =>
               <[key := Some {| contents := []; broken := false |}]> sinks)
            (if version =? 2 then [".zattrs"%string; ".zgroup"%string]
             else ["zarr.json"%string])
            sinks.

#[global] Instance TestConfigLib : ConfigLib := {|
  bytes_of_frame dims dtype :=
    fold_left Nat.mul (map array_size_px (drop (length dims - 2) dims)) 1;
  blosc_codec_to_string codec :=
    match codec with
    | Enumerator ZarrCompressionCodec_BloscLZ4 => "lz4"
    | Enumerator ZarrCompressionCodec_BloscZstd => "zstd"
    | _ => ""
    end%string;
  downsample config :=
    let dims := halve_frame (config_dimensions config) in
    ({| config_dimensions := dims;
        config_dtype := config_dtype config;
        level_of_detail := level_of_detail config + 1;
        config_bucket_name := config_bucket_name config;
        config_store_path := config_store_path config;
        compression_params := compression_params config |},
     forallb (fun d => chunk_size_px d <? array_size_px d)
             (drop (length dims - 2) dims))
|}.

#[global] Instance TestWriterMakers : WriterMakers TestWriter := {|
  new_ZarrV2ArrayWriter config pool := Returns {| accepted := []; capacity := 1000 |};
  new_ZarrV3ArrayWriter config pool := Returns {| accepted := []; capacity := 1000 |}
|}.

#[global] Instance TestSinkMakers : SinkMakers TestSink := {|
  make_metadata_s3_sinks version bucket path sinks :=
    (test_metadata_sinks version sinks, Returns true);
  make_metadata_file_sinks version path w sinks :=
    (w, test_metadata_sinks version sinks, Returns true)
|}.

Definition multiscale_settings (dims : list ZarrDimension) : ZarrStreamSettings_s :=
  {| store_path := Some "out.zarr"%string; s3_settings := None;
     compression_settings := None; dimensions := Some dims; multiscale := true;
     data_type := Enumerator ZarrDataType_uint8; version := 2; max_threads := 1 |}.

(* ================================================================== *)
(** * Part II: properties *)
(* ================================================================== *)

Example construct_data_paths_2x3 :
  construct_data_paths "root"
    [ Build_ZarrDimension "t" (Enumerator ZarrDimensionType_Time) 0 5 1;
      Build_ZarrDimension "y" (Enumerator ZarrDimensionType_Space) 4 2 1;
      Build_ZarrDimension "x" (Enumerator ZarrDimensionType_Space) 6 2 1 ]
    (fun d => array_size_px d / chunk_size_px d)
  = Returns ["root/0/0"; "root/0/1"; "root/0/2"; "root/1/0"; "root/1/1"; "root/1/2"].
Proof. reflexivity. Qed.

(** ** Data paths (sink.cpp) *)

Section DataPaths.

Variable parts_along_dimension : DimensionPartsFun.

Lemma expand_queue_take n_paths n_parts paths_queue :
  n_paths <= length paths_queue ->
  expand_queue n_paths n_parts paths_queue
  = Returns (drop n_paths paths_queue ++ children n_parts (take n_paths paths_queue)).
Proof.
  revert paths_queue.
  induction n_paths as [|j IH]; intros q Hle; simpl.
  - rewrite drop_0. unfold children. simpl. now rewrite app_nil_r.
  - destruct q as [|path rest]; simpl in *; [lia|].
    rewrite IH by (rewrite length_app; lia).
    f_equal.
    rewrite drop_app_le by lia.
    rewrite take_app_le by lia.
    unfold children. simpl.
    now rewrite <- app_assoc.
Qed.

Lemma expand_queue_all n_parts paths_queue :
  expand_queue (length paths_queue) n_parts paths_queue
  = Returns (children n_parts paths_queue).
Proof.
  rewrite expand_queue_take by lia.
  now rewrite drop_all, firstn_all.
Qed.

Lemma final_paths_take n_paths n_parts paths_queue paths_out :
  n_paths <= length paths_queue ->
  final_paths n_paths n_parts paths_queue paths_out
  = Returns (paths_out ++
             flat_map (fun path => map (fun j => path +:+ "/" +:+ to_string j)
                                       (seq 0 n_parts))
                      (take n_paths paths_queue)).
Proof.
  revert paths_queue paths_out.
  induction n_paths as [|i IH]; intros q out Hle; simpl.
  - now rewrite app_nil_r.
  - destruct q as [|path rest]; simpl in *; [lia|].
    rewrite IH by lia. now rewrite <- app_assoc.
Qed.

(** The intermediate loop over a run of dimensions that all have parts. *)
Lemma foldM_intermediate (dimensions : ArrayDimensions) (mids : list ZarrDimension)
      (start : nat) (paths_queue : list string) :
  (forall k dim, mids !! k = Some dim -> dimensions !! (start + k) = Some dim) ->
  Forall (fun dim => 0 < parts_along_dimension dim) mids ->
  foldM (fun i paths_queue =>
           match dimensions !! i with
           | None => Throws "out_of_range"
           | Some dim =>
               let n_parts := parts_along_dimension dim in
               let* _ := CHECK (negb (n_parts =? 0)) in
               expand_queue (length paths_queue) n_parts paths_queue
           end)
        (seq start (length mids)) paths_queue
  = Returns (fold_left (fun q dim => children (parts_along_dimension dim) q)
                       mids paths_queue).
Proof.
  revert start paths_queue.
  induction mids as [|dim mids IH]; intros start q Hat Hpos; simpl; [done|].
  pose proof (Hat 0 dim eq_refl) as H0. rewrite Nat.add_0_r in H0. rewrite H0.
  inversion Hpos as [|? ? Hd Hrest]; subst.
  destruct (parts_along_dimension dim =? 0) eqn:E.
  { apply Nat.eqb_eq in E. lia. }
  simpl. rewrite expand_queue_all. simpl.
  apply IH; [|done].
  intros k d Hk. replace (S start + k) with (start + S k) by lia.
  now apply Hat.
Qed.

Lemma index_tuples_snoc (parts : list nat) (n : nat) :
  index_tuples (parts ++ [n])
  = flat_map (fun t => map (fun k => t ++ [k]) (seq 0 n)) (index_tuples parts).
Proof.
  induction parts as [|m parts IH]; simpl.
  - rewrite !app_nil_r.
    induction (seq 0 n) as [|k ks IHk]; simpl; [done|]. now rewrite IHk.
  - rewrite IH. clear IH.
    induction (seq 0 m) as [|k ks IHk]; simpl; [done|].
    rewrite flat_map_app, IHk. f_equal. clear IHk.
    induction (index_tuples parts) as [|t ts IHt]; simpl; [done|].
    rewrite map_app, IHt, map_map.
    reflexivity.
Qed.

Lemma length_index_tuples (parts : list nat) :
  length (index_tuples parts) = fold_right Nat.mul 1 parts.
Proof.
  induction parts as [|n parts IH]; simpl; [done|].
  rewrite <- IH. generalize (index_tuples parts) as ts. intros ts.
  generalize 0 as start.
  induction n as [|n IHn]; intros start; simpl; [done|].
  rewrite length_app, length_map, IHn. reflexivity.
Qed.

Lemma children_tuples (base_path : string) (mids : list ZarrDimension) :
  fold_left (fun q dim => children (parts_along_dimension dim) q) mids [base_path]
  = map (fun idx => fold_left push_index idx base_path)
        (index_tuples (map parts_along_dimension mids)).
Proof.
  induction mids as [|dim mids IH] using rev_ind; simpl; [done|].
  rewrite fold_left_app, map_app. simpl.
  rewrite IH, index_tuples_snoc. unfold children. clear IH.
  induction (index_tuples (map parts_along_dimension mids)) as [|t ts IHt];
    simpl; [done|].
  rewrite IHt, map_app, map_map. f_equal.
  apply map_ext. intros k. now rewrite fold_left_app.
Qed.

Lemma data_path_snoc (base_path : string) (t : list nat) (k : nat) :
  data_path base_path (t ++ [k])
  = fold_left push_index t base_path +:+ "/" +:+ to_string k.
Proof.
  unfold data_path. now rewrite removelast_last, last_last.
Qed.

(** Behind a non-empty base path every index is its own component. *)
Lemma push_index_nonempty (path : string) (k : nat) :
  path <> ""%string -> push_index path k = path +:+ "/" +:+ to_string k.
Proof.
  intros Hne. unfold push_index.
  destruct (String.eqb path "") eqn:E; [|done].
  apply String.eqb_eq in E. contradiction.
Qed.

End DataPaths.

(** C10. For a dimension set of at least three dimensions in which every
    dimension after the first has a positive number of parts,
    [construct_data_paths] returns one path per index tuple of the
    dimensions 1 .. n-1 (the append dimension is left out): their number is
    the product of the parts, the tuples come in row-major order (dimension 1
    slowest, width fastest), and each path is the base path followed by one
    index component per dimension. *)
Theorem construct_data_paths_row_major
    (base_path : string) (dimensions : ArrayDimensions)
    (parts_along_dimension : DimensionPartsFun) :
  3 <= ndims dimensions ->
  Forall (fun dim => 0 < parts_along_dimension dim) (tail dimensions) ->
  exists paths,
    construct_data_paths base_path dimensions parts_along_dimension = Returns paths
    /\ length paths
       = fold_right Nat.mul 1 (map parts_along_dimension (tail dimensions))
    /\ paths = map (data_path base_path)
                   (index_tuples (map parts_along_dimension (tail dimensions))).
Proof.
  intros Hn Hpos.
  destruct dimensions as [|d0 rest]; [simpl in Hn; lia|].
  simpl in Hpos.
  destruct (exists_last (l := rest)) as (mids & w & ->).
  { intros ->. simpl in Hn. lia. }
  unfold ndims in Hn. simpl in Hn. rewrite length_app in Hn. simpl in Hn.
  apply Forall_app in Hpos as [Hmid Hw].
  inversion Hw as [|? ? Hw0 _]; subst.
  eexists. split; [|split].
  2: { rewrite length_map, length_index_tuples. reflexivity. }
  2: reflexivity.
  assert (Hwidth : width_dim (d0 :: mids ++ [w]) = Some w).
  { unfold width_dim, ndims. simpl length. rewrite length_app. simpl length.
    replace (S (length mids + 1) - 1) with (S (length mids)) by lia.
    change ((d0 :: mids ++ [w]) !! S (length mids))
      with ((mids ++ [w]) !! length mids).
    now rewrite list_lookup_middle. }
  assert (Hcount : ndims (d0 :: mids ++ [w]) - 2 = length mids).
  { unfold ndims. simpl length. rewrite length_app. simpl. lia. }
  unfold construct_data_paths, intermediate_paths.
  rewrite Hwidth, Hcount.
  rewrite (foldM_intermediate parts_along_dimension (d0 :: mids ++ [w]) mids 1).
  2: { intros k dim Hk. simpl. apply lookup_app_l_Some. exact Hk. }
  2: exact Hmid.
  cbn [obind].
  destruct (parts_along_dimension w =? 0) eqn:E.
  { apply Nat.eqb_eq in E. lia. }
  simpl. rewrite final_paths_take by lia.
  rewrite firstn_all. simpl. f_equal.
  rewrite children_tuples, map_app. simpl.
  rewrite index_tuples_snoc.
  induction (index_tuples (map parts_along_dimension mids)) as [|t ts IHt];
    simpl; [done|].
  rewrite IHt, map_app, map_map. f_equal.
  apply map_ext. intros k. now rewrite data_path_snoc.
Qed.

Lemma construct_data_paths_row_major_witness :
  exists paths,
    construct_data_paths "root"
      [ Build_ZarrDimension "t" (Enumerator ZarrDimensionType_Time) 0 5 1;
        Build_ZarrDimension "y" (Enumerator ZarrDimensionType_Space) 4 2 1;
        Build_ZarrDimension "x" (Enumerator ZarrDimensionType_Space) 6 2 1 ]
      (fun d => array_size_px d / chunk_size_px d) = Returns paths
    /\ length paths = 6
    /\ paths = ["root/0/0"; "root/0/1"; "root/0/2"; "root/1/0"; "root/1/1"; "root/1/2"].
Proof.
  apply (construct_data_paths_row_major "root"
      [ Build_ZarrDimension "t" (Enumerator ZarrDimensionType_Time) 0 5 1;
        Build_ZarrDimension "y" (Enumerator ZarrDimensionType_Space) 4 2 1;
        Build_ZarrDimension "x" (Enumerator ZarrDimensionType_Space) 6 2 1 ]
      (fun d => array_size_px d / chunk_size_px d)).
  - simpl. lia.
  - repeat constructor.
Defined.

(** ** Settings validation *)

Section ValidationFacts.
Context `{StringLib}.

Lemma validate_dimension_same_but_chunk d d' version is_append error :
  same_but_chunk d d' ->
  validate_dimension d' version is_append error
  = validate_dimension d version is_append error.
Proof.
  intros (Hn & Ht & Ha & Hs & Hc & Hc').
  unfold validate_dimension. rewrite Hn, Ht, Ha, Hs.
  apply Nat.eqb_neq in Hc, Hc'. rewrite Hc, Hc'. reflexivity.
Qed.

Lemma validate_dimensions_same_but_chunk dims dims' i version error :
  Forall2 same_but_chunk dims dims' ->
  validate_dimensions dims' i version error
  = validate_dimensions dims i version error.
Proof.
  intros Hall. revert i error.
  induction Hall as [|d d' dims dims' Hd _ IH]; intros i error; simpl; [done|].
  rewrite (validate_dimension_same_but_chunk d d') by exact Hd.
  destruct (validate_dimension d version (i =? 0) error) as [[|] e]; [|done].
  apply IH.
Qed.

Lemma is_space_same_but_chunk dims dims' k :
  Forall2 same_but_chunk dims dims' ->
  is_space (dims' !! k) = is_space (dims !! k).
Proof.
  intros Hall. revert k.
  induction Hall as [|d d' dims dims' Hd _ IH]; intros [|k]; simpl; try done.
  destruct Hd as (_ & Ht & _). now rewrite Ht.
Qed.

End ValidationFacts.

(** C8, as stated, fails: settings whose height dimension has extent 48 and
    chunk size 64 pass [validate_settings_]. *)
Lemma oversized_chunk_passes_validation :
  has_oversized_chunk (test_settings dims_oversized)
  /\ validate_settings_ empty_world (Some (test_settings dims_oversized)) ""
     = (true, ""%string).
Proof.
  split.
  - exists dims_oversized, (dim "y" ZarrDimensionType_Space 48 64 1).
    split; [reflexivity|]. split.
    + unfold dims_oversized. apply list_elem_of_further, list_elem_of_here.
    + simpl. lia.
  - vm_compute. reflexivity.
Qed.

(** C8, amended.  Settings validation does not compare a chunk size with
    the extent.  Its verdict and its error string are the same for two
    settings that differ only in the values of non-zero chunk sizes, so
    settings whose chunks exceed the extents pass exactly when they pass
    with small chunks. *)
Theorem validate_settings_ignores_chunk_extent `{StringLib}
    (w : World) (st : ZarrStreamSettings_s) (dims dims' : list ZarrDimension)
    (error_ : string) :
  dimensions st = Some dims ->
  Forall2 same_but_chunk dims dims' ->
  validate_settings_ w (Some (with_dimensions dims' st)) error_
  = validate_settings_ w (Some st) error_.
Proof.
  intros Hdims Hall.
  unfold validate_settings_, with_dimensions.
  cbn [version store_path s3_settings data_type compression_settings dimensions].
  rewrite Hdims.
  destruct ((version st <? ZarrVersion_2) || (ZarrVersionCount <=? version st));
    [done|].
  destruct (store_path st) as [path|]; [|done].
  destruct (String.eqb path ""); [done|].
  destruct (match s3_settings st with
            | Some s3 => validate_s3_settings s3 error_
            | None => validate_filesystem_store_path w path error_
            end) as [[|] e1]; simpl; [|done].
  destruct (at_least_count (data_type st)); [done|].
  destruct (match compression_settings st with
            | Some c => validate_compression_settings c e1
            | None => (true, e1)
            end) as [[|] e2]; simpl; [|done].
  rewrite <- (Forall2_length _ _ _ Hall).
  destruct (length dims <? 3); [done|].
  rewrite !(is_space_same_but_chunk dims dims') by exact Hall.
  destruct (negb (is_space (dims !! (length dims - 1)))); [done|].
  destruct (negb (is_space (dims !! (length dims - 2)))); [done|].
  now apply validate_dimensions_same_but_chunk.
Qed.

Lemma validate_settings_ignores_chunk_extent_witness :
  validate_settings_ empty_world
    (Some (with_dimensions dims_oversized (test_settings dims_S1))) ""
  = validate_settings_ empty_world (Some (test_settings dims_S1)) "".
Proof.
  apply (validate_settings_ignores_chunk_extent empty_world
           (test_settings dims_S1) dims_S1 dims_oversized "").
  - reflexivity.
  - repeat constructor; simpl; lia.
Defined.

(** ** The store directory *)



(** What the walk of [create_directories] leaves in the map: every entry
    that was there, and new directories. *)
Lemma make_directories_keeps (errors : gset (list string)) (names : list string) :
  forall f cur created f' made ec,
    make_directories f errors cur names created = (f', made, ec) ->
    forall q, f' !! q = f !! q
              \/ (f !! q = None /\ f' !! q = Some (Directory true)).
Proof.
  induction names as [|name names IH]; intros f cur created f' made ec;
    cbn [make_directories].
  - destruct (f !! cur) as [[wr|content]|]; intros [= <- _ _] q; now left.
  - destruct (f !! cur) as [[wr|content]|];
      [|intros [= <- _ _] q; now left..].
    destruct (String.eqb name "." || String.eqb name "..").
    + apply IH.
    + destruct (f !! enter cur name) as [node|] eqn:Enext.
      * apply IH.
      * destruct (bool_decide (enter cur name ∈ errors));
          [intros [= <- _ _] q; now left|].
        intros Hrec q. destruct (IH _ _ _ _ _ _ Hrec q) as [Hq|[Hq Hq']].
        -- destruct (decide (enter cur name = q)) as [<-|Hne].
           ++ rewrite lookup_insert_eq in Hq. right. now rewrite Enext.
           ++ rewrite lookup_insert_ne in Hq by done. now left.
        -- destruct (decide (enter cur name = q)) as [<-|Hne].
           ++ now rewrite lookup_insert_eq in Hq.
           ++ rewrite lookup_insert_ne in Hq by done. right. done.
Qed.







Section StoreFacts.
Context {W K : Type} `{ArrayWriterOps W} `{SinkOps K}.


End StoreFacts.



(** The same store under other spellings of its path: the earlier
    acquisition goes whichever way the store is named. *)
Example create_store_resolves_the_path :
  Forall (fun store_path =>
            let made := create_store_ (stream_at store_path) used_world in
            made.2 = true
            /\ files made.1.2 !! ["work"; "out.zarr"]%string = Some (Directory true)
            /\ files made.1.2 !! ["work"; "out.zarr"; "0"; ".zarray"]%string = None
            /\ files made.1.2 !! ["work"; "notes.txt"]%string
               = Some (RegularFile []))
         ["out.zarr"; "./out.zarr"; "out.zarr/"; "/work/out.zarr";
          "../work/out.zarr"]%string.
Proof. repeat constructor; vm_compute; reflexivity. Qed.

(** The empty store path and the working directory itself cannot be
    replaced. *)
Example create_store_refuses :
  (create_store_ (stream_at "") used_world).2 = false
  /\ (create_store_ (stream_at "") used_world).1.2 = used_world
  /\ (create_store_ (stream_at ".") used_world).2 = false.
Proof. repeat split; vm_compute; reflexivity. Qed.

(** The parent that the validation asks for is the one the path spells:
    [./out.zarr] lies in the working directory, and [out.zarr/] in
    [out.zarr], which is not there. *)
Example validate_filesystem_store_path_spellings :
  validate_filesystem_store_path empty_world "./out.zarr" "" = (true, ""%string)
  /\ validate_filesystem_store_path empty_world "out.zarr" "" = (true, ""%string)
  /\ (validate_filesystem_store_path empty_world "out.zarr/" "").1 = false
  /\ (validate_filesystem_store_path empty_world "nowhere/out.zarr" "").1 = false.
Proof. repeat split; vm_compute; reflexivity. Qed.

(** ** The error state *)

Section ErrorFacts.
Context {W K : Type} `{ArrayWriterOps W} `{SinkOps K} `{JsonLib} `{StringLib}.

Lemma with_error_twice (e e' : string) (s : ZarrStream_s W K) :
  with_error_ e (with_error_ e' s) = with_error_ e s.
Proof. reflexivity. Qed.

Lemma report_errors_snoc (errs : list string) (e : string) (s : ZarrStream_s W K) :
  report_errors (errs ++ [e]) s = with_error_ e s.
Proof.
  unfold report_errors. rewrite fold_left_app. simpl. unfold set_error_.
  generalize (with_error_twice e). revert s.
  induction errs as [|e' errs IH]; intros s Htwice; simpl; [done|].
  rewrite IH by exact Htwice. apply Htwice.
Qed.

(** Writing the group metadata does not read the error state. *)
Lemma write_group_metadata_ignores_error (e : string) (s : ZarrStream_s W K) :
  (write_group_metadata_ (with_error_ e s)).2 = (write_group_metadata_ s).2
  /\ metadata_sinks_ (write_group_metadata_ (with_error_ e s)).1
     = metadata_sinks_ (write_group_metadata_ s).1
  /\ writers_ (write_group_metadata_ (with_error_ e s)).1
     = writers_ (write_group_metadata_ s).1.
Proof.
  unfold write_group_metadata_, write_to_metadata_sink.
  change (version_ (with_error_ e s)) with (version_ s).
  change (make_ome_metadata_ (with_error_ e s)) with (make_ome_metadata_ s).
  change (metadata_sinks_ (with_error_ e s)) with (metadata_sinks_ s).
  destruct (version_ s =? 2).
  - destruct (metadata_sinks_ s !! ".zgroup"%string) as [[sink|]|]; try done.
    destruct (sink_write sink 0 _) as [sink' [|]]; done.
  - destruct (metadata_sinks_ s !! "zarr.json"%string) as [[sink|]|]; try done.
    destruct (sink_write sink 0 _) as [sink' [|]]; done.
Qed.

Lemma finalize_stream_ignores_error (e : string) (s : ZarrStream_s W K) :
  (finalize_stream (Some (with_error_ e s))).2 = (finalize_stream (Some s)).2.
Proof.
  destruct (write_group_metadata_ignores_error e s) as (Hr & Hsinks & Hwriters).
  unfold finalize_stream, bind.
  destruct (write_group_metadata_ (with_error_ e s)) as [s1 r1].
  destruct (write_group_metadata_ s) as [s2 r2].
  simpl in Hr, Hsinks, Hwriters. subst r2.
  destruct r1 as [[|]| | |]; simpl; try done.
  rewrite Hsinks.
  destruct (finalize_sinks _ _) as [sinks [|]]; simpl; [|done].
  rewrite Hwriters.
  destruct (finalize_arrays (writers_ s2)); done.
Qed.

(** C3, amended.  [set_error_] assigns: after any sequence of reports the
    error state is the last one reported, and what [finalize_stream] returns
    is the same as on the stream without any report: a flag that tells
    whether the metadata, the sinks and the arrays could be written. *)
Theorem error_state_is_last_report
    (s : ZarrStream_s W K) (errs : list string) (last_err : string) :
  error_ (report_errors (errs ++ [last_err]) s) = last_err
  /\ (finalize_stream (Some (report_errors (errs ++ [last_err]) s))).2
     = (finalize_stream (Some s)).2.
Proof.
  rewrite report_errors_snoc. split; [reflexivity|].
  apply finalize_stream_ignores_error.
Qed.

End ErrorFacts.

(** C3, as stated, fails: after the reports "first" and "second" the error
    state is "second", and [finalize_stream] returns true. *)
Lemma second_error_replaces_first :
  let s := report_errors ["first"; "second"]%string
             (test_stream 2 ZarrDataType_uint8 dims_S1 false (48 * 48) 1) in
  error_ s = "second"%string
  /\ error_ s <> "first"%string
  /\ (finalize_stream (Some s)).2 = Returns true.
Proof.
  cbv zeta. split; [reflexivity|]. split; [discriminate|].
  vm_compute. reflexivity.
Qed.

(** ** Custom metadata *)

Section CustomMetadataFacts.
Context {W K : Type} `{ArrayWriterOps W} `{SinkOps K} `{JsonLib} `{StringLib}.


Lemma validate_custom_metadata_true (metadata : string) (j : json) :
  metadata <> ""%string -> json_parse metadata = Some j ->
  validate_custom_metadata metadata = true.
Proof.
  unfold validate_custom_metadata. intros Hne Hp. rewrite Hp.
  destruct (String.eqb metadata "") eqn:E; [|done].
  apply String.eqb_eq in E. contradiction.
Qed.


End CustomMetadataFacts.




(** ** OME metadata *)

Lemma members_get_set_eq key v members :
  members_get key (members_set key v members) = Some v.
Proof.
  induction members as [|[k x] members IH]; simpl.
  - now rewrite String.eqb_refl.
  - destruct (String.eqb k key) eqn:E; simpl; rewrite E; [done|exact IH].
Qed.

Lemma members_get_set_ne key key' v members :
  key <> key' ->
  members_get key (members_set key' v members) = members_get key members.
Proof.
  intros Hne. apply String.eqb_neq in Hne.
  induction members as [|[k x] members IH]; simpl.
  - rewrite String.eqb_sym. now rewrite Hne.
  - destruct (String.eqb k key') eqn:E; simpl.
    + apply String.eqb_eq in E. subst k.
      rewrite String.eqb_sym. now rewrite Hne.
    + now rewrite IH.
Qed.

Lemma json_get_set_ne key key' v j x :
  key <> key' -> json_get key j = Some x -> json_get key (json_set key' v j) = Some x.
Proof.
  intros Hne. destruct j; simpl; try discriminate.
  now rewrite members_get_set_ne.
Qed.

Lemma json_get_push_at key v j elements :
  json_get key j = Some (JArray elements) ->
  json_get key (json_push_at key v j) = Some (JArray (elements ++ [v])).
Proof.
  intros Hget. unfold json_push_at. rewrite Hget.
  destruct j; simpl in *; try discriminate.
  now rewrite members_get_set_eq.
Qed.

Section OmeFacts.
Context {W K : Type} `{ArrayWriterOps W} `{SinkOps K} `{JsonLib} `{StringLib}.

(** The datasets after the loop over the levels [start .. start+count-1]. *)
Lemma datasets_after_levels (n : nat) (levels : list nat) (m : json)
      (ds : list json) :
  json_get "datasets" m = Some (JArray ds) ->
  json_get "datasets"
    (fold_left (fun m i =>
                  let scales :=
                    [pow2 i] ++ repeat one (Z.to_nat (size_t_sub n 3))
                    ++ [pow2 i] ++ [pow2 i] in
                  let m := json_push_at "datasets" (dataset (to_string i) scales) m in
                  let m := json_set "type" (JString "local_mean") m in
                  json_set "metadata" downsampling_metadata m)
               levels m)
  = Some (JArray
            (ds ++ map (fun i => dataset (to_string i)
                                   ([pow2 i] ++ repeat one (Z.to_nat (size_t_sub n 3))
                                    ++ [pow2 i] ++ [pow2 i]))
                       levels)).
Proof.
  revert m ds. induction levels as [|i levels IH]; intros m ds Hget;
    cbn [fold_left map].
  - now rewrite app_nil_r.
  - rewrite (IH _ (ds ++ [dataset (to_string i)
                                 ([pow2 i] ++ repeat one (Z.to_nat (size_t_sub n 3))
                                  ++ [pow2 i] ++ [pow2 i])])).
    + rewrite <- app_assoc. reflexivity.
    + apply json_get_set_ne; [discriminate|].
      apply json_get_set_ne; [discriminate|].
      now apply json_get_push_at.
Qed.

Lemma size_t_sub_exact (a b : nat) :
  b <= a -> (Z.of_nat a < 2 ^ 64)%Z -> Z.to_nat (size_t_sub a b) = a - b.
Proof.
  intros Hle Hlt. unfold size_t_sub.
  rewrite Z.mod_small by lia. lia.
Qed.

Lemma length_level_scales (n level : nat) :
  3 <= n -> length (level_scales n level) = n.
Proof.
  intros Hn. destruct level; simpl.
  - apply repeat_length.
  - rewrite length_app, repeat_length. simpl. lia.
Qed.

(** C7. For a stream with writers for the levels 0..L over [ndims >= 3]
    dimensions, the ["datasets"] of the OME multiscales hold exactly L+1
    entries.  Entry [i] is the object with the path [i] and one coordinate
    transformation, of type ["scale"], whose ["scale"] is a vector of
    [ndims] numbers: all 1.0 at level 0, and at a level [i >= 1] the vector
    [2^i; 1; ...; 1; 2^i; 2^i]. *)
Theorem ome_datasets_per_level (s : ZarrStream_s W K) :
  3 <= ndims (dimensions_ s) ->
  (Z.of_nat (ndims (dimensions_ s)) < 2 ^ 64)%Z ->
  1 <= length (writers_ s) ->
  exists ds,
    ome_datasets (version_ s) (make_ome_metadata_ s) = Some ds
    /\ length ds = length (writers_ s)
    /\ ds = map (fun i =>
                   JObject
                     [("path"%string, JString (to_string i));
                      ("coordinateTransformations"%string,
                       JArray
                         [JObject
                            [("type"%string, JString "scale");
                             ("scale"%string,
                              JArray (map JFloat
                                        (level_scales (ndims (dimensions_ s)) i)))]])])
                (seq 0 (length (writers_ s)))
    /\ forall i, length (level_scales (ndims (dimensions_ s)) i)
                 = ndims (dimensions_ s)
                 /\ level_scales (ndims (dimensions_ s)) 0
                    = repeat one (ndims (dimensions_ s))
                 /\ level_scales (ndims (dimensions_ s)) (S i)
                    = [pow2 (S i)] ++ repeat one (ndims (dimensions_ s) - 3)
                      ++ [pow2 (S i); pow2 (S i)].
Proof.
  intros Hn Hsize Hw.
  eexists. split; [|split; [|split; [reflexivity|]]].
  - unfold ome_datasets, ome_multiscales, make_ome_metadata_.
    set (n := ndims (dimensions_ s)) in *.
    set (m0 := json_set "datasets" (JArray [dataset "0" (repeat one n)])
                 (json_set "axes" (ome_axes (dimensions_ s)) JNull)).
    assert (Hm0 : json_get "datasets" m0 = Some (JArray [dataset "0" (repeat one n)]))
      by reflexivity.
    pose proof (datasets_after_levels n (seq 1 (length (writers_ s) - 1)) m0 _ Hm0)
      as Hfold.
    set (m := fold_left _ _ m0) in *.
    assert (Hds : [dataset "0" (repeat one n)]
                  ++ map (fun i => dataset (to_string i)
                                     ([pow2 i] ++ repeat one (Z.to_nat (size_t_sub n 3))
                                      ++ [pow2 i] ++ [pow2 i]))
                         (seq 1 (length (writers_ s) - 1))
                  = map (fun i => dataset (to_string i) (level_scales n i))
                        (seq 0 (length (writers_ s)))).
    { destruct (length (writers_ s)) as [|k]; [lia|].
      simpl. rewrite Nat.sub_0_r. f_equal.
      apply map_ext_in. intros i Hi. apply in_seq in Hi.
      destruct i as [|i]; [lia|].
      unfold level_scales. now rewrite size_t_sub_exact by lia. }
    rewrite Hds in Hfold. clear Hds.
    destruct (version_ s =? ZarrVersion_2).
    + assert (Hfinal :
                json_get "datasets"
                  (json_set "name" (JString "/")
                     (json_set "version" (JString "0.4") m))
                = Some (JArray
                          (map (fun i => dataset (to_string i) (level_scales n i))
                               (seq 0 (length (writers_ s)))))).
      { apply json_get_set_ne; [discriminate|].
        apply json_get_set_ne; [discriminate|]. exact Hfold. }
      cbv beta iota. now rewrite Hfinal.
    + change (json_get "multiscales"
                (JObject [("version"%string, JString "0.5");
                          ("name"%string, JString "/");
                          ("multiscales"%string, JArray [m])]))
        with (Some (JArray [m])).
      cbv beta iota. now rewrite Hfold.
  - now rewrite length_map, length_seq.
  - intros i. split; [now apply length_level_scales|]. split; reflexivity.
Qed.

End OmeFacts.

Lemma ome_datasets_per_level_witness :
  let s := test_stream 3 ZarrDataType_uint8
             [ dim "t" ZarrDimensionType_Time 0 5 1;
               dim "c" ZarrDimensionType_Channel 3 1 1;
               dim "y" ZarrDimensionType_Space 128 32 1;
               dim "x" ZarrDimensionType_Space 128 32 1 ]
             true (128 * 128) 3 in
  let entry (path : string) (scale : list double) :=
    JObject
      [("path"%string, JString path);
       ("coordinateTransformations"%string,
        JArray [JObject [("type"%string, JString "scale");
                         ("scale"%string, JArray (map JFloat scale))]])] in
  exists ds,
    ome_datasets 3 (make_ome_metadata_ s) = Some ds
    /\ length ds = 3
    /\ ds = [ entry "0" [one; one; one; one];
              entry "1" [pow2 1; one; pow2 1; pow2 1];
              entry "2" [pow2 2; one; pow2 2; pow2 2] ]
    /\ forall i, length (level_scales 4 i) = 4
                 /\ level_scales 4 0 = repeat one 4
                 /\ level_scales 4 (S i)
                    = [pow2 (S i)] ++ repeat one (4 - 3)
                      ++ [pow2 (S i); pow2 (S i)].
Proof.
  intros s entry.
  apply (ome_datasets_per_level s).
  - simpl. lia.
  - simpl. lia.
  - simpl. lia.
Defined.

(** ** The downsampler *)

Lemma foldM_app {A St} (body : A -> St -> outcome St) (l1 l2 : list A) (s : St) :
  foldM body (l1 ++ l2) s = let* s' := foldM body l1 s in foldM body l2 s'.
Proof.
  revert s. induction l1 as [|a l1 IH]; intros s; simpl; [done|].
  destruct (body a s); simpl; auto.
Qed.

Lemma foldM_map {A B St} (body : B -> St -> outcome St) (g : A -> B) (l : list A) (s : St) :
  foldM body (map g l) s = foldM (fun a => body (g a)) l s.
Proof.
  revert s. induction l as [|a l IH]; intros s; simpl; [done|].
  destruct (body (g a) s); simpl; auto.
Qed.

Lemma foldM_ext {A St} (f g : A -> St -> outcome St) (l : list A) (s : St) :
  (forall a s, In a l -> f a s = g a s) -> foldM f l s = foldM g l s.
Proof.
  revert s. induction l as [|a l IH]; intros s Hfg; simpl; [done|].
  rewrite Hfg by now left. destruct (g a s); simpl; auto.
  apply IH. intros. apply Hfg. now right.
Qed.

Lemma foldM_nested {A B St} (g : A -> B -> St -> outcome St)
      (inner : A -> list B) (outer : list A) (s : St) :
  foldM (fun a s => foldM (g a) (inner a) s) outer s
  = foldM (fun ab s => g ab.1 ab.2 s)
          (flat_map (fun a => map (pair a) (inner a)) outer) s.
Proof.
  revert s. induction outer as [|a outer IH]; intros s; simpl; [done|].
  rewrite foldM_app, foldM_map. simpl.
  destruct (foldM (g a) (inner a) s); simpl; auto.
Qed.

Section Poke.
Variable T : PixelType.
Hypothesis store_length : forall v, length (store T v) = sizeof T.

Lemma foldM_poke {A} (f : A -> option (px T)) (xs : list A) (dst : list byte) (idx : nat) :
  (idx + length xs) * sizeof T <= length dst ->
  foldM (fun x '(dst, dst_idx) =>
           let* v := defined (f x) in
           let* dst := poke T dst dst_idx v in
           Returns (dst, S dst_idx)) xs (dst, idx)
  = match traverse f xs with
    | Some vs =>
        Returns (take (idx * sizeof T) dst ++ flat_map (store T) vs
                 ++ drop ((idx + length xs) * sizeof T) dst,
                 idx + length xs)
    | None => Undefined
    end.
Proof.
  revert dst idx. induction xs as [|x xs IH]; intros dst idx Hfit; simpl.
  - rewrite Nat.add_0_r. now rewrite take_drop.
  - destruct (f x) as [v|]; simpl; [|done].
    unfold poke. rewrite store_length.
    simpl in Hfit.
    replace (idx * sizeof T + sizeof T <=? length dst) with true
      by (symmetry; apply Nat.leb_le; nia).
    simpl.
    set (head := take (idx * sizeof T) dst).
    set (tail := drop (idx * sizeof T + sizeof T) dst).
    assert (Hhead : length head = idx * sizeof T)
      by (unfold head; rewrite length_take; nia).
    assert (Htail : length tail = length dst - (idx * sizeof T + sizeof T))
      by (unfold tail; now rewrite length_drop).
    rewrite IH.
    2: { rewrite !length_app, Hhead, Htail, store_length. nia. }
    destruct (traverse f xs) as [vs|]; [|done].
    f_equal. f_equal; [|lia].
    replace (S idx * sizeof T) with (idx * sizeof T + sizeof T) by lia.
    assert (E1 : take (idx * sizeof T + sizeof T) (head ++ store T v ++ tail)
                 = head ++ store T v).
    { rewrite app_assoc. apply take_app_length'.
      now rewrite length_app, Hhead, store_length. }
    assert (E2 : drop ((S idx + length xs) * sizeof T) (head ++ store T v ++ tail)
                 = drop ((idx + S (length xs)) * sizeof T) dst).
    { rewrite app_assoc, drop_app_ge
        by (rewrite length_app, Hhead, store_length; nia).
      rewrite length_app, Hhead, store_length.
      unfold tail. rewrite drop_drop. f_equal. nia. }
    rewrite E1, E2. simpl. now rewrite <- !app_assoc.
Qed.
End Poke.

Lemma by_twos_spec (stop : nat) : by_twos stop = map (fun k => 2 * k) (seq 0 (half_up stop)).
Proof. reflexivity. Qed.

Lemma half_up_double (n : nat) : n <= 2 * half_up n <= n + 1.
Proof.
  unfold half_up.
  destruct (Nat.Even_Odd_dec n) as [E|O].
  - destruct E as [k ->]. rewrite Nat.div2_succ_double. lia.
  - destruct O as [k ->]. replace (S (2 * k + 1)) with (2 * (S k)) by lia.
    rewrite Nat.div2_double. lia.
Qed.

Lemma half_up_pad (n : nat) : (n + n mod 2) / 2 = half_up n.
Proof.
  unfold half_up.
  destruct (Nat.Even_Odd_dec n) as [[k ->]|[k ->]].
  - rewrite Nat.div2_succ_double.
    replace (2 * k) with (k * 2) by lia.
    rewrite Nat.Div0.mod_mul, Nat.add_0_r. now rewrite Nat.div_mul.
  - replace (S (2 * k + 1)) with (2 * (S k)) by lia. rewrite Nat.div2_double.
    replace ((2 * k + 1) mod 2) with 1.
    + replace (2 * k + 1 + 1) with (S k * 2) by lia. now rewrite Nat.div_mul.
    + replace (2 * k + 1) with (1 + k * 2) by lia.
      now rewrite Nat.Div0.mod_add.
Qed.

Lemma pad_double (n : nat) : n + n mod 2 = 2 * half_up n.
Proof.
  unfold half_up.
  destruct (Nat.Even_Odd_dec n) as [[k ->]|[k ->]].
  - rewrite Nat.div2_succ_double.
    replace (2 * k) with (k * 2) at 2 by lia.
    rewrite Nat.Div0.mod_mul. lia.
  - replace (S (2 * k + 1)) with (2 * (S k)) by lia. rewrite Nat.div2_double.
    replace ((2 * k + 1) mod 2) with 1; [lia|].
    replace (2 * k + 1) with (1 + k * 2) by lia.
    now rewrite Nat.Div0.mod_add.
Qed.

Lemma length_grid (rows cols : nat) : length (grid rows cols) = rows * cols.
Proof.
  unfold grid.
  transitivity (length (seq 0 rows) * cols); [|now rewrite length_seq].
  induction (seq 0 rows) as [|r rs IH]; simpl; [done|].
  now rewrite length_app, length_map, length_seq, IH.
Qed.

Lemma in_grid (rows cols r c : nat) :
  In (r, c) (grid rows cols) -> r < rows /\ c < cols.
Proof.
  unfold grid. rewrite in_flat_map. intros (r' & Hr & Hin).
  apply in_map_iff in Hin as (c' & [= <- <-] & Hc).
  apply in_seq in Hr, Hc. lia.
Qed.

Lemma by_twos_grid (width height : nat) :
  flat_map (fun row => map (pair row) (by_twos width)) (by_twos height)
  = map (fun rc : nat * nat => (2 * rc.1, 2 * rc.2))
        (grid (half_up height) (half_up width)).
Proof.
  unfold by_twos, grid. fold (half_up height). fold (half_up width).
  induction (seq 0 (half_up height)) as [|r rs IH]; cbn [flat_map map app];
    [done|].
  rewrite map_app, IH. f_equal. now rewrite !map_map.
Qed.

Section ScaleImage.
Variable T : PixelType.
Hypothesis store_length : forall v, length (store T v) = sizeof T.

Lemma scaled_value_downsampled (src : list byte) (width height r c : nat) :
  r < half_up height -> c < half_up width ->
  scaled_value T src width height (2 * r) (2 * c)
  = downsampled_pixel T src width height (r, c).
Proof.
  intros Hr Hc.
  unfold scaled_value, downsampled_pixel, padded_pixel.
  rewrite !pad_double.
  pose proof (half_up_double width) as Hw.
  pose proof (half_up_double height) as Hh.
  assert (Epw : (2 * c =? width - 1) && negb (width =? 2 * half_up width)
                = (2 * c =? width - 1)).
  { destruct (2 * c =? width - 1) eqn:E; [|done]. simpl.
    apply Nat.eqb_eq in E. apply negb_true_iff, Nat.eqb_neq. lia. }
  assert (Eph : (2 * r =? height - 1) && negb (height =? 2 * half_up height)
                = (2 * r =? height - 1)).
  { destruct (2 * r =? height - 1) eqn:E; [|done]. simpl.
    apply Nat.eqb_eq in E. apply negb_true_iff, Nat.eqb_neq. lia. }
  rewrite Epw, Eph. clear Epw Eph.
  replace (Nat.min (2 * r) (height - 1)) with (2 * r) by lia.
  replace (Nat.min (2 * c) (width - 1)) with (2 * c) by lia.
  assert (Ecol : 2 * c + (1 - bool_to_nat (2 * c =? width - 1))
                 = Nat.min (2 * c + 1) (width - 1)).
  { destruct (2 * c =? width - 1) eqn:E; simpl bool_to_nat;
      [apply Nat.eqb_eq in E | apply Nat.eqb_neq in E]; lia. }
  assert (Erow : 2 * r * width + width * (1 - bool_to_nat (2 * r =? height - 1))
                 = Nat.min (2 * r + 1) (height - 1) * width).
  { destruct (2 * r =? height - 1) eqn:E; simpl bool_to_nat;
      [apply Nat.eqb_eq in E | apply Nat.eqb_neq in E].
    - replace (Nat.min (2 * r + 1) (height - 1)) with (2 * r) by lia. lia.
    - replace (Nat.min (2 * r + 1) (height - 1)) with (2 * r + 1) by lia. lia. }
  replace (2 * r * width + 2 * c + (1 - bool_to_nat (2 * c =? width - 1)))
    with (2 * r * width + Nat.min (2 * c + 1) (width - 1)) by lia.
  replace (2 * r * width + 2 * c
           + width * (1 - bool_to_nat (2 * r =? height - 1)))
    with (Nat.min (2 * r + 1) (height - 1) * width + 2 * c) by lia.
  replace (Nat.min (2 * r + 1) (height - 1) * width + 2 * c
           + (1 - bool_to_nat (2 * c =? width - 1)))
    with (Nat.min (2 * r + 1) (height - 1) * width
          + Nat.min (2 * c + 1) (width - 1)) by lia.
  reflexivity.
Qed.

Lemma scale_image_refines (src : list byte) (width height : nat) :
  width * height * sizeof T <= length src ->
  (Z.of_nat (half_up width * half_up height * sizeof T) < 2 ^ 32)%Z ->
  scale_image T src width height
  = match downsampled_image T src width height with
    | Some dst => Returns (dst, half_up width, half_up height)
    | None => Undefined
    end.
Proof.
  intros Hsrc Hsize. unfold scale_image.
  replace (width * height * sizeof T <=? length src) with true
    by (symmetry; now apply Nat.leb_le).
  cbn [EXPECT obind].
  rewrite !half_up_pad, !pad_double.
  replace (2 * half_up width * (2 * half_up height) * sizeof T / 4)
    with (half_up width * half_up height * sizeof T).
  2: { replace (2 * half_up width * (2 * half_up height) * sizeof T)
         with ((half_up width * half_up height * sizeof T) * 4) by lia.
       now rewrite Nat.div_mul. }
  replace (Z.of_nat (half_up width * half_up height * sizeof T) <? 2 ^ 32)%Z
    with true by (symmetry; now apply Z.ltb_lt).
  cbn [defined obind].
  set (dst0 := repeat x00 (half_up width * half_up height * sizeof T)).
  (* the two loops as one loop over the output pixels *)
  rewrite (foldM_ext _
             (fun row s =>
                foldM (fun col '(dst, dst_idx) =>
                         let* v := defined (scaled_value T src width height row col) in
                         let* dst := poke T dst dst_idx v in
                         Returns (dst, S dst_idx)) (by_twos width) s)).
  2: { now intros row [dst idx] _. }
  rewrite (foldM_nested
             (fun row col '(dst, dst_idx) =>
                let* v := defined (scaled_value T src width height row col) in
                let* dst := poke T dst dst_idx v in
                Returns (dst, S dst_idx))
             (fun _ => by_twos width) (by_twos height) (dst0, 0)).
  rewrite by_twos_grid, foldM_map.
  rewrite (foldM_ext _
             (fun rc '(dst, dst_idx) =>
                let* v := defined (downsampled_pixel T src width height rc) in
                let* dst := poke T dst dst_idx v in
                Returns (dst, S dst_idx))).
  2: { intros [r c] [dst idx] Hin. apply in_grid in Hin as [Hr Hc].
       cbn [fst snd]. now rewrite scaled_value_downsampled. }
  rewrite (foldM_poke T store_length).
  2: { rewrite length_grid. unfold dst0. rewrite repeat_length. lia. }
  unfold downsampled_image.
  destruct (traverse _ _) as [vs|]; cbn [fmap option_fmap option_map obind]; [|done].
  rewrite length_grid. simpl.
  rewrite drop_ge by (unfold dst0; rewrite repeat_length; lia).
  now rewrite app_nil_r.
Qed.
End ScaleImage.

Lemma length_le_bytes (n : nat) (z : Z) : length (le_bytes n z) = n.
Proof. revert z. induction n as [|n IH]; intros z; simpl; [done|]. now rewrite IH. Qed.

Lemma pixel_store_length (t : ZarrDataType) (v : px (pixel_of t)) :
  length (store (pixel_of t) v) = sizeof (pixel_of t).
Proof. destruct t; apply length_le_bytes. Qed.

Lemma trunc_double_integer_part (d : double) (z : Z) :
  trunc_double d = Some z -> integer_part_of d z.
Proof.
  destruct d as [s|s| |s m e]; simpl; try discriminate.
  - now intros [= <-].
  - intros [= <-].
    assert (Hsign : forall q, (0 <= q)%Z ->
              (if s then ((if s then Z.opp q else q) <= 0)%Z
               else (0 <= (if s then Z.opp q else q))%Z)
              /\ Z.abs (if s then Z.opp q else q) = q).
    { intros q Hq. destruct s; split; lia. }
    destruct e as [|k|k].
    + destruct (Hsign (Zpos m)) as [H1 H2]; [lia|].
      change (Z.shiftl (Zpos m) 0) with (Zpos m).
      split; [exact H1|]. change (0 <=? 0)%Z with true. cbv iota.
      rewrite H2. lia.
    + rewrite Z.shiftl_mul_pow2 by lia.
      destruct (Hsign (Zpos m * 2 ^ Zpos k)%Z) as [H1 H2]; [lia|].
      split; [exact H1|]. change (0 <=? Zpos k)%Z with true. cbv iota.
      exact H2.
    + rewrite Z.shiftr_div_pow2 by lia.
      assert (Hpow : (0 < 2 ^ Zpos k)%Z) by lia.
      pose proof (Z.div_mod (Zpos m) (2 ^ Zpos k) ltac:(lia)) as Hdm.
      pose proof (Z.mod_pos_bound (Zpos m) (2 ^ Zpos k) Hpow) as Hmod.
      assert (Hq : (0 <= Zpos m / 2 ^ Zpos k)%Z) by (apply Z.div_pos; lia).
      destruct (Hsign (Zpos m / 2 ^ Zpos k)%Z Hq) as [H1 H2].
      split; [exact H1|]. change (0 <=? Zneg k)%Z with false. cbv iota.
      rewrite H2. change (- Zneg k)%Z with (Zpos k). nia.
Qed.

Lemma int_of_double_integer_part (lo hi : Z) (d : double) (z : Z) :
  int_of_double lo hi d = Some z -> integer_part_of d z.
Proof.
  unfold int_of_double.
  destruct (trunc_double d) as [z'|] eqn:E; [|discriminate].
  destruct (_ && _); [|discriminate].
  intros [= <-]. now apply trunc_double_integer_part.
Qed.

Lemma cast_rule_holds (t : ZarrDataType) : cast_rule t.
Proof.
  destruct t; simpl; try (intros d v; apply int_of_double_integer_part);
    intros d; reflexivity.
Qed.

(** C5, amended.  For every element type and every [height] x [width]
    image, [scale_image] returns an image of [ceil(height/2)] rows and
    [ceil(width/2)] columns whose pixel [(r, c)], in row-major order, is
    [0.25 * (P(2r,2c) + P(2r,2c+1) + P(2r+1,2c) + P(2r+1,2c+1))] with the
    last row and column replicated, summed in doubles and converted to [T]
    by [static_cast<T>]: the integer part for the integer types (undefined
    when it does not fit), the nearest float for float32, the double itself
    for float64. *)
Theorem scale_image_downsamples
    (t : ZarrDataType) (src : list byte) (width height : nat) :
  width * height * sizeof (pixel_of t) <= length src ->
  (Z.of_nat (half_up width * half_up height * sizeof (pixel_of t)) < 2 ^ 32)%Z ->
  scale_image (pixel_of t) src width height
  = match downsampled_image (pixel_of t) src width height with
    | Some dst => Returns (dst, half_up width, half_up height)
    | None => Undefined
    end
  /\ cast_rule t.
Proof.
  intros Hsrc Hsize. split.
  - apply scale_image_refines; [apply pixel_store_length|exact Hsrc|exact Hsize].
  - apply cast_rule_holds.
Qed.

Lemma scale_image_downsamples_witness :
  scale_image (pixel_of ZarrDataType_uint8)
    (flat_map (le_bytes 1) [1; 2; 3; 4; 5; 6; 7; 8; 9]%Z) 3 3
  = Returns (flat_map (le_bytes 1) [3; 4; 7; 9]%Z, 2, 2)
  /\ cast_rule ZarrDataType_uint8.
Proof.
  apply (scale_image_downsamples ZarrDataType_uint8
           (flat_map (le_bytes 1) [1; 2; 3; 4; 5; 6; 7; 8; 9]%Z) 3 3).
  - simpl. lia.
  - vm_compute. reflexivity.
Defined.

(** C5, as stated, fails for float32: the mean of the image
    [1, 1+2^-23; 1+2^-23, 1+2^-23] is [1 + 3 * 2^-25]; [scale_image] stores
    [1 + 2^-23], which is farther from zero than the mean. *)
Lemma float_mean_is_rounded_up :
  let T := pixel_of ZarrDataType_float32 in
  let P := padded_pixel T float_image_2x2 2 2 in
  let mean := dmul quarter (dadd (dadd (dadd (P 0 0) (P 0 1)) (P 1 0)) (P 1 1)) in
  scale_image T float_image_2x2 2 2 = Returns (le_bytes 4 0x3F800001, 1, 1)
  /\ toward_zero mean (to_double T (load T (le_bytes 4 0x3F800001))) = false.
Proof.
  cbv zeta. split; vm_compute; reflexivity.
Qed.

(** ** The multiscale cascade *)

Section Average.
Variable T : PixelType.
Hypothesis store_length : forall v, length (store T v) = sizeof T.

Lemma traverse_ext {A B} (f g : A -> option B) (l : list A) :
  (forall a, In a l -> f a = g a) -> traverse f l = traverse g l.
Proof.
  induction l as [|a l IH]; intros Hfg; simpl; [done|].
  rewrite Hfg by now left. rewrite IH; [done|].
  intros. apply Hfg. now right.
Qed.

(** The averaging loop from pixel [k] on, the pixels before it done. *)
Lemma average_loop (src dst0 : list byte) (n k : nat) (done : list byte) :
  length done = k * sizeof T ->
  (k + n) * sizeof T <= length dst0 ->
  foldM (fun i dst =>
           let* v := defined (averaged_value T (peek T dst i) (peek T src i)) in
           poke T dst i v)
        (seq k n) (done ++ drop (k * sizeof T) dst0)
  = match traverse (fun i => averaged_value T (peek T dst0 i) (peek T src i))
                   (seq k n) with
    | Some vs =>
        Returns (done ++ flat_map (store T) vs
                 ++ drop ((k + n) * sizeof T) dst0)
    | None => Undefined
    end.
Proof.
  revert k done. induction n as [|n IH]; intros k done Hdone Hfit; simpl.
  - now rewrite Nat.add_0_r.
  - assert (Hpeek : peek T (done ++ drop (k * sizeof T) dst0) k = peek T dst0 k).
    { unfold peek. rewrite <- Hdone. now rewrite drop_app_length. }
    rewrite Hpeek.
    destruct (averaged_value T (peek T dst0 k) (peek T src k)) as [v|];
      simpl; [|done].
    assert (Hpoke : poke T (done ++ drop (k * sizeof T) dst0) k v
                    = Returns ((done ++ store T v) ++ drop (S k * sizeof T) dst0)).
    { unfold poke. rewrite store_length.
      rewrite length_app, length_drop, Hdone.
      replace (k * sizeof T + sizeof T <=? k * sizeof T + (length dst0 - k * sizeof T))
        with true by (symmetry; apply Nat.leb_le; nia).
      rewrite <- Hdone at 1. rewrite take_app_length.
      rewrite drop_app_ge by lia. rewrite Hdone, drop_drop.
      replace (k * sizeof T + (k * sizeof T + sizeof T - k * sizeof T))
        with (S k * sizeof T) by lia.
      now rewrite app_assoc. }
    rewrite Hpoke. cbn [obind].
    rewrite (IH (S k) (done ++ store T v)).
    + destruct (traverse _ (seq (S k) n)) as [vs|]; [|done].
      rewrite <- app_assoc. simpl. rewrite <- app_assoc.
      replace ((k + S n) * sizeof T) with ((S k + n) * sizeof T) by lia.
      reflexivity.
    + rewrite length_app, Hdone, store_length. lia.
    + lia.
Qed.

Lemma average_two_frames_pairwise (dst src : list byte) :
  length dst = length src ->
  average_two_frames T dst src
  = match averaged_pixels T dst src with
    | Some vs =>
        Returns (flat_map (store T) vs
                 ++ drop (length src / sizeof T * sizeof T) dst)
    | None => Undefined
    end.
Proof.
  intros Hlen. unfold average_two_frames, averaged_pixels.
  rewrite Hlen, Nat.eqb_refl. cbn [EXPECT obind].
  pose proof (average_loop src dst (length src / sizeof T) 0 [] eq_refl) as Hloop.
  cbn [app Nat.mul Nat.add] in Hloop. rewrite drop_0 in Hloop.
  rewrite Hloop; [done|].
  rewrite Hlen. rewrite Nat.mul_comm. apply Nat.Div0.mul_div_le.
Qed.

End Average.

Section CascadeFacts.
Context {W K : Type} `{ArrayWriterOps W} `{SinkOps K} `{JsonLib} `{StringLib}.

(** C4, amended.  When a frame arrives at level [i] whose slot holds a
    frame [held]: with [F_down] the downsampled frame, writer [i] receives
    the pairwise average of [F_down] and [held] (pixel [k] is
    [static_cast<T>(0.5 * (F_down[k] + held[k]))]), the slot is cleared, and
    the loop goes on to the next level with that average as its input when
    there is a next level: the average was computed in place in the buffer
    of [F_down], which the next input views. *)
Theorem cascade_forwards_average
    (t : ZarrDataType) (i : nat) (levels : list nat) (data : list byte)
    (frame_width frame_height : nat) (s : ZarrStream_s W K)
    (F_down held : list byte) (width' height' : nat)
    (vs : list (px (pixel_of t))) (writer writer' : W) (n : nat) :
  let T := pixel_of t in
  let averaged :=
    flat_map (store T) vs ++ drop (length held / sizeof T * sizeof T) F_down in
  scale_image T data frame_width frame_height = Returns (F_down, width', height') ->
  scaled_frame s i = Some held ->
  length F_down = length held ->
  averaged_pixels T F_down held = Some vs ->
  writers_ s !! i = Some writer ->
  write_frame writer averaged = (writer', n) ->
  n <> 0 ->
  multiscale_levels T (i :: levels) data frame_width frame_height s
  = multiscale_levels T levels
      (if i + 1 <? length (writers_ s) then averaged else data) width' height'
      (with_scaled_frames_ (<[i := None]> (scaled_frames_ s))
         (with_writers_ (<[i := writer']> (writers_ s)) s)).
Proof.
  intros T averaged Hscale Hheld Hlen Havg Hwriter Hwrite Hn.
  cbn [multiscale_levels]. unfold bind at 1. unfold lift at 1.
  rewrite Hscale. cbv beta iota. rewrite Hheld.
  unfold bind at 1. unfold lift at 1.
  rewrite (average_two_frames_pairwise T (pixel_store_length t)) by exact Hlen.
  rewrite Havg. fold averaged.
  unfold bind at 1. unfold writer_write_frame. rewrite Hwriter, Hwrite.
  unfold bind at 1. unfold lift at 1.
  apply Nat.eqb_neq in Hn. rewrite Hn. cbn [negb EXPECT].
  unfold bind at 1. unfold modify.
  cbn [writers_ with_scaled_frames_ with_writers_ scaled_frames_].
  now rewrite length_insert.
Qed.

End CascadeFacts.

Lemma cascade_forwards_average_witness :
  let T := pixel_of ZarrDataType_uint8 in
  let s := (write_multiscale_frames_ dark_frame pyramid_stream).1 in
  let averaged := flat_map (le_bytes 1) (repeat 50%Z 4) in
  multiscale_levels T [1; 2] bright_frame 4 4 s
  = multiscale_levels T [2] averaged 2 2
      (with_scaled_frames_ (<[1 := None]> (scaled_frames_ s))
         (with_writers_
            (<[1 := {| accepted := [averaged]; capacity := 999 |}]> (writers_ s)) s)).
Proof.
  intros T s averaged.
  apply (cascade_forwards_average ZarrDataType_uint8 1 [2] bright_frame 4 4 s
           (flat_map (le_bytes 1) (repeat 100%Z 4))
           (flat_map (le_bytes 1) (repeat 0%Z 4)) 2 2
           (repeat 50%Z 4) {| accepted := []; capacity := 1000 |}
           {| accepted := [averaged]; capacity := 999 |} 4).
  - vm_compute. reflexivity.
  - vm_compute. reflexivity.
  - reflexivity.
  - vm_compute. reflexivity.
  - vm_compute. reflexivity.
  - vm_compute. reflexivity.
  - discriminate.
Defined.

(** C4, as stated, fails.  The first frame leaves its downsampled image in
    slot 1.  For the second frame, [F_down] is all 100 and the held frame
    all 0; their average, all 50, goes to writer 1, and level 2 receives the
    downsampled average (50), not the downsampled [F_down] (100). *)
Lemma cascade_input_is_not_F_down :
  let T := pixel_of ZarrDataType_uint8 in
  let s := (write_multiscale_frames_ dark_frame pyramid_stream).1 in
  let s' := (write_multiscale_frames_ bright_frame s).1 in
  let F_down := flat_map (le_bytes 1) (repeat 100%Z 4) in
  let averaged := flat_map (le_bytes 1) (repeat 50%Z 4) in
  scaled_frame s 1 = Some (flat_map (le_bytes 1) (repeat 0%Z 4))
  /\ scale_image T bright_frame 4 4 = Returns (F_down, 2, 2)
  /\ accepted <$> (writers_ s' !! 1) = Some [averaged]
  /\ scale_image T F_down 2 2 = Returns (le_bytes 1 100, 1, 1)
  /\ scale_image T averaged 2 2 = Returns (le_bytes 1 50, 1, 1)
  /\ scaled_frame s' 2 = Some (le_bytes 1 50)
  /\ scaled_frame s' 2 <> Some (le_bytes 1 100).
Proof.
  cbv zeta. repeat split; try (vm_compute; reflexivity).
  vm_compute. discriminate.
Qed.

(** ** Appending *)

Section Framing.
Context {W K : Type} `{ArrayWriterOps W} `{SinkOps K} `{JsonLib} `{StringLib}.

Lemma commutes_ret {A} (f : ZarrStream_s W K -> ZarrStream_s W K) (a : A) : commutes f (ret a).
Proof. now intros s. Qed.

Lemma commutes_lift {A} (f : ZarrStream_s W K -> ZarrStream_s W K) (o : outcome A) : commutes f (lift o).
Proof. now intros s. Qed.

Lemma commutes_modify (f g : ZarrStream_s W K -> ZarrStream_s W K) :
  (forall s, g (f s) = f (g s)) -> commutes f (modify g).
Proof. intros Hfg s. unfold modify. simpl. now rewrite Hfg. Qed.

Lemma commutes_bind {A B} (f : ZarrStream_s W K -> ZarrStream_s W K)
      (m : M W K A) (k : A -> M W K B) :
  commutes f m -> (forall a, commutes f (k a)) -> commutes f (bind m k).
Proof.
  intros Hm Hk s. unfold bind. rewrite Hm.
  destruct (m s) as [s' [a| | |]]; simpl; try done. apply Hk.
Qed.

Lemma commutes_writer_write_frame (f : ZarrStream_s W K -> ZarrStream_s W K)
      i data :
  outside_cascade f -> commutes f (writer_write_frame i data).
Proof.
  intros (Hw & _ & Hcw & _) s. unfold writer_write_frame. rewrite Hw.
  destruct (writers_ s !! i) as [w|]; [|done].
  destruct (write_frame w data) as [w' n]. simpl. now rewrite Hcw.
Qed.

Lemma commutes_multiscale_levels (f : ZarrStream_s W K -> ZarrStream_s W K)
      T levels data frame_width frame_height :
  outside_cascade f ->
  commutes f (multiscale_levels T levels data frame_width frame_height).
Proof.
  intros Hf. pose proof Hf as (Hw & Hsf & Hcw & Hcsf).
  revert data frame_width frame_height.
  induction levels as [|i levels IH]; intros data fw fh; cbn [multiscale_levels].
  - apply commutes_ret.
  - apply commutes_bind; [apply commutes_lift|].
    intros [[dst fw'] fh'] s.
    unfold scaled_frame. rewrite Hsf.
    destruct (default None (scaled_frames_ s !! i)) as [held|].
    + revert s. apply commutes_bind; [apply commutes_lift|]. intros dst'.
      apply commutes_bind; [now apply commutes_writer_write_frame|]. intros n.
      apply commutes_bind; [apply commutes_lift|]. intros _.
      apply commutes_bind.
      { apply commutes_modify. intros s. now rewrite Hcsf, Hsf. }
      intros _ s. rewrite Hw. apply IH.
    + simpl. now rewrite Hcsf.
Qed.

Lemma commutes_write_multiscale_frames_ (f : ZarrStream_s W K -> ZarrStream_s W K)
      data :
  outside_cascade f ->
  (forall s, multiscale_ (f s) = multiscale_ s) ->
  (forall s, dtype_ (f s) = dtype_ s) ->
  (forall s, dimensions_ (f s) = dimensions_ s) ->
  commutes f (write_multiscale_frames_ data).
Proof.
  intros Hf Hm Hd Hdim s. unfold write_multiscale_frames_.
  rewrite Hm, Hd, Hdim.
  destruct (negb (multiscale_ s)); [done|].
  destruct (dtype_ s) as [t|]; [|done].
  destruct (width_dim (dimensions_ s)) as [wd|]; [|done].
  destruct (height_dim (dimensions_ s)) as [hd|]; [|done].
  destruct Hf as (Hw & Hrest). rewrite Hw.
  apply commutes_multiscale_levels. now split.
Qed.

Lemma outside_cascade_frame_buffer b o :
  outside_cascade (with_frame_buffer_ (W := W) (K := K) b o).
Proof. now repeat split. Qed.

Lemma outside_cascade_error e :
  outside_cascade (with_error_ (W := W) (K := K) e).
Proof. now repeat split. Qed.

(** [write_frame_] with another frame buffer of the same size. *)
Lemma commutes_write_frame_ b o data (s : ZarrStream_s W K) :
  length b = length (frame_buffer_ s) ->
  write_frame_ data (with_frame_buffer_ b o s)
  = (with_frame_buffer_ b o (write_frame_ data s).1, (write_frame_ data s).2).
Proof.
  intros Hlen. unfold write_frame_. cbn [frame_buffer_ with_frame_buffer_].
  rewrite Hlen.
  revert s Hlen. intros s _.
  generalize (length (frame_buffer_ s)) as F. intros F. revert s.
  change (commutes (with_frame_buffer_ (W := W) (K := K) b o)
            (let! n_bytes := writer_write_frame 0 data in
             let! _ := lift (EXPECT (n_bytes =? F) "") in
             if negb (n_bytes =? length data)
             then
               let! _ := modify (set_error_ "Incomplete write to full-resolution array.") in
               ret n_bytes
             else let! _ := write_multiscale_frames_ data in ret n_bytes)).
  apply commutes_bind.
  { apply commutes_writer_write_frame, outside_cascade_frame_buffer. }
  intros n. apply commutes_bind; [apply commutes_lift|]. intros _.
  destruct (negb (n =? length data)).
  - apply commutes_bind; [now apply commutes_modify|]. intros _. apply commutes_ret.
  - apply commutes_bind; [|intros _; apply commutes_ret].
    apply commutes_write_multiscale_frames_;
      [apply outside_cascade_frame_buffer | done | done | done].
Qed.

Lemma with_frame_buffer_id (s : ZarrStream_s W K) :
  with_frame_buffer_ (frame_buffer_ s) (frame_buffer_offset_ s) s = s.
Proof. now destruct s. Qed.

Lemma with_error_id (s : ZarrStream_s W K) : with_error_ (error_ s) s = s.
Proof. now destruct s. Qed.

(** [write_frame_] leaves the frame buffer alone, and returns the size of
    the frame buffer when it returns. *)
Lemma write_frame__frame_buffer data (s s' : ZarrStream_s W K) r :
  write_frame_ data s = (s', r) ->
  frame_buffer_ s' = frame_buffer_ s
  /\ frame_buffer_offset_ s' = frame_buffer_offset_ s.
Proof.
  intros Hw.
  pose proof (commutes_write_frame_ (frame_buffer_ s) (frame_buffer_offset_ s)
                data s eq_refl) as Hc.
  rewrite with_frame_buffer_id, Hw in Hc. simpl in Hc.
  injection Hc as Hs. rewrite Hs. now split.
Qed.

Lemma write_frame__returns data (s s' : ZarrStream_s W K) n :
  write_frame_ data s = (s', Returns n) -> n = length (frame_buffer_ s).
Proof.
  unfold write_frame_, bind, lift.
  destruct (writer_write_frame 0 data s) as [s1 [k| | |]]; try discriminate.
  destruct (k =? length (frame_buffer_ s)) eqn:E; simpl; [|discriminate].
  apply Nat.eqb_eq in E. subst k.
  destruct (negb _); simpl.
  - now intros [= _ <-].
  - destruct (write_multiscale_frames_ data s1) as [s2 [[]| | |]];
      simpl; try discriminate. now intros [= _ <-].
Qed.

(** A frame taken in full leaves the error state alone. *)
Lemma write_frame__error data (s s' : ZarrStream_s W K) :
  write_frame_ data s = (s', Returns (length data)) -> error_ s' = error_ s.
Proof.
  unfold write_frame_, bind, lift.
  pose proof (commutes_writer_write_frame (with_error_ (error_ s)) 0 data
                (outside_cascade_error _) s) as Hc1.
  rewrite with_error_id in Hc1.
  destruct (writer_write_frame 0 data s) as [s1 [k| | |]]; try discriminate.
  simpl in Hc1. injection Hc1 as Hs1.
  destruct (k =? length (frame_buffer_ s)) eqn:E; simpl; [|discriminate].
  destruct (k =? length data) eqn:E2; simpl.
  - pose proof (commutes_write_multiscale_frames_ (with_error_ (error_ s1)) data
                  (outside_cascade_error _) ltac:(done) ltac:(done) ltac:(done) s1)
      as Hc2.
    rewrite with_error_id in Hc2.
    destruct (write_multiscale_frames_ data s1) as [s2 [[]| | |]];
      simpl; try discriminate.
    simpl in Hc2. injection Hc2 as Hs2.
    intros [= <- _]. rewrite Hs2, Hs1. reflexivity.
  - intros [= _ ->]. now rewrite Nat.eqb_refl in E2.
Qed.

End Framing.

(** *** Frames of a byte sequence *)

Lemma whole_frames_short (frame : nat) (X : list byte) :
  length X < frame -> whole_frames frame X = [] /\ remainder frame X = X.
Proof.
  intros Hlt. unfold whole_frames, remainder.
  rewrite Nat.div_small by exact Hlt. now split.
Qed.

Lemma whole_frames_long (frame : nat) (X : list byte) :
  0 < frame -> frame <= length X ->
  whole_frames frame X = take frame X :: whole_frames frame (drop frame X)
  /\ remainder frame X = remainder frame (drop frame X).
Proof.
  intros Hpos Hle. unfold whole_frames, remainder.
  rewrite length_drop.
  assert (Hdiv : length X / frame = S ((length X - frame) / frame)).
  { replace (length X) with ((length X - frame) + 1 * frame) at 1 by lia.
    rewrite Nat.div_add by lia. lia. }
  rewrite Hdiv. split.
  - cbn [seq map]. rewrite Nat.mul_0_l, drop_0. f_equal.
    rewrite <- seq_shift, map_map. apply map_ext. intros k.
    rewrite drop_drop. do 2 f_equal; lia.
  - rewrite drop_drop. f_equal; lia.
Qed.

Lemma length_remainder (frame : nat) (X : list byte) :
  0 < frame -> length (remainder frame X) < frame.
Proof.
  intros Hpos. unfold remainder. rewrite length_drop.
  pose proof (Nat.div_mod_eq (length X) frame) as Hd.
  pose proof (Nat.mod_upper_bound (length X) frame ltac:(lia)) as Hm.
  lia.
Qed.

(** Splitting a sequence splits its frames: the frames of the first part,
    then the frames of what the first part left over followed by the second
    part. *)
Lemma whole_frames_app (frame : nat) (A B : list byte) :
  0 < frame ->
  whole_frames frame (A ++ B)
  = whole_frames frame A ++ whole_frames frame (remainder frame A ++ B)
  /\ remainder frame (A ++ B) = remainder frame (remainder frame A ++ B).
Proof.
  intros Hpos.
  remember (length A) as n eqn:Hn. revert A Hn.
  induction n as [n IH] using lt_wf_ind. intros A Hn.
  destruct (Nat.lt_ge_cases (length A) frame) as [Hshort | Hlong].
  - destruct (whole_frames_short frame A Hshort) as [-> ->]. now split.
  - destruct (whole_frames_long frame A Hpos Hlong) as [-> ->].
    destruct (whole_frames_long frame (A ++ B) Hpos) as [-> ->].
    { rewrite length_app. lia. }
    rewrite take_app_le, drop_app_le by lia.
    destruct (IH (length (drop frame A))
                 ltac:(rewrite length_drop; lia) (drop frame A) eq_refl)
      as [-> ->].
    now split.
Qed.

Section Delivering.
Context {W K : Type} `{ArrayWriterOps W} `{SinkOps K} `{JsonLib} `{StringLib}.

Lemma deliver_app (l1 l2 : list (list byte)) (s : ZarrStream_s W K) :
  deliver (l1 ++ l2) s
  = match deliver l1 s with Some s' => deliver l2 s' | None => None end.
Proof.
  revert s. induction l1 as [|f l1 IH]; intros s; simpl; [done|].
  destruct (write_frame_ f s) as [s' [n| | |]]; try done.
  destruct (n =? length f); [apply IH|done].
Qed.

(** Delivering with another frame buffer of the same size. *)
Lemma deliver_frame_buffer b o frames (s s_end : ZarrStream_s W K) :
  length b = length (frame_buffer_ s) ->
  deliver frames s = Some s_end ->
  deliver frames (with_frame_buffer_ b o s) = Some (with_frame_buffer_ b o s_end).
Proof.
  revert s. induction frames as [|f frames IH]; intros s Hlen; simpl.
  - now intros [= <-].
  - rewrite commutes_write_frame_ by exact Hlen.
    destruct (write_frame_ f s) as [s' r] eqn:Hw. simpl.
    destruct r as [n| | |]; try discriminate.
    destruct (n =? length f); [|discriminate].
    apply IH. apply write_frame__frame_buffer in Hw as [-> _]. exact Hlen.
Qed.

Lemma deliver_preserves frames (s s_end : ZarrStream_s W K) :
  deliver frames s = Some s_end ->
  frame_buffer_ s_end = frame_buffer_ s
  /\ frame_buffer_offset_ s_end = frame_buffer_offset_ s
  /\ error_ s_end = error_ s.
Proof.
  revert s. induction frames as [|f frames IH]; intros s; simpl.
  - now intros [= <-].
  - destruct (write_frame_ f s) as [s' r] eqn:Hw.
    destruct r as [n| | |]; try discriminate.
    destruct (n =? length f) eqn:E; [|discriminate].
    apply Nat.eqb_eq in E. subst n.
    intros Hd. apply IH in Hd as (-> & -> & ->).
    pose proof (write_frame__error _ _ _ Hw) as ->.
    apply write_frame__frame_buffer in Hw as [-> ->]. done.
Qed.

End Delivering.

Section AppendLoop.
Context {W K : Type} `{ArrayWriterOps W} `{SinkOps K} `{JsonLib} `{StringLib}.

Lemma pending_length (s : ZarrStream_s W K) :
  frame_buffer_offset_ s <= length (frame_buffer_ s) ->
  length (pending s) = frame_buffer_offset_ s.
Proof. intros Hle. unfold pending. rewrite length_take. lia. Qed.

(** The loop of [append] when every frame is taken in full: the frames of
    the pending bytes followed by the unread input are delivered, and what
    is left over is pending afterwards. *)
Lemma append_loop_delivers (F fuel : nat) (input : list byte)
      (data bytes_written : nat) (s s_end : ZarrStream_s W K) :
  length (frame_buffer_ s) = F ->
  0 < F ->
  frame_buffer_offset_ s < F ->
  bytes_written <= length input ->
  (bytes_written = length input
   \/ (data = bytes_written /\ (frame_buffer_offset_ s = 0 \/ bytes_written = 0))) ->
  length input - bytes_written + 2 <= fuel ->
  deliver (whole_frames F (pending s ++ drop bytes_written input)) s = Some s_end ->
  exists b,
    append_loop fuel input (length input) F data bytes_written s
    = (with_frame_buffer_ b
         (length (remainder F (pending s ++ drop bytes_written input))) s_end,
       Returns (length input))
    /\ length b = F
    /\ take (length (remainder F (pending s ++ drop bytes_written input))) b
       = remainder F (pending s ++ drop bytes_written input).
Proof.
  revert data bytes_written s s_end.
  induction fuel as [|fuel IH]; intros data bw s s_end HF Hpos Ho Hbw Hinv Hfuel Hdel;
    [lia|].
  cbn [append_loop].
  destruct (bw <? (length input)) eqn:Ebw; cbn [negb].
  - (* more input *)
    apply Nat.ltb_lt in Ebw.
    destruct Hinv as [Hinv | [Hdata Hinv]]; [lia|]. subst data.
    destruct (0 <? frame_buffer_offset_ s) eqn:Eo.
    + (* add to / finish a partial frame *)
      apply Nat.ltb_lt in Eo.
      destruct Hinv as [Hinv | ->]; [lia|].
      rewrite Nat.sub_0_r, Nat.add_0_l, drop_0 in *.
      set (o := frame_buffer_offset_ s) in *.
      set (c := Nat.min (F - o) (length input)).
      set (b1 := memcpy (frame_buffer_ s) o input 0 c).
      assert (Hb1 : b1 = pending s ++ take c input ++ drop (o + c) (frame_buffer_ s)).
      { unfold b1, memcpy, pending. now rewrite drop_0. }
      assert (Hlb1 : length b1 = F).
      { rewrite Hb1, !length_app, pending_length, length_take, length_drop by lia.
        fold o. unfold c. lia. }
      cbn [frame_buffer_offset_ with_frame_buffer_ frame_buffer_].
      destruct (o + c =? F) eqn:Efull.
      * (* the frame is complete *)
        apply Nat.eqb_eq in Efull.
        assert (Hc : c = F - o) by lia.
        assert (Hframe : b1 = take F (pending s ++ input)).
        { rewrite Hb1. rewrite drop_ge by lia. rewrite app_nil_r.
          rewrite take_app_ge by (rewrite pending_length by lia; fold o; lia).
          rewrite pending_length by lia. fold o. now rewrite Hc. }
        destruct (whole_frames_long F (pending s ++ input) Hpos) as [Hwf Hrem].
        { rewrite length_app, pending_length by lia. fold o. unfold c in Hc. lia. }
        rewrite Hwf in Hdel. rewrite Hrem. cbn [deliver] in Hdel.
        rewrite <- Hframe in Hdel.
        destruct (write_frame_ b1 s) as [s' r] eqn:Hw.
        destruct r as [k| | |]; try discriminate.
        destruct (k =? length b1) eqn:Ek; [|discriminate].
        apply Nat.eqb_eq in Ek. subst k.
        pose proof (write_frame__frame_buffer _ _ _ _ Hw) as [Hfb Hfo].
        unfold bind at 1.
        rewrite commutes_write_frame_ by lia. rewrite Hw. cbn [fst snd].
        rewrite Hlb1, Nat.ltb_irrefl.
        unfold bind at 1. unfold modify.
        cbn [frame_buffer_ with_frame_buffer_].
        assert (Hdrop : drop F (pending s ++ input) = drop c input).
        { rewrite drop_app_ge by (rewrite pending_length by lia; fold o; lia).
          rewrite pending_length by lia. fold o. now rewrite Hc. }
        rewrite Hdrop in *.
        destruct (IH (0 + c) (0 + c) (with_frame_buffer_ b1 0 s')
                     (with_frame_buffer_ b1 0 s_end)) as (b & Hrun & Hlb & Htake).
        { exact Hlb1. }
        { exact Hpos. }
        { simpl. lia. }
        { unfold c. lia. }
        { right. split; [done|]. now left. }
        { lia. }
        { unfold pending. cbn [frame_buffer_offset_ frame_buffer_ with_frame_buffer_].
          rewrite take_0. cbn [app].
          apply deliver_frame_buffer; [congruence|exact Hdel]. }
        unfold pending in Hrun, Htake.
        cbn [frame_buffer_offset_ frame_buffer_ with_frame_buffer_] in Hrun, Htake.
        rewrite take_0 in Hrun, Htake. cbn [app] in Hrun, Htake.
        exists b. split; [exact Hrun | split; [exact Hlb | exact Htake]].
      * (* still partial: the input is used up *)
        apply Nat.eqb_neq in Efull.
        assert (Hc : c = (length input)) by (unfold c in *; lia).
        destruct (whole_frames_short F (pending s ++ input)) as [Hwf Hrem].
        { rewrite length_app, pending_length by lia. fold o. lia. }
        rewrite Hwf in Hdel. cbn [deliver] in Hdel. injection Hdel as <-.
        rewrite Hrem.
        destruct (IH 0 (0 + c) (with_frame_buffer_ b1 (o + c) s)
                     (with_frame_buffer_ b1 (o + c) s)) as (b & Hrun & Hlb & Htake).
        { exact Hlb1. }
        { exact Hpos. }
        { simpl. lia. }
        { lia. }
        { left. lia. }
        { lia. }
        { assert (Hall : pending (with_frame_buffer_ b1 (o + c) s) ++ drop (0 + c) input
                         = pending s ++ input).
          { unfold pending at 1.
            cbn [frame_buffer_offset_ frame_buffer_ with_frame_buffer_].
            rewrite Hb1. rewrite app_assoc.
            rewrite take_app_length'
              by (rewrite length_app, pending_length, length_take by lia; fold o; lia).
            rewrite drop_ge by (lia). rewrite app_nil_r.
            now rewrite take_ge by (lia). }
          rewrite Hall, Hwf. reflexivity. }
        assert (Hall : pending (with_frame_buffer_ b1 (o + c) s) ++ drop (0 + c) input
                       = pending s ++ input).
        { unfold pending at 1.
          cbn [frame_buffer_offset_ frame_buffer_ with_frame_buffer_].
          rewrite Hb1. rewrite app_assoc.
          rewrite take_app_length'
            by (rewrite length_app, pending_length, length_take by lia; fold o; lia).
          rewrite drop_ge by (lia). rewrite app_nil_r.
          now rewrite take_ge by (lia). }
        rewrite Hall, Hrem in Hrun, Htake.
        exists b. split; [exact Hrun | split; [exact Hlb | exact Htake]].
    + (* no partial frame *)
      apply Nat.ltb_ge in Eo.
      assert (Ho0 : frame_buffer_offset_ s = 0) by lia.
      assert (Hpend : pending s = []) by (unfold pending; now rewrite Ho0, take_0).
      rewrite Hpend in *. cbn [app] in *.
      destruct ((length input) - bw <? F) eqn:Esmall.
      * (* begin partial frame *)
        apply Nat.ltb_lt in Esmall.
        set (b1 := memcpy (frame_buffer_ s) 0 input bw ((length input) - bw)).
        assert (Hb1 : b1 = drop bw input ++ drop ((length input) - bw) (frame_buffer_ s)).
        { unfold b1, memcpy. rewrite take_0. cbn [app].
          now rewrite take_ge by (rewrite length_drop; lia). }
        assert (Hlb1 : length b1 = F).
        { rewrite Hb1, length_app, !length_drop. lia. }
        destruct (whole_frames_short F (drop bw input)) as [Hwf Hrem].
        { rewrite length_drop. lia. }
        rewrite Hwf in Hdel. cbn [deliver] in Hdel. injection Hdel as <-.
        rewrite Hrem.
        assert (Hall : pending (with_frame_buffer_ b1 ((length input) - bw) s)
                       ++ drop (bw + ((length input) - bw)) input = drop bw input).
        { unfold pending.
          cbn [frame_buffer_offset_ frame_buffer_ with_frame_buffer_].
          rewrite Hb1.
          rewrite take_app_length' by (rewrite length_drop; lia).
          rewrite (drop_ge input (bw + (length input - bw))) by lia.
          now rewrite app_nil_r. }
        destruct (IH bw (bw + ((length input) - bw)) (with_frame_buffer_ b1 ((length input) - bw) s)
                     (with_frame_buffer_ b1 ((length input) - bw) s)) as (b & Hrun & Hlb & Htake).
        { exact Hlb1. }
        { exact Hpos. }
        { simpl. lia. }
        { lia. }
        { left. lia. }
        { lia. }
        { rewrite Hall, Hwf. reflexivity. }
        rewrite Hall, Hrem in Hrun, Htake.
        exists b. split; [exact Hrun | split; [exact Hlb | exact Htake]].
      * (* at least one full frame *)
        apply Nat.ltb_ge in Esmall.
        destruct (whole_frames_long F (drop bw input) Hpos) as [Hwf Hrem].
        { rewrite length_drop. lia. }
        rewrite Hwf in Hdel. rewrite Hrem. cbn [deliver] in Hdel.
        destruct (write_frame_ (take F (drop bw input)) s) as [s' r] eqn:Hw.
        destruct r as [k| | |]; try discriminate.
        destruct (k =? length (take F (drop bw input))) eqn:Ek; [|discriminate].
        apply Nat.eqb_eq in Ek.
        rewrite length_take, length_drop in Ek. 
        assert (Hk : k = F) by lia. clear Ek. subst k.
        pose proof (write_frame__frame_buffer _ _ _ _ Hw) as [Hfb Hfo].
        unfold bind at 1. rewrite Hw. rewrite Nat.ltb_irrefl.
        rewrite drop_drop in *.
        destruct (IH (bw + F) (bw + F) s' s_end) as (b & Hrun & Hlb & Htake).
        { congruence. }
        { exact Hpos. }
        { lia. }
        { lia. }
        { right. split; [done|]. left. lia. }
        { lia. }
        { assert (Hp : pending s' = []) by (unfold pending; now rewrite Hfo, Ho0, take_0).
          rewrite Hp. exact Hdel. }
        assert (Hp : pending s' = []) by (unfold pending; now rewrite Hfo, Ho0, take_0).
        rewrite Hp in Hrun, Htake. cbn [app] in Hrun, Htake.
        exists b. split; [exact Hrun | split; [exact Hlb | exact Htake]].
  - (* the input is used up *)
    apply Nat.ltb_ge in Ebw. assert (bw = (length input)) by lia. subst bw.
    rewrite drop_ge in * by (lia). rewrite app_nil_r in *.
    destruct (whole_frames_short F (pending s)) as [Hwf Hrem].
    { rewrite pending_length; lia. }
    rewrite Hwf in Hdel. cbn [deliver] in Hdel. injection Hdel as <-.
    rewrite Hrem. exists (frame_buffer_ s).
    rewrite pending_length by lia.
    rewrite with_frame_buffer_id. now repeat split.
Qed.

End AppendLoop.

Section AppendFacts.
Context {W K : Type} `{ArrayWriterOps W} `{SinkOps K} `{JsonLib} `{StringLib}.

(** One call of [append] when every frame is taken in full. *)
Lemma append_delivers (F : nat) (input : list byte) (s s_end : ZarrStream_s W K) :
  error_ s = ""%string ->
  length (frame_buffer_ s) = F ->
  0 < F ->
  frame_buffer_offset_ s < F ->
  deliver (whole_frames F (pending s ++ input)) s = Some s_end ->
  exists b,
    append input s
    = (with_frame_buffer_ b (length (remainder F (pending s ++ input))) s_end,
       Returns (length input))
    /\ length b = F
    /\ take (length (remainder F (pending s ++ input))) b
       = remainder F (pending s ++ input).
Proof.
  intros Herr HF Hpos Ho Hdel.
  unfold append. unfold bind at 1. unfold lift at 1.
  rewrite Herr. cbn [String.eqb EXPECT].
  destruct (length input =? 0) eqn:E0.
  - apply Nat.eqb_eq in E0. apply nil_length_inv in E0. subst input.
    rewrite app_nil_r in *.
    destruct (whole_frames_short F (pending s)) as [Hwf Hrem].
    { rewrite pending_length; lia. }
    rewrite Hwf in Hdel. cbn [deliver] in Hdel. injection Hdel as <-.
    rewrite Hrem. exists (frame_buffer_ s).
    rewrite pending_length by lia. rewrite with_frame_buffer_id.
    now repeat split.
  - rewrite HF.
    destruct (append_loop_delivers F (length input + 2) input 0 0 s s_end)
      as (b & Hrun & Hlb & Htake); try done; try lia.
    exists b. split; [exact Hrun | split; [exact Hlb | exact Htake]].
Qed.

(** Successive calls of [append] when every frame is taken in full. *)
Lemma appends_deliver (F : nat) (pieces : list (list byte))
      (s s_end : ZarrStream_s W K) :
  error_ s = ""%string ->
  length (frame_buffer_ s) = F ->
  0 < F ->
  frame_buffer_offset_ s < F ->
  deliver (whole_frames F (pending s ++ concat pieces)) s = Some s_end ->
  exists b,
    appends pieces s
    = (with_frame_buffer_ b
         (length (remainder F (pending s ++ concat pieces))) s_end,
       Returns (map length pieces))
    /\ length b = F
    /\ take (length (remainder F (pending s ++ concat pieces))) b
       = remainder F (pending s ++ concat pieces).
Proof.
  revert s s_end.
  induction pieces as [|x pieces IH]; intros s s_end Herr HF Hpos Ho Hdel.
  - cbn [concat appends] in *. rewrite app_nil_r in *.
    destruct (whole_frames_short F (pending s)) as [Hwf Hrem].
    { rewrite pending_length; lia. }
    rewrite Hwf in Hdel. cbn [deliver] in Hdel. injection Hdel as <-.
    rewrite Hrem. exists (frame_buffer_ s).
    rewrite pending_length by lia. rewrite with_frame_buffer_id.
    now repeat split.
  - cbn [concat appends] in *. rewrite app_assoc in *.
    destruct (whole_frames_app F (pending s ++ x) (concat pieces) Hpos)
      as [Hwf Hrem].
    rewrite Hwf, deliver_app in Hdel.
    destruct (deliver (whole_frames F (pending s ++ x)) s) as [s_mid|] eqn:Hmid;
      [|discriminate].
    destruct (append_delivers F x s s_mid Herr HF Hpos Ho Hmid)
      as (b1 & Hrun1 & Hlb1 & Htake1).
    pose proof (deliver_preserves _ _ _ Hmid) as (Hfb & Hfo & Herr').
    set (o1 := length (remainder F (pending s ++ x))) in *.
    set (s1 := with_frame_buffer_ b1 o1 s_mid).
    assert (Hpend1 : pending s1 = remainder F (pending s ++ x)).
    { unfold pending, s1. cbn [frame_buffer_offset_ frame_buffer_ with_frame_buffer_].
      exact Htake1. }
    destruct (IH s1 (with_frame_buffer_ b1 o1 s_end)) as (b & Hrun & Hlb & Htake).
    { unfold s1. cbn [error_ with_frame_buffer_]. congruence. }
    { exact Hlb1. }
    { exact Hpos. }
    { unfold s1, o1. cbn [frame_buffer_offset_ with_frame_buffer_].
      now apply length_remainder. }
    { rewrite Hpend1. apply deliver_frame_buffer; [congruence|exact Hdel]. }
    rewrite Hpend1, <- Hrem in Hrun, Htake.
    exists b. split; [|split; [exact Hlb|exact Htake]].
    unfold bind at 1. rewrite Hrun1. fold s1.
    unfold bind at 1. rewrite Hrun. reflexivity.
Qed.

(** C1. On a stream with an empty error state and no frame in progress,
    for every byte sequence [X] whose frames are all taken in full (no
    error occurs) and every way of cutting [X] into pieces: the calls of
    [append] on the pieces return the lengths of the pieces, which add up to
    the length of [X]; the single call [append X] returns the length of [X];
    and the two streams agree on the writers, the held frames and the frame
    in progress. *)
Theorem append_split_invariant
    (s0 s_end : ZarrStream_s W K) (X : list byte) (pieces : list (list byte)) :
  error_ s0 = ""%string ->
  frame_buffer_offset_ s0 = 0 ->
  0 < length (frame_buffer_ s0) ->
  concat pieces = X ->
  deliver (whole_frames (length (frame_buffer_ s0)) X) s0 = Some s_end ->
  exists s1 s2,
    appends pieces s0 = (s1, Returns (map length pieces))
    /\ list_sum (map length pieces) = length X
    /\ append X s0 = (s2, Returns (length X))
    /\ same_store s1 s2
    /\ writers_ s1 = writers_ s_end /\ writers_ s2 = writers_ s_end.
Proof.
  intros Herr Ho Hpos HX Hdel.
  set (F := length (frame_buffer_ s0)) in *.
  assert (Hpend : pending s0 = []) by (unfold pending; now rewrite Ho, take_0).
  destruct (appends_deliver F pieces s0 s_end) as (b1 & Hrun1 & Hlb1 & Htake1);
    try done; try lia.
  { now rewrite Hpend, HX. }
  destruct (append_delivers F X s0 s_end) as (b2 & Hrun2 & Hlb2 & Htake2);
    try done; try lia.
  { now rewrite Hpend. }
  rewrite Hpend in *. cbn [app] in *. rewrite HX in *.
  eexists _, _. split; [exact Hrun1|]. split; [|split; [exact Hrun2|]].
  - rewrite <- HX. clear. induction pieces as [|x pieces IH]; simpl; [done|].
    now rewrite length_app, IH.
  - split; [|now split].
    split; [reflexivity|].
    unfold pending. cbn [frame_buffer_offset_ frame_buffer_ with_frame_buffer_].
    now rewrite Htake1, Htake2.
Qed.

End AppendFacts.

(** *** Nothing but the loop of [append] can fail to terminate *)

Lemma obind_no_hang {A B} (m : outcome A) (k : A -> outcome B) :
  m <> Hangs -> (forall a, k a <> Hangs) -> obind m k <> Hangs.
Proof. intros Hm Hk. destruct m; simpl; auto; discriminate. Qed.

Lemma foldM_no_hang {A St} (body : A -> St -> outcome St) (l : list A) (s : St) :
  (forall a s, body a s <> Hangs) -> foldM body l s <> Hangs.
Proof.
  intros Hbody. revert s. induction l as [|a l IH]; intros s; simpl; [discriminate|].
  apply obind_no_hang; auto.
Qed.

Lemma defined_no_hang {A} (o : option A) : defined o <> Hangs.
Proof. now destruct o. Qed.

Lemma poke_no_hang T p idx v : poke T p idx v <> Hangs.
Proof. unfold poke. now destruct (_ <=? _). Qed.

Lemma EXPECT_no_hang e msg : EXPECT e msg <> Hangs.
Proof. now destruct e. Qed.

Lemma scale_image_no_hang T src width height :
  scale_image T src width height <> Hangs.
Proof.
  unfold scale_image.
  apply obind_no_hang; [apply EXPECT_no_hang|]. intros _.
  apply obind_no_hang; [apply defined_no_hang|]. intros size.
  apply obind_no_hang; [|now intros [dst idx]].
  apply foldM_no_hang. intros row [dst idx].
  apply foldM_no_hang. intros col [dst' idx'].
  apply obind_no_hang; [apply defined_no_hang|]. intros v.
  apply obind_no_hang; [apply poke_no_hang|]. discriminate.
Qed.

Lemma average_two_frames_no_hang T dst src :
  average_two_frames T dst src <> Hangs.
Proof.
  unfold average_two_frames.
  apply obind_no_hang; [apply EXPECT_no_hang|]. intros _.
  apply foldM_no_hang. intros i d.
  apply obind_no_hang; [apply defined_no_hang|]. intros v. apply poke_no_hang.
Qed.

Section NoHang.
Context {W K : Type} `{ArrayWriterOps W} `{SinkOps K} `{JsonLib} `{StringLib}.

Lemma bind_never_hangs {A B} (m : M W K A) (k : A -> M W K B) :
  never_hangs m -> (forall a, never_hangs (k a)) -> never_hangs (bind m k).
Proof.
  intros Hm Hk s. unfold bind. specialize (Hm s).
  destruct (m s) as [s' [a| | |]]; simpl in *; try done. apply Hk.
Qed.

Lemma lift_never_hangs {A} (o : outcome A) : o <> Hangs -> never_hangs (lift o : M W K A).
Proof. now intros Ho s. Qed.

Lemma writer_write_frame_never_hangs i data :
  never_hangs (writer_write_frame i data : M W K nat).
Proof.
  intros s. unfold writer_write_frame.
  destruct (writers_ s !! i) as [w|]; [|done]. now destruct (write_frame w data).
Qed.

Lemma multiscale_levels_never_hangs T levels data frame_width frame_height :
  never_hangs (multiscale_levels T levels data frame_width frame_height : M W K unit).
Proof.
  revert data frame_width frame_height.
  induction levels as [|i levels IH]; intros data fw fh; cbn [multiscale_levels].
  - now intros s.
  - apply bind_never_hangs; [apply lift_never_hangs, scale_image_no_hang|].
    intros [[dst fw'] fh'] s.
    destruct (scaled_frame s i) as [held|]; [|done].
    revert s.
    apply bind_never_hangs; [apply lift_never_hangs, average_two_frames_no_hang|].
    intros dst'.
    apply bind_never_hangs; [apply writer_write_frame_never_hangs|]. intros n.
    apply bind_never_hangs; [apply lift_never_hangs, EXPECT_no_hang|]. intros _.
    apply bind_never_hangs; [now intros s|]. intros _ s. apply IH.
Qed.

Lemma write_frame__never_hangs data : never_hangs (write_frame_ data : M W K nat).
Proof.
  intros s. unfold write_frame_.
  set (F := length (frame_buffer_ s)). clearbody F. revert s.
  change (never_hangs (W := W) (K := K)
            (let! n_bytes := writer_write_frame 0 data in
             let! _ := lift (EXPECT (n_bytes =? F) "") in
             if negb (n_bytes =? length data)
             then
               let! _ := modify (set_error_ "Incomplete write to full-resolution array.") in
               ret n_bytes
             else let! _ := write_multiscale_frames_ data in ret n_bytes)).
  apply bind_never_hangs; [apply writer_write_frame_never_hangs|]. intros n.
  apply bind_never_hangs; [apply lift_never_hangs, EXPECT_no_hang|]. intros _.
  destruct (negb _).
  - apply bind_never_hangs; [now intros s|]. now intros _ s.
  - apply bind_never_hangs; [|now intros _ s].
    intros s. unfold write_multiscale_frames_.
    destruct (negb (multiscale_ s)); [done|].
    destruct (dtype_ s) as [t|]; [|done].
    destruct (width_dim (dimensions_ s)) as [wd|]; [|done].
    destruct (height_dim (dimensions_ s)) as [hd|]; [|done].
    apply multiscale_levels_never_hangs.
Qed.

End NoHang.

Section NeverShort.
Context {W K : Type} `{ArrayWriterOps W} `{SinkOps K} `{JsonLib} `{StringLib}.

Lemma append_loop_never_short (F fuel : nat) (input : list byte)
      (data bytes_written : nat) (s : ZarrStream_s W K) :
  length (frame_buffer_ s) = F ->
  0 < F ->
  frame_buffer_offset_ s <= F ->
  bytes_written <= length input ->
  (bytes_written = length input
   \/ (data = bytes_written /\ (frame_buffer_offset_ s = 0 \/ bytes_written = 0))) ->
  (if bytes_written =? length input then 1
   else length input - bytes_written + 1
        + (if 0 <? frame_buffer_offset_ s then 1 else 0)) <= fuel ->
  full_or_raises (length input)
    (append_loop fuel input (length input) F data bytes_written s).2.
Proof.
  revert data bytes_written s.
  induction fuel as [|fuel IH]; intros data bw s HF Hpos Ho Hbw Hinv Hfuel.
  { destruct (bw =? length input); lia. }
  cbn [append_loop].
  destruct (bw <? length input) eqn:Ebw; cbn [negb].
  2: { apply Nat.ltb_ge in Ebw. simpl. lia. }
  apply Nat.ltb_lt in Ebw.
  replace (bw =? length input) with false in Hfuel
    by (symmetry; apply Nat.eqb_neq; lia).
  destruct Hinv as [Hinv | [Hdata Hinv]]; [lia|]. subst data.
  destruct (0 <? frame_buffer_offset_ s) eqn:Eo.
  - (* add to / finish a partial frame *)
    apply Nat.ltb_lt in Eo.
    destruct Hinv as [Hinv | ->]; [lia|].
    rewrite Nat.sub_0_r in *. rewrite Nat.add_0_l.
    set (o := frame_buffer_offset_ s) in *.
    set (c := Nat.min (F - o) (length input)).
    set (b1 := memcpy (frame_buffer_ s) o input 0 c).
    assert (Hlb1 : length b1 = F).
    { unfold b1, memcpy. rewrite drop_0, !length_app, !length_take, length_drop.
      unfold c. lia. }
    cbn [frame_buffer_offset_ with_frame_buffer_ frame_buffer_].
    destruct (o + c =? F) eqn:Efull.
    + apply Nat.eqb_eq in Efull.
      unfold bind at 1.
      pose proof (write_frame__never_hangs b1 (with_frame_buffer_ b1 (o + c) s))
        as Hnh.
      destruct (write_frame_ b1 (with_frame_buffer_ b1 (o + c) s)) as [s2 r] eqn:Hw.
      destruct r as [k| | |]; simpl in Hnh |- *; try done.
      pose proof (write_frame__returns _ _ _ _ Hw) as Hk.
      pose proof (write_frame__frame_buffer _ _ _ _ Hw) as [Hfb Hfo].
      cbn [frame_buffer_ frame_buffer_offset_ with_frame_buffer_] in Hk, Hfb, Hfo.
      rewrite Hk, Hlb1, Nat.ltb_irrefl.
      unfold bind at 1. unfold modify.
      apply IH; cbn [frame_buffer_ frame_buffer_offset_ with_frame_buffer_];
        try lia; try congruence.
      destruct (c =? length input) eqn:Ec; [lia|].
      apply Nat.eqb_neq in Ec. simpl. lia.
    + apply Nat.eqb_neq in Efull.
      assert (Hc : c = length input) by (unfold c in *; lia).
      apply IH; cbn [frame_buffer_ frame_buffer_offset_ with_frame_buffer_];
        try lia.
      rewrite Hc, Nat.eqb_refl. lia.
  - (* no partial frame *)
    apply Nat.ltb_ge in Eo.
    assert (Ho0 : frame_buffer_offset_ s = 0) by lia.
    destruct (length input - bw <? F) eqn:Esmall.
    + apply Nat.ltb_lt in Esmall.
      set (b1 := memcpy (frame_buffer_ s) 0 input bw (length input - bw)).
      assert (Hlb1 : length b1 = F).
      { unfold b1, memcpy. rewrite take_0. cbn [app].
        rewrite length_app, length_take, !length_drop. lia. }
      apply IH; cbn [frame_buffer_ frame_buffer_offset_ with_frame_buffer_];
        try lia.
      replace (bw + (length input - bw) =? length input) with true
        by (symmetry; apply Nat.eqb_eq; lia).
      lia.
    + apply Nat.ltb_ge in Esmall.
      unfold bind at 1.
      pose proof (write_frame__never_hangs (take F (drop bw input)) s) as Hnh.
      destruct (write_frame_ (take F (drop bw input)) s) as [s2 r] eqn:Hw.
      destruct r as [k| | |]; simpl in Hnh |- *; try done.
      pose proof (write_frame__returns _ _ _ _ Hw) as Hk.
      pose proof (write_frame__frame_buffer _ _ _ _ Hw) as [Hfb Hfo].
      rewrite Hk, HF, Nat.ltb_irrefl.
      apply IH; try lia; try congruence.
      rewrite Hfo, Ho0. simpl.
      destruct (bw + F =? length input) eqn:Ec; [lia|].
      apply Nat.eqb_neq in Ec. lia.
Qed.

(** C2, amended.  [append] never returns a short count and its loop always
    leaves: a call returns the number of bytes it was given, or raises.
    While the error state is not empty every call raises at once and leaves
    the stream as it was.  A short count from writer 0 does not come back as
    a short count of [append]: the check in [write_frame_] raises, and the
    error state stays empty. *)
Theorem append_full_or_raises (s : ZarrStream_s W K) (input : list byte) :
  0 < length (frame_buffer_ s) ->
  frame_buffer_offset_ s <= length (frame_buffer_ s) ->
  full_or_raises (length input) (append input s).2
  /\ (error_ s <> ""%string -> append input s = (s, Throws "Cannot append data"))
  /\ (forall (w w' : W) (k : nat),
        error_ s = ""%string ->
        frame_buffer_offset_ s = 0 ->
        length input = length (frame_buffer_ s) ->
        writers_ s !! 0 = Some w ->
        write_frame w input = (w', k) ->
        k <> length input ->
        append input s
        = (with_writers_ (<[0 := w']> (writers_ s)) s, Throws "")).
Proof.
  intros Hpos Ho. split; [|split].
  - unfold append. unfold bind at 1. unfold lift at 1.
    destruct (String.eqb (error_ s) ""); cbn [EXPECT]; [|done].
    destruct (length input =? 0) eqn:E0.
    + apply Nat.eqb_eq in E0. simpl. lia.
    + apply Nat.eqb_neq in E0.
      apply append_loop_never_short; try done; try lia.
      replace (0 =? length input) with false
        by (symmetry; apply Nat.eqb_neq; lia).
      destruct (0 <? frame_buffer_offset_ s); lia.
  - intros Herr. unfold append. unfold bind at 1. unfold lift at 1.
    apply String.eqb_neq in Herr. now rewrite Herr.
  - intros w w' k Herr Hoff Hlen Hw Hwrite Hk.
    unfold append. unfold bind at 1. unfold lift at 1.
    rewrite Herr. cbn [String.eqb EXPECT].
    replace (length input =? 0) with false
      by (symmetry; apply Nat.eqb_neq; lia).
    replace (length input + 2) with (S (length input + 1)) by lia.
    cbn [append_loop].
    replace (0 <? length input) with true by (symmetry; apply Nat.ltb_lt; lia).
    cbn [negb]. rewrite Hoff. rewrite (Nat.ltb_irrefl 0). cbv iota.
    rewrite Nat.sub_0_r, <- Hlen, Nat.ltb_irrefl. cbv iota.
    rewrite drop_0, firstn_all.
    unfold bind at 1. unfold write_frame_.
    unfold bind at 1. unfold writer_write_frame. rewrite Hw, Hwrite.
    unfold bind at 1. unfold lift at 1.
    rewrite <- Hlen. apply Nat.eqb_neq in Hk. rewrite Hk. reflexivity.
Qed.

End NeverShort.

Lemma append_split_invariant_witness :
  exists s1 s2 : TestStream,
    appends three_pieces pyramid_stream = (s1, Returns (map length three_pieces))
    /\ list_sum (map length three_pieces) = length two_frames_and_a_bit
    /\ append two_frames_and_a_bit pyramid_stream
       = (s2, Returns (length two_frames_and_a_bit))
    /\ same_store s1 s2
    /\ writers_ s1 = writers_ pyramid_after_two_frames
    /\ writers_ s2 = writers_ pyramid_after_two_frames.
Proof.
  apply (append_split_invariant pyramid_stream pyramid_after_two_frames
           two_frames_and_a_bit three_pieces).
  - reflexivity.
  - reflexivity.
  - simpl. lia.
  - vm_compute. reflexivity.
  - vm_compute. reflexivity.
Defined.

Lemma append_full_or_raises_witness :
  full_or_raises (length frame_2x2) (append frame_2x2 failing_stream).2
  /\ (error_ failing_stream <> ""%string ->
      append frame_2x2 failing_stream
      = (failing_stream, Throws "Cannot append data"))
  /\ (forall (w w' : TestWriter) (k : nat),
        error_ failing_stream = ""%string ->
        frame_buffer_offset_ failing_stream = 0 ->
        length frame_2x2 = length (frame_buffer_ failing_stream) ->
        writers_ failing_stream !! 0 = Some w ->
        write_frame w frame_2x2 = (w', k) ->
        k <> length frame_2x2 ->
        append frame_2x2 failing_stream
        = (with_writers_ (<[0 := w']> (writers_ failing_stream)) failing_stream,
           Throws "")).
Proof.
  apply (append_full_or_raises failing_stream frame_2x2).
  - simpl. lia.
  - simpl. lia.
Defined.

(** C2, as stated, fails.  When writer 0 reports a short write, [append]
    does not return a short count: it raises, and the error state stays
    empty.  With a non-empty error state, [append] does not return 0: it
    raises. *)
Lemma append_raises_where_a_count_is_claimed :
  let failed := append frame_2x2 failing_stream in
  let latched := set_error_ "Failed to write chunk" failing_stream in
  failed.2 = Throws ""
  /\ (forall k, failed.2 <> Returns k)
  /\ error_ failed.1 = ""%string
  /\ append frame_2x2 latched = (latched, Throws "Cannot append data")
  /\ (append frame_2x2 latched).2 <> Returns 0.
Proof.
  cbv zeta. split; [vm_compute; reflexivity|].
  split; [intros k; vm_compute; discriminate|].
  split; [vm_compute; reflexivity|].
  split; [vm_compute; reflexivity|].
  vm_compute. discriminate.
Qed.

(** ** Validation of the settings (zarr.stream.cpp) *)

Lemma append_nonempty (a b : string) : a <> ""%string -> (a +:+ b) <> ""%string.
Proof. destruct a; [done|]. intros _. simpl. discriminate. Qed.

Section ValidatorFacts.
Context `{StringLib}.

Lemma validate_s3_settings_verdict (s3 : S3Settings) (error : string) :
  verdict (valid_s3_settings s3) error (validate_s3_settings s3 error).
Proof.
  unfold verdict, valid_s3_settings, validate_s3_settings.
  destruct (is_empty_string (endpoint s3)) eqn:E.
  { right. split; [intros [? _]; done|]. eexists. split; [reflexivity|done]. }
  destruct (String.length (trim (bucket_name s3)) <? 3) eqn:E1; simpl.
  { apply Nat.ltb_lt in E1. right. split; [lia|].
    eexists. split; [reflexivity|]. now apply append_nonempty. }
  apply Nat.ltb_ge in E1.
  destruct (63 <? String.length (trim (bucket_name s3))) eqn:E2.
  { apply Nat.ltb_lt in E2. right. split; [lia|].
    eexists. split; [reflexivity|]. now apply append_nonempty. }
  apply Nat.ltb_ge in E2. left. split; [|reflexivity]. split; [reflexivity|lia].
Qed.

Lemma validate_filesystem_store_path_verdict (w : World) (data_root error : string) :
  verdict (valid_store_parent w data_root) error
          (validate_filesystem_store_path w data_root error).
Proof.
  unfold verdict, valid_store_parent, validate_filesystem_store_path,
    store_parent, fs_exists, fs_is_directory, fs_is_writable.
  set (parent := if String.eqb (parent_path data_root) "" then "."%string
                 else parent_path data_root).
  destruct (fs_status w parent) as [[[|]|]|] eqn:E.
  - left. split; [reflexivity|]. rewrite bool_decide_eq_true_2 by eauto. reflexivity.
  - right. split; [done|]. rewrite bool_decide_eq_true_2 by eauto. simpl.
    eexists. split; [reflexivity|]. now apply append_nonempty.
  - right. split; [done|]. rewrite bool_decide_eq_true_2 by eauto. simpl.
    eexists. split; [reflexivity|]. now apply append_nonempty.
  - right. split; [done|].
    rewrite bool_decide_eq_false_2 by (intros [? ?]; done). simpl.
    eexists. split; [reflexivity|]. now apply append_nonempty.
Qed.

Lemma validate_compression_settings_verdict (c : CompressionSettings) (error : string) :
  verdict (valid_compression_settings c) error (validate_compression_settings c error).
Proof.
  unfold verdict, valid_compression_settings, validate_compression_settings.
  destruct (compressor c) as [k|raw] eqn:Ek; simpl.
  2: { right. split; [intros [[? ?] _]; done|]. eexists. split; [reflexivity|done]. }
  destruct (codec c) as [k'|raw] eqn:Ek'; simpl.
  2: { right. split; [intros (_ & [? ?] & _); done|].
       eexists. split; [reflexivity|done]. }
  destruct (negb (bool_decide (Enumerator k = Enumerator ZarrCompressor_None))
            && bool_decide (Enumerator k' = Enumerator ZarrCompressionCodec_None))
    eqn:E1.
  { apply andb_true_iff in E1 as [E1 E1'].
    apply negb_true_iff, bool_decide_eq_false in E1.
    apply bool_decide_eq_true in E1'.
    right. split; [intros (_ & _ & Hc & _); now apply Hc|].
    eexists. split; [reflexivity|done]. }
  destruct (9 <? level c) eqn:E2.
  { apply Nat.ltb_lt in E2. right. split; [lia|].
    eexists. split; [reflexivity|]. now apply append_nonempty. }
  apply Nat.ltb_ge in E2.
  unfold BLOSC_NOSHUFFLE, BLOSC_SHUFFLE, BLOSC_BITSHUFFLE.
  destruct (shuffle c) as [|[|[|n]]] eqn:E3; simpl.
  4: { right. split; [lia|]. eexists. split; [reflexivity|done]. }
  all: left; split; [|reflexivity]; repeat split; eauto; try lia.
  all: intros Hk Hk'; apply andb_false_iff in E1 as [E1|E1];
    [ apply negb_false_iff, bool_decide_eq_true in E1; done
    | apply bool_decide_eq_false in E1; done ].
Qed.

Lemma validate_dimension_verdict (d : ZarrDimension) (version : nat)
      (is_append : bool) (error : string) :
  verdict (valid_dimension version is_append d) error
          (validate_dimension d version is_append error).
Proof.
  unfold verdict, valid_dimension, validate_dimension.
  destruct (is_empty_string (name d)) eqn:E0.
  { right. split; [intros [? _]; done|]. eexists. split; [reflexivity|done]. }
  destruct (type d) as [t|raw] eqn:Et; simpl.
  2: { right. split; [intros (_ & [? ?] & _); done|].
       eexists. split; [reflexivity|done]. }
  destruct (negb is_append && (array_size_px d =? 0)) eqn:E1.
  { apply andb_true_iff in E1 as [E1 E1'].
    apply negb_true_iff in E1. apply Nat.eqb_eq in E1'.
    right. split; [intros (_ & _ & Ha & _); specialize (Ha E1); lia|].
    eexists. split; [reflexivity|done]. }
  destruct (chunk_size_px d =? 0) eqn:E2.
  { apply Nat.eqb_eq in E2. right. split; [lia|].
    eexists. split; [reflexivity|]. now apply append_nonempty. }
  apply Nat.eqb_neq in E2.
  destruct ((version =? ZarrVersion_3) && (shard_size_chunks d =? 0)) eqn:E3.
  { apply andb_true_iff in E3 as [E3 E3'].
    apply Nat.eqb_eq in E3. apply Nat.eqb_eq in E3'.
    right. split; [intros (_ & _ & _ & _ & Hs); specialize (Hs E3); lia|].
    eexists. split; [reflexivity|done]. }
  left. split; [|reflexivity]. repeat split; eauto; try lia.
  - intros ->. simpl in E1. apply Nat.eqb_neq in E1. lia.
  - intros ->. simpl in E3. apply Nat.eqb_neq in E3. lia.
Qed.

Lemma validate_dimensions_verdict (dims : list ZarrDimension) (i version : nat)
      (error : string) :
  verdict (forall k d, dims !! k = Some d ->
                       valid_dimension version (i + k =? 0) d)
          error (validate_dimensions dims i version error).
Proof.
  revert i. induction dims as [|dim rest IH]; intros i.
  { left. split; [|reflexivity]. intros k d Hk. done. }
  cbn [validate_dimensions].
  destruct (validate_dimension_verdict dim version (i =? 0) error)
    as [[Hd ->]|(Hd & message & -> & Hm)].
  - destruct (IH (S i)) as [[Hr ->]|(Hr & message & -> & Hm)].
    + left. split; [|reflexivity]. intros [|k] d Hk; simpl in Hk.
      * injection Hk as <-. now rewrite Nat.add_0_r.
      * replace (i + S k) with (S i + k) by lia. now apply Hr.
    + right. split; [|eauto]. intros Hall. apply Hr. intros k d Hk.
      replace (S i + k) with (i + S k) by lia. now apply Hall.
  - right. split; [|eauto]. intros Hall. apply Hd.
    specialize (Hall 0 dim eq_refl). now rewrite Nat.add_0_r in Hall.
Qed.

Lemma is_space_true (dim : option ZarrDimension) :
  is_space dim = true
  <-> exists d, dim = Some d /\ type d = Enumerator ZarrDimensionType_Space.
Proof.
  unfold is_space. destruct dim as [d|].
  - rewrite bool_decide_eq_true. split; [eauto|]. now intros (? & [= <-] & ?).
  - split; [done|]. now intros (? & ? & _).
Qed.

Lemma validate_settings__verdict (w : World) (st : ZarrStreamSettings_s)
      (error_ : string) :
  verdict (valid_settings w st) error_ (validate_settings_ w (Some st) error_).
Proof.
  unfold verdict, valid_settings, validate_settings_.
  unfold ZarrVersion_2, ZarrVersionCount.
  destruct ((version st <? 2) || (4 <=? version st)) eqn:Ev.
  { right. split.
    - intros [Hv _]. apply orb_true_iff in Ev as [Ev|Ev];
        [apply Nat.ltb_lt in Ev|apply Nat.leb_le in Ev]; lia.
    - eexists. split; [reflexivity|]. now apply append_nonempty. }
  apply orb_false_iff in Ev as [Ev1 Ev2].
  apply Nat.ltb_ge in Ev1. apply Nat.leb_gt in Ev2.
  destruct (store_path st) as [path|] eqn:Ep.
  2: { right. split; [intros (_ & (? & ? & _) & _); done|].
       eexists. split; [reflexivity|done]. }
  destruct (String.eqb path "") eqn:Ee.
  { apply String.eqb_eq in Ee. right.
    split; [intros (_ & (? & [= <-] & ? & _) & _); done|].
    eexists. split; [reflexivity|done]. }
  apply String.eqb_neq in Ee.
  assert (Hstore : verdict (match s3_settings st with
                            | Some s3 => valid_s3_settings s3
                            | None => valid_store_parent w path
                            end) error_
                     (match s3_settings st with
                      | Some s3 => validate_s3_settings s3 error_
                      | None => validate_filesystem_store_path w path error_
                      end)).
  { destruct (s3_settings st);
      [apply validate_s3_settings_verdict
      |apply validate_filesystem_store_path_verdict]. }
  destruct Hstore as [[Hs ->]|(Hs & message & -> & Hm)]; cbn [negb].
  2: { right. split; [|eauto]. intros (_ & (? & [= <-] & _ & ?) & _). done. }
  destruct (data_type st) as [t|raw] eqn:Et; cbn [at_least_count].
  2: { right. split; [intros (_ & _ & [? ?] & _); done|].
       eexists. split; [reflexivity|done]. }
  assert (Hcomp : verdict (forall c, compression_settings st = Some c ->
                                     valid_compression_settings c) error_
                    (match compression_settings st with
                     | Some c => validate_compression_settings c error_
                     | None => (true, error_)
                     end)).
  { destruct (compression_settings st) as [c|].
    - destruct (validate_compression_settings_verdict c error_)
        as [[Hc ->]|(Hc & message & -> & Hm)].
      + left. split; [|reflexivity]. now intros ? [= <-].
      + right. split; [|eauto]. intros Hall. now apply Hc, Hall.
    - left. split; [|reflexivity]. done. }
  destruct Hcomp as [[Hc ->]|(Hc & message & -> & Hm)]; cbn [negb].
  2: { right. split; [|eauto]. intros (_ & _ & _ & ? & _). done. }
  destruct (dimensions st) as [dims|] eqn:Ed.
  2: { right. split; [intros (_ & _ & _ & _ & ? & ? & _); done|].
       eexists. split; [reflexivity|done]. }
  destruct (length dims <? 3) eqn:En.
  { apply Nat.ltb_lt in En. right.
    split; [intros (_ & _ & _ & _ & ? & [= <-] & ? & _); lia|].
    eexists. split; [reflexivity|]. now apply append_nonempty. }
  apply Nat.ltb_ge in En.
  destruct (is_space (dims !! (length dims - 1))) eqn:Ex; cbn [negb].
  2: { right. split.
       - intros (_ & _ & _ & _ & ? & [= <-] & _ & Hx & _).
         apply is_space_true in Hx. congruence.
       - eexists. split; [reflexivity|done]. }
  destruct (is_space (dims !! (length dims - 2))) eqn:Ey; cbn [negb].
  2: { right. split.
       - intros (_ & _ & _ & _ & ? & [= <-] & _ & _ & Hy & _).
         apply is_space_true in Hy. congruence.
       - eexists. split; [reflexivity|done]. }
  apply is_space_true in Ex. apply is_space_true in Ey.
  destruct (validate_dimensions_verdict dims 0 (version st) error_)
    as [[Hd ->]|(Hd & message & -> & Hm)].
  - left. split; [|reflexivity].
    split; [lia|]. split; [eauto|]. split; [eauto|]. split; [exact Hc|].
    exists dims. split; [done|]. split; [done|]. split; [done|]. split; [done|].
    intros i d Hi. exact (Hd i d Hi).
  - right. split; [|eauto].
    intros (_ & _ & _ & _ & ? & [= <-] & _ & _ & _ & Hall). now apply Hd.
Qed.

End ValidatorFacts.

(** X1. [validate_settings_] accepts settings exactly when they are valid:
    version 2 or 3; a non-empty store path whose parent directory exists and
    is writable (or, for S3, a non-empty endpoint and a bucket name of 3 to 63
    characters); a data type, compressor and codec in range, a codec whenever
    a compressor is set, a level of at most 9 and a shuffle of at most 2; at
    least three dimensions, the last two spatial, every one named, typed,
    with a non-zero chunk size, a non-zero extent except for the first, and
    for version 3 a non-zero shard size.  Accepted settings leave the error
    string as it was. *)
Theorem validate_settings_accepts_valid `{StringLib}
    (w : World) (st : ZarrStreamSettings_s) (error_ : string) :
  ((validate_settings_ w (Some st) error_).1 = true <-> valid_settings w st)
  /\ ((validate_settings_ w (Some st) error_).1 = true ->
      (validate_settings_ w (Some st) error_).2 = error_).
Proof.
  destruct (validate_settings__verdict w st error_)
    as [[Hv ->]|(Hv & message & -> & Hm)]; simpl.
  - split; [split|]; done.
  - split; [split|]; done.
Qed.

(** X2. Whenever [validate_settings_] rejects its argument, the null
    pointer included, the error string it leaves is not empty, whatever the
    string held before. *)
Theorem validate_settings_rejection_has_message `{StringLib}
    (w : World) (settings : option ZarrStreamSettings_s) (error_ : string) :
  (validate_settings_ w settings error_).1 = false ->
  (validate_settings_ w settings error_).2 <> ""%string.
Proof.
  destruct settings as [st|]; [|done].
  destruct (validate_settings__verdict w st error_)
    as [[Hv ->]|(Hv & message & -> & Hm)]; simpl; done.
Qed.

Lemma validate_settings_rejection_has_message_witness :
  (validate_settings_ empty_world
     (Some (test_settings (take 2 dims_S1))) "").2 <> ""%string.
Proof.
  apply (validate_settings_rejection_has_message empty_world
           (Some (test_settings (take 2 dims_S1))) "").
  vm_compute. reflexivity.
Defined.

(** ** Further properties of the data paths (sink.cpp) *)

Lemma has_slash_app (a b : string) :
  has_slash (a +:+ b) = has_slash a || has_slash b.
Proof.
  induction a as [|c a IH]; [reflexivity|].
  change (has_slash (String c a +:+ b)) with (Ascii.eqb c "/" || has_slash (a +:+ b)).
  rewrite IH. cbn [has_slash]. apply orb_assoc.
Qed.

Lemma string_of_uint_no_slash (d : Decimal.uint) :
  has_slash (NilZero.string_of_uint d) = false.
Proof.
  assert (Hd : forall d, has_slash (NilEmpty.string_of_uint d) = false).
  { intros d'. induction d' as [|d' IH|d' IH|d' IH|d' IH|d' IH|d' IH|d' IH|d' IH
                                |d' IH|d' IH]; [reflexivity|..]; exact IH. }
  destruct d; [reflexivity|..]; apply Hd.
Qed.

Lemma to_string_no_slash (n : nat) : has_slash (to_string n) = false.
Proof. apply string_of_uint_no_slash. Qed.

Lemma to_uint_nonnil (n : nat) : Nat.to_uint n <> Decimal.Nil.
Proof.
  intros E. pose proof (Unsigned.of_to n) as Hn. rewrite E in Hn. simpl in Hn.
  subst n. discriminate E.
Qed.

Lemma to_string_inj (n n' : nat) : to_string n = to_string n' -> n = n'.
Proof.
  unfold to_string. intros E. apply Unsigned.to_uint_inj.
  pose proof (NilZero.usu _ (to_uint_nonnil n)) as H1.
  pose proof (NilZero.usu _ (to_uint_nonnil n')) as H2.
  rewrite E in H1. congruence.
Qed.

(** A string is cut in one way only at its last separator. *)
Lemma split_at_last_slash (a b x y : string) :
  has_slash x = false -> has_slash y = false ->
  a +:+ "/" +:+ x = b +:+ "/" +:+ y -> a = b /\ x = y.
Proof.
  intros Hx Hy. revert b. induction a as [|c a IH]; intros [|c' b] E.
  - change (String "/" x = String "/" y) in E. injection E as E. done.
  - change (String "/" x = String c' (b +:+ "/" +:+ y)) in E.
    injection E as Ec E. rewrite E, has_slash_app in Hx.
    change (has_slash ("/" +:+ y)) with (Ascii.eqb "/" "/" || has_slash y) in Hx.
    rewrite Ascii.eqb_refl, orb_true_r in Hx. done.
  - change (String c (a +:+ "/" +:+ x) = String "/" y) in E.
    injection E as Ec E. rewrite <- E, has_slash_app in Hy.
    change (has_slash ("/" +:+ x)) with (Ascii.eqb "/" "/" || has_slash x) in Hy.
    rewrite Ascii.eqb_refl, orb_true_r in Hy. done.
  - change (String c (a +:+ "/" +:+ x) = String c' (b +:+ "/" +:+ y)) in E.
    injection E as Ec E. destruct (IH _ E) as [-> ->]. now subst.
Qed.

Lemma push_index_inj (path path' : string) (k k' : nat) :
  push_index path k = push_index path' k' -> path = path' /\ k = k'.
Proof.
  unfold push_index.
  destruct (String.eqb path "") eqn:E1; destruct (String.eqb path' "") eqn:E2;
    [apply String.eqb_eq in E1|apply String.eqb_eq in E1|apply String.eqb_neq in E1
    |apply String.eqb_neq in E1];
    [apply String.eqb_eq in E2|apply String.eqb_neq in E2|apply String.eqb_eq in E2
    |apply String.eqb_neq in E2]; subst; simpl; intros E.
  - split; [done|]. apply to_string_inj. exact E.
  - change ("" +:+ to_string k) with (to_string k) in E.
    apply (f_equal has_slash) in E.
    rewrite to_string_no_slash, !has_slash_app in E.
    change (has_slash "/") with true in E. rewrite orb_true_r in E. done.
  - change ("" +:+ to_string k') with (to_string k') in E.
    apply (f_equal has_slash) in E.
    rewrite to_string_no_slash, !has_slash_app in E.
    change (has_slash "/") with true in E. rewrite orb_true_r in E. done.
  - apply split_at_last_slash in E as [-> E]; try apply to_string_no_slash.
    split; [done|]. now apply to_string_inj.
Qed.

Lemma flat_map_bind {A B} (f : A -> list B) (l : list A) : flat_map f l = l ≫= f.
Proof. induction l as [|a l IH]; simpl; [done|]. now rewrite IH. Qed.

Lemma NoDup_seq_stdpp (start len : nat) : NoDup (seq start len).
Proof. apply NoDup_ListNoDup, List.seq_NoDup. Qed.

Lemma NoDup_children (n_parts : nat) (paths : list string) :
  NoDup paths -> NoDup (children n_parts paths).
Proof.
  intros Hnd. unfold children. rewrite flat_map_bind. apply NoDup_bind; [| |done].
  - intros p p' y _ _ Hy Hy'.
    apply list_elem_of_fmap in Hy as (k & -> & _).
    apply list_elem_of_fmap in Hy' as (k' & E & _).
    now apply push_index_inj in E.
  - intros p _. apply NoDup_fmap_2_strong; [|apply NoDup_seq_stdpp].
    intros k k' _ _ E. now apply push_index_inj in E.
Qed.

Lemma NoDup_final (n_parts : nat) (paths : list string) :
  NoDup paths ->
  NoDup (flat_map (fun path => map (fun j => path +:+ "/" +:+ to_string j)
                                   (seq 0 n_parts)) paths).
Proof.
  intros Hnd. rewrite flat_map_bind. apply NoDup_bind; [| |done].
  - intros p p' y _ _ Hy Hy'.
    apply list_elem_of_fmap in Hy as (k & -> & _).
    apply list_elem_of_fmap in Hy' as (k' & E & _).
    now apply split_at_last_slash in E as [? _]; try apply to_string_no_slash.
  - intros p _. apply NoDup_fmap_2_strong; [|apply NoDup_seq_stdpp].
    intros k k' _ _ E.
    apply split_at_last_slash in E as [_ E]; try apply to_string_no_slash.
    now apply to_string_inj.
Qed.

(** The queue and the width dimension of a set of at least two dimensions. *)
Lemma dimensions_split (dimensions : list ZarrDimension) :
  2 <= ndims dimensions ->
  exists d0 mids w,
    dimensions = d0 :: mids ++ [w]
    /\ width_dim dimensions = Some w
    /\ ndims dimensions - 2 = length mids
    /\ forall k dim, mids !! k = Some dim -> dimensions !! (1 + k) = Some dim.
Proof.
  intros Hn. destruct dimensions as [|d0 rest]; [simpl in Hn; lia|].
  destruct (exists_last (l := rest)) as (mids & w & ->).
  { intros ->. simpl in Hn. lia. }
  exists d0, mids, w. split; [done|]. split; [|split].
  - unfold width_dim, ndims. simpl length. rewrite length_app. simpl length.
    replace (S (length mids + 1) - 1) with (S (length mids)) by lia.
    change ((d0 :: mids ++ [w]) !! S (length mids))
      with ((mids ++ [w]) !! length mids).
    now rewrite list_lookup_middle.
  - unfold ndims. simpl length. rewrite length_app. simpl. lia.
  - intros k dim Hk. simpl. apply lookup_app_l_Some. exact Hk.
Qed.

(** What [construct_data_paths] returns when no dimension it visits has
    zero parts: the queue after the intermediate dimensions, each entry
    followed by the indices along the width. *)
Lemma construct_data_paths_queue (base_path : string) (d0 : ZarrDimension)
      (mids : list ZarrDimension) (w : ZarrDimension)
      (parts_along_dimension : DimensionPartsFun) :
  Forall (fun dim => 0 < parts_along_dimension dim) (mids ++ [w]) ->
  construct_data_paths base_path (d0 :: mids ++ [w]) parts_along_dimension
  = Returns
      (flat_map (fun path => map (fun j => path +:+ "/" +:+ to_string j)
                                 (seq 0 (parts_along_dimension w)))
         (fold_left (fun q dim => children (parts_along_dimension dim) q)
                    mids [base_path])).
Proof.
  intros Hpos. apply Forall_app in Hpos as [Hmid Hw].
  inversion Hw as [|? ? Hw0 _]; subst.
  destruct (dimensions_split (d0 :: mids ++ [w])) as (d0' & mids' & w' & E & Hwidth & Hcount & Hlook).
  { unfold ndims. simpl. rewrite length_app. simpl. lia. }
  injection E as <- E. apply app_inj_tail in E as [<- <-].
  unfold construct_data_paths, intermediate_paths.
  rewrite Hwidth, Hcount.
  rewrite (foldM_intermediate parts_along_dimension (d0 :: mids ++ [w]) mids 1
             _ Hlook Hmid).
  cbn [obind].
  destruct (parts_along_dimension w =? 0) eqn:E.
  { apply Nat.eqb_eq in E. lia. }
  simpl. rewrite final_paths_take by lia.
  rewrite firstn_all. reflexivity.
Qed.

Lemma intermediate_zero_throws (parts_along_dimension : DimensionPartsFun)
      (dimensions : ArrayDimensions) (mids : list ZarrDimension)
      (start : nat) (paths_queue : list string) :
  (forall k dim, mids !! k = Some dim -> dimensions !! (start + k) = Some dim) ->
  Exists (fun dim => parts_along_dimension dim = 0) mids ->
  foldM (fun i paths_queue =>
           match dimensions !! i with
           | None => Throws "out_of_range"
           | Some dim =>
               let n_parts := parts_along_dimension dim in
               let* _ := CHECK (negb (n_parts =? 0)) in
               expand_queue (length paths_queue) n_parts paths_queue
           end)
        (seq start (length mids)) paths_queue
  = Throws "Expression evaluated as false".
Proof.
  revert start paths_queue.
  induction mids as [|dim mids IH]; intros start q Hlook Hzero.
  { inversion Hzero. }
  pose proof (Hlook 0 dim eq_refl) as H0. rewrite Nat.add_0_r in H0.
  cbn [length seq foldM]. rewrite H0.
  destruct (parts_along_dimension dim) as [|n] eqn:En; [reflexivity|].
  cbn [Nat.eqb negb CHECK EXPECT obind].
  rewrite expand_queue_all. cbn [obind].
  apply IH.
  - intros k d Hk. specialize (Hlook (S k) d Hk).
    now replace (S start + k) with (start + S k) by lia.
  - inversion Hzero as [? ? Hd|? ? Hr]; subst; [lia|exact Hr].
Qed.

(** The two ways a call on at least two dimensions ends. *)
Lemma construct_data_paths_cases (base_path : string) (d0 : ZarrDimension)
      (mids : list ZarrDimension) (w : ZarrDimension)
      (parts_along_dimension : DimensionPartsFun) :
  (Forall (fun dim => 0 < parts_along_dimension dim) (mids ++ [w])
   /\ construct_data_paths base_path (d0 :: mids ++ [w]) parts_along_dimension
      = Returns
          (flat_map (fun path => map (fun j => path +:+ "/" +:+ to_string j)
                                     (seq 0 (parts_along_dimension w)))
             (fold_left (fun q dim => children (parts_along_dimension dim) q)
                        mids [base_path])))
  \/ (Exists (fun dim => parts_along_dimension dim = 0) (mids ++ [w])
      /\ construct_data_paths base_path (d0 :: mids ++ [w]) parts_along_dimension
         = Throws "Expression evaluated as false").
Proof.
  destruct (decide (Forall (fun dim => 0 < parts_along_dimension dim) (mids ++ [w])))
    as [Hpos|Hneg].
  { left. split; [exact Hpos|]. now apply construct_data_paths_queue. }
  right.
  assert (Hzero : Exists (fun dim => parts_along_dimension dim = 0) (mids ++ [w])).
  { apply not_Forall_Exists in Hneg; [|intros d; apply _].
    eapply Exists_impl; [exact Hneg|]. intros d Hd. simpl in Hd. lia. }
  split; [exact Hzero|].
  destruct (dimensions_split (d0 :: mids ++ [w]))
    as (d0' & mids' & w' & E & Hwidth & Hcount & Hlook).
  { unfold ndims. simpl. rewrite length_app. simpl. lia. }
  injection E as <- E. apply app_inj_tail in E as [<- <-].
  unfold construct_data_paths, intermediate_paths. rewrite Hwidth, Hcount.
  destruct (decide (Forall (fun dim => 0 < parts_along_dimension dim) mids))
    as [Hmid|Hmid].
  - rewrite (foldM_intermediate parts_along_dimension _ mids 1 _ Hlook Hmid).
    cbn [obind].
    apply Exists_app in Hzero as [Hz|Hz].
    + exfalso. apply Exists_exists in Hz as (d & Hd & Hd0).
      rewrite Forall_forall in Hmid. specialize (Hmid d Hd). lia.
    + inversion Hz as [? ? Hw0|? ? Hnil]; subst; [|inversion Hnil].
      rewrite Hw0. reflexivity.
  - rewrite (intermediate_zero_throws parts_along_dimension _ mids 1 _ Hlook);
      [reflexivity|].
    apply not_Forall_Exists in Hmid; [|intros d; apply _].
    eapply Exists_impl; [exact Hmid|]. intros d Hd. simpl in Hd. lia.
Qed.

(** X3. The paths [construct_data_paths] returns are pairwise distinct:
    no two chunks or shards share a file. *)
Theorem construct_data_paths_distinct
    (base_path : string) (dimensions : ArrayDimensions)
    (parts_along_dimension : DimensionPartsFun) (paths : list string) :
  2 <= ndims dimensions ->
  construct_data_paths base_path dimensions parts_along_dimension = Returns paths ->
  NoDup paths.
Proof.
  intros Hn Hret.
  destruct (dimensions_split dimensions Hn)
    as (d0 & mids & w & -> & Hwidth & Hcount & Hlook).
  destruct (construct_data_paths_cases base_path d0 mids w parts_along_dimension)
    as [[_ E]|[_ E]]; rewrite E in Hret; [|done].
  injection Hret as <-. apply NoDup_final.
  generalize (NoDup_singleton base_path).
  generalize [base_path]. clear.
  induction mids as [|dim mids IH]; intros q Hq; simpl; [done|].
  apply IH. now apply NoDup_children.
Qed.

Lemma construct_data_paths_distinct_witness :
  NoDup ["root/0/0"; "root/0/1"; "root/0/2"; "root/1/0"; "root/1/1"; "root/1/2"]%string.
Proof.
  apply (construct_data_paths_distinct "root"
           [ Build_ZarrDimension "t" (Enumerator ZarrDimensionType_Time) 0 5 1;
             Build_ZarrDimension "y" (Enumerator ZarrDimensionType_Space) 4 2 1;
             Build_ZarrDimension "x" (Enumerator ZarrDimensionType_Space) 6 2 1 ]
           (fun d => array_size_px d / chunk_size_px d)).
  - simpl. lia.
  - reflexivity.
Defined.

(** X4. When a dimension other than the first has zero parts,
    [construct_data_paths] throws instead of returning paths. *)
Theorem construct_data_paths_zero_parts_throws
    (base_path : string) (dimensions : ArrayDimensions)
    (parts_along_dimension : DimensionPartsFun) :
  2 <= ndims dimensions ->
  Exists (fun dim => parts_along_dimension dim = 0) (tail dimensions) ->
  exists what,
    construct_data_paths base_path dimensions parts_along_dimension = Throws what.
Proof.
  intros Hn Hzero.
  destruct (dimensions_split dimensions Hn)
    as (d0 & mids & w & -> & Hwidth & Hcount & Hlook).
  cbn [tail] in Hzero.
  destruct (construct_data_paths_cases base_path d0 mids w parts_along_dimension)
    as [[Hpos _]|[_ E]]; [|eauto].
  exfalso. apply Exists_exists in Hzero as (d & Hd & Hd0).
  rewrite Forall_forall in Hpos. specialize (Hpos d Hd). lia.
Qed.

Lemma construct_data_paths_zero_parts_throws_witness :
  exists what,
    construct_data_paths "root"
      [ Build_ZarrDimension "t" (Enumerator ZarrDimensionType_Time) 0 5 1;
        Build_ZarrDimension "y" (Enumerator ZarrDimensionType_Space) 4 8 1;
        Build_ZarrDimension "x" (Enumerator ZarrDimensionType_Space) 6 2 1 ]
      (fun d => array_size_px d / chunk_size_px d) = Throws what.
Proof.
  apply (construct_data_paths_zero_parts_throws "root"
           [ Build_ZarrDimension "t" (Enumerator ZarrDimensionType_Time) 0 5 1;
             Build_ZarrDimension "y" (Enumerator ZarrDimensionType_Space) 4 8 1;
             Build_ZarrDimension "x" (Enumerator ZarrDimensionType_Space) 6 2 1 ]
           (fun d => array_size_px d / chunk_size_px d)).
  - simpl. lia.
  - apply Exists_cons_hd. reflexivity.
Defined.

(** X5. [construct_data_paths] never looks at the first (append)
    dimension: replacing it, or changing the number of parts along it,
    changes nothing. *)
Theorem construct_data_paths_ignores_append_dimension
    (base_path : string) (d0 d0' : ZarrDimension) (rest : list ZarrDimension)
    (parts_along_dimension parts_along_dimension' : DimensionPartsFun) :
  rest <> [] ->
  (forall dim, dim ∈ rest -> parts_along_dimension' dim = parts_along_dimension dim) ->
  construct_data_paths base_path (d0' :: rest) parts_along_dimension'
  = construct_data_paths base_path (d0 :: rest) parts_along_dimension.
Proof.
  intros Hrest Hparts.
  assert (Hn : forall d, 2 <= ndims (d :: rest)).
  { intros d. unfold ndims. destruct rest; [done|]. simpl. lia. }
  destruct (dimensions_split (d0 :: rest) (Hn d0))
    as (? & mids & w & [= <- ->] & Hwidth & Hcount & Hlook).
  destruct (dimensions_split (d0' :: mids ++ [w]) (Hn d0'))
    as (? & mids' & w' & [= <- E] & Hwidth' & Hcount' & Hlook').
  apply app_inj_tail in E as [<- <-].
  unfold construct_data_paths, intermediate_paths.
  rewrite Hwidth, Hwidth', Hcount, Hcount'.
  rewrite (Hparts w) by (apply elem_of_app; right; apply list_elem_of_here).
  f_equal.
  apply foldM_ext. intros i q Hi.
  apply in_seq in Hi. destruct i as [|i]; [lia|].
  change ((d0' :: mids ++ [w]) !! S i) with ((mids ++ [w]) !! i).
  change ((d0 :: mids ++ [w]) !! S i) with ((mids ++ [w]) !! i).
  destruct ((mids ++ [w]) !! i) as [dim|] eqn:Ei; [|reflexivity].
  rewrite (Hparts dim); [reflexivity|]. eapply list_elem_of_lookup_2. exact Ei.
Qed.

Lemma construct_data_paths_ignores_append_dimension_witness :
  construct_data_paths "root"
    [ Build_ZarrDimension "z" (Enumerator ZarrDimensionType_Space) 100 1 1;
      Build_ZarrDimension "y" (Enumerator ZarrDimensionType_Space) 4 2 1;
      Build_ZarrDimension "x" (Enumerator ZarrDimensionType_Space) 6 2 1 ]
    (fun d => array_size_px d / chunk_size_px d)
  = construct_data_paths "root"
      [ Build_ZarrDimension "t" (Enumerator ZarrDimensionType_Time) 0 5 1;
        Build_ZarrDimension "y" (Enumerator ZarrDimensionType_Space) 4 2 1;
        Build_ZarrDimension "x" (Enumerator ZarrDimensionType_Space) 6 2 1 ]
      (fun d => array_size_px d / chunk_size_px d).
Proof.
  apply (construct_data_paths_ignores_append_dimension "root"
           (Build_ZarrDimension "t" (Enumerator ZarrDimensionType_Time) 0 5 1)
           (Build_ZarrDimension "z" (Enumerator ZarrDimensionType_Space) 100 1 1)).
  - discriminate.
  - reflexivity.
Defined.

Lemma prefix_empty (b : string) : String.prefix "" b = true.
Proof. now destruct b. Qed.

Lemma prefix_refl (a : string) : String.prefix a a = true.
Proof.
  induction a as [|c a IH]; [reflexivity|].
  simpl. destruct (ascii_dec c c); [exact IH|done].
Qed.

Lemma prefix_append (a b c : string) :
  String.prefix a b = true -> String.prefix a (b +:+ c) = true.
Proof.
  revert a. induction b as [|y b IH]; intros [|x a] Hab;
    try apply prefix_empty; [discriminate Hab|].
  change (String y b +:+ c) with (String y (b +:+ c)).
  simpl in *. destruct (ascii_dec x y); [now apply IH|discriminate Hab].
Qed.

Lemma push_index_prefix (base path : string) (k : nat) :
  String.prefix base path = true -> String.prefix base (push_index path k) = true.
Proof. intros Hp. unfold push_index. now apply prefix_append. Qed.

(** X6. Every path [construct_data_paths] returns starts with the base
    path. *)
Theorem construct_data_paths_under_base
    (base_path : string) (dimensions : ArrayDimensions)
    (parts_along_dimension : DimensionPartsFun) (paths : list string) :
  2 <= ndims dimensions ->
  construct_data_paths base_path dimensions parts_along_dimension = Returns paths ->
  Forall (fun path => String.prefix base_path path = true) paths.
Proof.
  intros Hn Hret.
  destruct (dimensions_split dimensions Hn)
    as (d0 & mids & w & -> & Hwidth & Hcount & Hlook).
  destruct (construct_data_paths_cases base_path d0 mids w parts_along_dimension)
    as [[_ E]|[_ E]]; rewrite E in Hret; [|done].
  injection Hret as <-.
  assert (Hq : Forall (fun path => String.prefix base_path path = true)
                 (fold_left (fun q dim => children (parts_along_dimension dim) q)
                            mids [base_path])).
  { assert (Hq0 : Forall (fun path => String.prefix base_path path = true)
                    [base_path]).
    { constructor; [apply prefix_refl|constructor]. }
    revert Hq0.
    generalize [base_path]. clear.
    induction mids as [|dim mids IH]; intros q Hq; simpl; [done|].
    apply IH. unfold children. apply Forall_flat_map.
    eapply Forall_impl; [exact Hq|]. intros p Hp.
    apply Forall_map, Forall_forall. intros k _. now apply push_index_prefix. }
  apply Forall_flat_map. eapply Forall_impl; [exact Hq|]. intros p Hp.
  apply Forall_map, Forall_forall. intros k _. simpl. now apply prefix_append.
Qed.

Lemma construct_data_paths_under_base_witness :
  Forall (fun path => String.prefix "root" path = true)
    ["root/0/0"; "root/0/1"; "root/0/2"; "root/1/0"; "root/1/1"; "root/1/2"]%string.
Proof.
  apply (construct_data_paths_under_base "root"
           [ Build_ZarrDimension "t" (Enumerator ZarrDimensionType_Time) 0 5 1;
             Build_ZarrDimension "y" (Enumerator ZarrDimensionType_Space) 4 2 1;
             Build_ZarrDimension "x" (Enumerator ZarrDimensionType_Space) 6 2 1 ]
           (fun d => array_size_px d / chunk_size_px d)).
  - simpl. lia.
  - reflexivity.
Defined.

(** ** Sinks (sink.cpp) and custom metadata *)

Lemma substring_all (s : string) : substring 0 (String.length s) s = s.
Proof. induction s as [|c s IH]; [reflexivity|]. simpl. now rewrite IH. Qed.

Lemma strip_file_scheme_scheme (path : string) :
  strip_file_scheme ("file://" +:+ path) = path.
Proof.
  unfold strip_file_scheme.
  change ("file://" +:+ path)
    with (String "f" (String "i" (String "l" (String "e" (String ":"
            (String "/" (String "/" path))))))).
  assert (Hp : forall t, String.prefix "file://"
                 (String "f" (String "i" (String "l" (String "e" (String ":"
                    (String "/" (String "/" t))))))) = true).
  { intros t. simpl. now destruct t. }
  rewrite Hp. cbn [String.length].
  replace (S (S (S (S (S (S (S (String.length path))))))) - 7)
    with (String.length path) by lia.
  cbn [substring]. apply substring_all.
Qed.

Lemma strip_file_scheme_plain (path : string) :
  String.prefix "file://" path = false -> strip_file_scheme path = path.
Proof. intros Hp. unfold strip_file_scheme. now rewrite Hp. Qed.

Section SinkFacts.
Context {K : Type} `{SinkOps K}.

(** X7. [make_file_sink] takes one leading [file://] off its argument:
    on [file://] followed by a path that bears no scheme of its own it does
    what it does on the path. *)
Theorem make_file_sink_strips_scheme (file_path : string) (w : World) :
  String.prefix "file://" file_path = false ->
  make_file_sink (K := K) ("file://" +:+ file_path) w = make_file_sink file_path w.
Proof.
  intros Hp. unfold make_file_sink.
  now rewrite strip_file_scheme_scheme, strip_file_scheme_plain.
Qed.

Lemma create_directories_keeps (w w' : World) (p : string) created ec :
  fs_create_directories w p = (w', created, ec) ->
  cwd w' = cwd w
  /\ forall q node, files w !! q = Some node -> files w' !! q = Some node.
Proof.
  unfold fs_create_directories.
  destruct (String.eqb p ""); [intros [= <- _ _]; done|].
  destruct (fs_is_directory w p); [intros [= <- _ _]; done|].
  destruct (make_directories (files w) (io_errors w) (start_of w p)
              (path_names p) false) as [[f made] ec'] eqn:Em.
  intros [= <- _ _]. split; [reflexivity|].
  intros q node Hq. cbn [files set_files].
  destruct (make_directories_keeps _ _ _ _ _ _ _ _ Em q) as [Hk|[Hk _]];
    congruence.
Qed.

(** X8. [make_file_sink] on a bare file name, one without a directory
    part, makes no sink: it returns null and leaves the filesystem alone,
    because the empty parent path is no directory and cannot be created.
    On any path, given a file sink whose constructor touches nothing but
    the file it opens, every entry that exists before the call, the file
    itself apart, exists unchanged after it: [make_file_sink] itself only
    adds directories. *)
Theorem make_file_sink_keeps_files (file_path : string) (w w' : World)
    (r : outcome (option K)) :
  (forall path w0 w1 made q,
      new_FileSink path w0 = (w1, made) ->
      q <> fs_location w0 path -> files w1 !! q = files w0 !! q) ->
  make_file_sink file_path w = (w', r) ->
  let path := strip_file_scheme file_path in
  (path <> ""%string -> parent_path path = ""%string ->
   w' = w /\ r = Returns None)
  /\ (forall q node, files w !! q = Some node -> q <> fs_location w path ->
                     files w' !! q = Some node).
Proof.
  intros Hctor. unfold make_file_sink. cbn zeta.
  set (path := strip_file_scheme file_path).
  destruct (String.eqb path "") eqn:Ee.
  { apply String.eqb_eq in Ee. intros [= <- <-]. split; done. }
  intros Hm. split.
  - intros _ Hparent. rewrite Hparent in Hm.
    change (fs_is_directory w "") with false in Hm.
    change (fs_create_directories w "")
      with (w, false, Some "Invalid argument"%string) in Hm.
    cbn [negb] in Hm. now injection Hm as <- <-.
  - revert Hm.
    destruct (fs_is_directory w (parent_path path)); cbn [negb].
    + destruct (new_FileSink path w) as [w1 made] eqn:En.
      intros [= <- _] q node Hq Hne. now rewrite (Hctor _ _ _ _ q En Hne).
    + destruct (fs_create_directories w (parent_path path))
        as [[w1 created] ec] eqn:Ec.
      destruct (create_directories_keeps _ _ _ _ _ Ec) as [Hcwd Hkeep].
      destruct created; cbn [negb].
      * destruct (new_FileSink path w1) as [w2 made] eqn:En.
        intros [= <- _] q node Hq Hne.
        rewrite (Hctor _ _ _ _ q En).
        -- now apply Hkeep.
        -- unfold fs_location, start_of in *. now rewrite Hcwd.
      * intros [= <- _] q node Hq _. now apply Hkeep.
Qed.

End SinkFacts.

Lemma open_file_touches_its_file (path : string) (w0 w1 : World)
      (made : outcome TestSink) (q : list string) :
  open_file path w0 = (w1, made) ->
  q <> fs_location w0 path -> files w1 !! q = files w0 !! q.
Proof.
  unfold open_file.
  destruct (negb (fs_is_directory w0 _)); [now intros [= <- _]|].
  destruct (fs_status w0 path) as [[wr|content]|]; try (now intros [= <- _]).
  destruct (has_trailing_separator path); [now intros [= <- _]|].
  intros [= <- _] Hq. cbn [files set_files]. now rewrite lookup_insert_ne.
Qed.

Lemma make_file_sink_strips_scheme_witness :
  make_file_sink (K := TestSink) "file://out.zarr/acquire.json" empty_world
  = make_file_sink "out.zarr/acquire.json" empty_world.
Proof.
  apply (make_file_sink_strips_scheme "out.zarr/acquire.json" empty_world).
  reflexivity.
Defined.

Lemma make_file_sink_keeps_files_witness :
  let made := make_file_sink (K := TestSink) "acquire.json" used_world in
  ("acquire.json"%string <> ""%string -> parent_path "acquire.json" = ""%string ->
   made.1 = used_world /\ made.2 = Returns None)
  /\ (forall q node, files used_world !! q = Some node ->
                     q <> fs_location used_world "acquire.json" ->
                     files made.1 !! q = Some node).
Proof.
  intros made.
  apply (make_file_sink_keeps_files (K := TestSink) (H := TestSink_ops)
           "acquire.json" used_world made.1 made.2
           open_file_touches_its_file).
  vm_compute. reflexivity.
Defined.

Section CustomMetadataFirstCall.
Context {W K : Type} `{ArrayWriterOps W} `{SinkOps K} `{JsonLib} `{StringLib}.

Lemma with_metadata_sinks_twice (m m' : gmap string (option K)) (s : ZarrStream_s W K) :
  with_metadata_sinks_ m (with_metadata_sinks_ m' s) = with_metadata_sinks_ m s.
Proof. reflexivity. Qed.

(** X9. When the sink of [acquire.json] cannot be made, the call reports
    an internal error and leaves a null entry under the key.  From then on
    a call without [overwrite] reports WillNotOverwrite although nothing was
    ever written, and a call with [overwrite] reports the internal error
    again: no later call makes the sink. *)
Theorem write_custom_metadata_null_sink_stays
    (s s' : ZarrStream_s W K) (w w' : World)
    (custom_metadata : string) (overwrite : bool) :
  metadata_sinks_ s !! "acquire.json"%string = None ->
  write_custom_metadata custom_metadata overwrite s w
  = (s', w', Returns ZarrStatusCode_InternalError) ->
  metadata_sinks_ s' !! "acquire.json"%string = Some None
  /\ forall (later : string) (w2 : World),
       validate_custom_metadata later = true ->
       write_custom_metadata later false s' w2
       = (s', w2, Returns ZarrStatusCode_WillNotOverwrite)
       /\ write_custom_metadata later true s' w2
          = (s', w2, Returns ZarrStatusCode_InternalError).
Proof.
  intros Hkey Hcall.
  assert (Hnull : metadata_sinks_ s' !! "acquire.json"%string = Some None).
  { unfold write_custom_metadata in Hcall.
    destruct (validate_custom_metadata custom_metadata); cbn [negb] in Hcall;
      [|done].
    rewrite Hkey in Hcall.
    rewrite bool_decide_eq_false_2 in Hcall by (intros [? ?]; done).
    cbn [negb] in Hcall.
    destruct (match s3_settings_ s with
              | Some s3 => _
              | None => _
              end) as [w1 made] in Hcall.
    destruct made as [sink| | |]; try done.
    cbn [metadata_sinks_ with_metadata_sinks_] in Hcall.
    rewrite lookup_insert_eq in Hcall.
    destruct sink as [k|].
    - destruct (json_parse custom_metadata); [|done].
      destruct (sink_write k 0 _) as [k' [|]]; done.
    - injection Hcall as <- _. cbn [metadata_sinks_ with_metadata_sinks_].
      apply lookup_insert_eq. }
  split; [exact Hnull|].
  intros later w2 Hvalid. unfold write_custom_metadata.
  rewrite Hvalid, Hnull. cbn [negb].
  rewrite bool_decide_eq_true_2 by eauto. cbn [negb].
  rewrite Hnull. done.
Qed.

(** X10. The first call on a filesystem stream makes the sink at
    [<store path>/acquire.json] and writes the document there whatever the
    [overwrite] flag: Success when the write succeeds, IOError otherwise,
    and in both cases the sink stays under the key. *)
Theorem write_custom_metadata_first_call
    (s : ZarrStream_s W K) (w w' : World) (sink sink' : K) (ok : bool)
    (custom_metadata : string) (metadata_json : json) (overwrite : bool) :
  metadata_sinks_ s !! "acquire.json"%string = None ->
  s3_settings_ s = None ->
  custom_metadata <> ""%string ->
  json_parse custom_metadata = Some metadata_json ->
  make_file_sink (custom_metadata_path s) w = (w', Returns (Some sink)) ->
  sink_write sink 0 (list_byte_of_string (json_dump metadata_json 4))
  = (sink', ok) ->
  write_custom_metadata custom_metadata overwrite s w
  = (with_metadata_sinks_
       (<["acquire.json"%string := Some sink']> (metadata_sinks_ s)) s,
     w',
     Returns (if ok then ZarrStatusCode_Success else ZarrStatusCode_IOError)).
Proof.
  intros Hkey Hfs Hne Hparse Hmake Hwrite.
  unfold write_custom_metadata.
  rewrite (validate_custom_metadata_true _ _ Hne Hparse). cbn [negb].
  rewrite Hkey, Hfs.
  rewrite bool_decide_eq_false_2 by (intros [? ?]; done). cbn [negb].
  unfold custom_metadata_path in Hmake. rewrite Hmake.
  cbn [metadata_sinks_ with_metadata_sinks_].
  rewrite lookup_insert_eq, Hparse, Hwrite.
  rewrite with_metadata_sinks_twice, insert_insert_eq.
  now destruct ok.
Qed.

End CustomMetadataFirstCall.

Lemma write_custom_metadata_null_sink_stays_witness :
  let s := test_stream 2 ZarrDataType_uint8 dims_S1 false (48 * 48) 1 in
  let s' := (write_custom_metadata "{}" true s blocked_world).1.1 in
  metadata_sinks_ s' !! "acquire.json"%string = Some None
  /\ forall (later : string) (w2 : World),
       validate_custom_metadata later = true ->
       write_custom_metadata later false s' w2
       = (s', w2, Returns ZarrStatusCode_WillNotOverwrite)
       /\ write_custom_metadata later true s' w2
          = (s', w2, Returns ZarrStatusCode_InternalError).
Proof.
  apply (write_custom_metadata_null_sink_stays
           (test_stream 2 ZarrDataType_uint8 dims_S1 false (48 * 48) 1) _
           blocked_world blocked_world "{}" true).
  - vm_compute. reflexivity.
  - vm_compute. reflexivity.
Defined.

Lemma write_custom_metadata_first_call_witness :
  let s := test_stream 2 ZarrDataType_uint8 dims_S1 false (48 * 48) 1 in
  let sink' := {| contents := list_byte_of_string "{}"; broken := false |} in
  let w' := set_files
              (<[ ["work"; "out.zarr"; "acquire.json"]%string := RegularFile [] ]>
                 (files used_world)) used_world in
  write_custom_metadata "{}" false s used_world
  = (with_metadata_sinks_
       (<["acquire.json"%string := Some sink']> (metadata_sinks_ s)) s,
     w', Returns ZarrStatusCode_Success).
Proof.
  apply (write_custom_metadata_first_call
           (test_stream 2 ZarrDataType_uint8 dims_S1 false (48 * 48) 1)
           used_world
           (set_files
              (<[ ["work"; "out.zarr"; "acquire.json"]%string := RegularFile [] ]>
                 (files used_world)) used_world)
           {| contents := []; broken := false |}
           {| contents := list_byte_of_string "{}"; broken := false |} true
           "{}" (JObject []) false).
  - vm_compute. reflexivity.
  - reflexivity.
  - discriminate.
  - reflexivity.
  - vm_compute. reflexivity.
  - reflexivity.
Defined.

(** ** Tear-down (zarr.stream.cpp, sink.cpp) *)

Section FinalizeFacts.
Context {W K : Type} `{ArrayWriterOps W} `{SinkOps K} `{JsonLib} `{StringLib}.

Lemma finalize_sinks_verdict (entries : list (string * option K))
      (sinks : gmap string (option K)) :
  (finalize_sinks entries sinks).2 = true
  <-> forall key sink, (key, Some sink) ∈ entries -> (flush_ sink).2 = true.
Proof.
  revert sinks. induction entries as [|[key [k|]] entries IH]; intros sinks.
  - split; [|done]. intros _ key sink Hin. inversion Hin.
  - cbn [finalize_sinks finalize_sink].
    destruct (flush_ k) as [k' ok] eqn:Ek. destruct ok; cbn [negb].
    + rewrite IH. split.
      * intros Hall key' sink Hin. apply elem_of_cons in Hin as [[= -> ->]|Hin];
          [now rewrite Ek|now apply (Hall key')].
      * intros Hall key' sink Hin. apply (Hall key'). now apply list_elem_of_further.
    + split; [done|]. intros Hall.
      specialize (Hall key k (list_elem_of_here _ _)). now rewrite Ek in Hall.
  - cbn [finalize_sinks finalize_sink negb]. rewrite IH. split.
    + intros Hall key' sink Hin. apply elem_of_cons in Hin as [[= ]|Hin].
      now apply (Hall key').
    + intros Hall key' sink Hin. apply (Hall key'). now apply list_elem_of_further.
Qed.

Lemma finalize_arrays_verdict (writers : list W) :
  finalize_arrays writers = true
  <-> Forall (fun w => finalize_array w = true) writers.
Proof.
  induction writers as [|w writers IH]; [done|].
  cbn [finalize_arrays]. destruct (finalize_array w) eqn:Ew; cbn [negb].
  - rewrite IH. split; [now constructor|]. now inversion 1.
  - split; [done|]. inversion 1. congruence.
Qed.

(** What [finalize_stream] does once the group metadata is written. *)
Lemma finalize_stream_after_metadata (s s1 : ZarrStream_s W K) :
  write_group_metadata_ s = (s1, Returns true) ->
  finalize_stream (Some s)
  = let '(sinks, ok) :=
      finalize_sinks (map_to_list (metadata_sinks_ s1)) (metadata_sinks_ s1) in
    if negb ok then (Some (with_metadata_sinks_ sinks s1), Returns false) else
    if negb (finalize_arrays (writers_ s1))
    then (Some (with_metadata_sinks_ ∅ s1), Returns false)
    else (Some (with_writers_ [] (with_metadata_sinks_ ∅ s1)), Returns true).
Proof.
  intros Hmeta. unfold finalize_stream, bind. rewrite Hmeta. cbn [negb].
  destruct (finalize_sinks _ _) as [sinks [|]]; cbn [negb]; [|reflexivity].
  cbn [writers_ with_metadata_sinks_].
  destruct (finalize_arrays (writers_ s1)); reflexivity.
Qed.

Lemma finalize_stream_metadata_returns (s s' : ZarrStream_s W K) :
  finalize_stream (Some s) = (Some s', Returns true) ->
  exists s1, write_group_metadata_ s = (s1, Returns true).
Proof.
  unfold finalize_stream, bind. intros Hf.
  destruct (write_group_metadata_ s) as [s1 [[|]| | |]]; try done.
  now exists s1.
Qed.

(** X11. A stream is finalized once.  After [finalize_stream] has
    returned true, the stream holds no metadata sink and no writer; a second
    [finalize_stream] throws (the lookup of the group metadata sink fails),
    and an [append] that completes a frame indexes the empty vector of
    writers, which is undefined. *)
Theorem finalize_stream_is_final (s s' : ZarrStream_s W K) :
  finalize_stream (Some s) = (Some s', Returns true) ->
  metadata_sinks_ s' = ∅
  /\ writers_ s' = []
  /\ (exists what, finalize_stream (Some s') = (Some s', Throws what))
  /\ forall input,
       error_ s' = ""%string ->
       frame_buffer_offset_ s' = 0 ->
       0 < length (frame_buffer_ s') <= length input ->
       (append input s').2 = Undefined.
Proof.
  intros Hf.
  destruct (finalize_stream_metadata_returns _ _ Hf) as [s1 Hmeta].
  rewrite (finalize_stream_after_metadata _ _ Hmeta) in Hf.
  destruct (finalize_sinks _ _) as [sinks [|]]; cbn [negb] in Hf; [|done].
  destruct (finalize_arrays (writers_ s1)); cbn [negb] in Hf; [|done].
  injection Hf as <-.
  split; [reflexivity|]. split; [reflexivity|]. split.
  - exists "out_of_range"%string.
    unfold finalize_stream, bind, write_group_metadata_, write_to_metadata_sink.
    cbn [version_ metadata_sinks_ with_writers_ with_metadata_sinks_].
    destruct (version_ s1 =? 2); rewrite lookup_empty; reflexivity.
  - intros input Herr Hoff [HF Hlen].
    cbn [error_ frame_buffer_offset_ frame_buffer_ with_writers_
           with_metadata_sinks_] in Herr, Hoff, HF, Hlen.
    unfold append, bind, lift.
    cbn [error_ frame_buffer_ with_writers_ with_metadata_sinks_].
    rewrite Herr. cbn [String.eqb EXPECT].
    destruct (length input =? 0) eqn:En; [apply Nat.eqb_eq in En; lia|].
    replace (length input + 2) with (S (length input + 1)) by lia.
    assert (Hpos : (0 <? length input) = true) by (apply Nat.ltb_lt; lia).
    assert (Hfull : (length input - 0 <? length (frame_buffer_ s1)) = false)
      by (apply Nat.ltb_ge; lia).
    cbn [append_loop]. rewrite Hpos. cbn [negb]. cbv beta.
    cbn [frame_buffer_offset_ with_writers_ with_metadata_sinks_].
    rewrite Hoff, (Nat.ltb_irrefl 0). cbv iota. rewrite Hfull.
    unfold bind, write_frame_, bind, writer_write_frame.
    cbn [writers_ with_writers_ with_metadata_sinks_ lookup list_lookup].
    reflexivity.
Qed.

(** X12. Once the group metadata is written, [finalize_stream] returns
    true exactly when every metadata sink flushes and every array writer
    finalizes; when the group metadata cannot be written it returns false
    without flushing anything. *)
Theorem finalize_stream_verdict (s s1 : ZarrStream_s W K) (written : bool) :
  write_group_metadata_ s = (s1, Returns written) ->
  ((finalize_stream (Some s)).2 = Returns true
   <-> written = true
       /\ (forall key sink, metadata_sinks_ s1 !! key = Some (Some sink) ->
                            (flush_ sink).2 = true)
       /\ Forall (fun w => finalize_array w = true) (writers_ s1))
  /\ (written = false -> finalize_stream (Some s) = (Some s1, Returns false)).
Proof.
  intros Hmeta. destruct written.
  2: { split; [|intros _; unfold finalize_stream, bind; now rewrite Hmeta].
       unfold finalize_stream, bind. rewrite Hmeta. cbn [negb]. split; [done|].
       now intros [? _]. }
  split; [|done].
  rewrite (finalize_stream_after_metadata _ _ Hmeta).
  pose proof (finalize_sinks_verdict (map_to_list (metadata_sinks_ s1))
                (metadata_sinks_ s1)) as Hsinks.
  pose proof (finalize_arrays_verdict (writers_ s1)) as Harrays.
  destruct (finalize_sinks _ _) as [sinks ok]. cbn [snd] in Hsinks.
  assert (Hlist : (forall key sink, (key, Some sink) ∈ map_to_list (metadata_sinks_ s1)
                                    -> (flush_ sink).2 = true)
                  <-> (forall key sink, metadata_sinks_ s1 !! key = Some (Some sink)
                                        -> (flush_ sink).2 = true)).
  { split; intros Hall key sink Hk; apply (Hall key);
      now apply elem_of_map_to_list. }
  rewrite Hlist in Hsinks.
  destruct ok; cbn [negb].
  - destruct (finalize_arrays (writers_ s1)); cbn [negb snd].
    + split; [|done]. intros _. split; [done|]. split; [now apply Hsinks|].
      now apply Harrays.
    + split; [done|]. intros (_ & _ & Hw). apply Harrays in Hw. done.
  - cbn [snd]. split; [done|]. intros (_ & Hs & _). apply Hsinks in Hs. done.
Qed.

End FinalizeFacts.

Lemma finalize_stream_is_final_witness :
  let s := test_stream 2 ZarrDataType_uint8 dims_2x2 false 4 1 in
  let s' := with_writers_ [] (with_metadata_sinks_ ∅ s) in
  metadata_sinks_ s' = ∅
  /\ writers_ s' = []
  /\ (exists what, finalize_stream (Some s') = (Some s', Throws what))
  /\ forall input,
       error_ s' = ""%string ->
       frame_buffer_offset_ s' = 0 ->
       0 < length (frame_buffer_ s') <= length input ->
       (append input s').2 = Undefined.
Proof.
  apply (finalize_stream_is_final
           (test_stream 2 ZarrDataType_uint8 dims_2x2 false 4 1)).
  vm_compute. reflexivity.
Defined.

Lemma finalize_stream_verdict_witness :
  let s := test_stream 2 ZarrDataType_uint8 dims_2x2 false 4 1 in
  let s1 := (write_group_metadata_ s).1 in
  ((finalize_stream (Some s)).2 = Returns true
   <-> true = true
       /\ (forall key sink, metadata_sinks_ s1 !! key = Some (Some sink) ->
                            (flush_ sink).2 = true)
       /\ Forall (fun w => finalize_array w = true) (writers_ s1))
  /\ (true = false -> finalize_stream (Some s) = (Some s1, Returns false)).
Proof.
  apply (finalize_stream_verdict
           (test_stream 2 ZarrDataType_uint8 dims_2x2 false 4 1)).
  vm_compute. reflexivity.
Defined.

(** ** Further properties of the OME metadata (zarr.stream.cpp) *)

Lemma json_get_set_other key key' v j :
  key <> key' -> json_get key (json_set key' v j) = json_get key j.
Proof.
  intros Hne. destruct j; try reflexivity.
  - simpl. destruct (String.eqb key' key) eqn:E; [|reflexivity].
    apply String.eqb_eq in E. congruence.
  - simpl. now apply members_get_set_ne.
Qed.

Lemma json_get_set_same key v j :
  is_object j = true -> json_get key (json_set key v j) = Some v.
Proof. destruct j; try done. intros _. simpl. apply members_get_set_eq. Qed.

Lemma is_object_set key v j : is_object j = true -> is_object (json_set key v j) = true.
Proof. now destruct j. Qed.

Lemma json_get_push_other key key' v j :
  key <> key' -> json_get key (json_push_at key' v j) = json_get key j.
Proof. intros Hne. unfold json_push_at. now apply json_get_set_other. Qed.

Lemma is_object_push key v j : is_object j = true -> is_object (json_push_at key v j) = true.
Proof. intros Hj. unfold json_push_at. now apply is_object_set. Qed.

(** The loop over the levels above 0 in [make_ome_metadata_]. *)
Lemma levels_loop_keys (n : nat) (levels : list nat) (m : json) :
  is_object m = true ->
  is_object (fold_left (ome_level_entry n) levels m) = true
  /\ (forall key, key <> "datasets"%string -> key <> "type"%string ->
                  key <> "metadata"%string ->
                  json_get key (fold_left (ome_level_entry n) levels m)
                  = json_get key m)
  /\ json_get "type" (fold_left (ome_level_entry n) levels m)
     = (if bool_decide (levels = []) then json_get "type" m
        else Some (JString "local_mean"))
  /\ json_get "metadata" (fold_left (ome_level_entry n) levels m)
     = (if bool_decide (levels = []) then json_get "metadata" m
        else Some downsampling_metadata).
Proof.
  revert m. induction levels as [|i levels IH]; intros m Hm; cbn [fold_left].
  { repeat split; done. }
  assert (Hm1 : is_object (ome_level_entry n m i) = true).
  { unfold ome_level_entry. now apply is_object_set, is_object_set, is_object_push. }
  destruct (IH _ Hm1) as (Hobj & Hother & Htype & Hmeta).
  split; [exact Hobj|]. split; [|split].
  - intros key H1 H2 H3. rewrite Hother by done. unfold ome_level_entry.
    rewrite !json_get_set_other by done. now apply json_get_push_other.
  - rewrite Htype. rewrite (bool_decide_eq_false_2 (i :: levels = [])) by done.
    assert (Ht1 : json_get "type" (ome_level_entry n m i)
                  = Some (JString "local_mean")).
    { unfold ome_level_entry. rewrite json_get_set_other by done.
      apply json_get_set_same. now apply is_object_push. }
    rewrite Ht1. now destruct (bool_decide (levels = [])).
  - rewrite Hmeta. rewrite (bool_decide_eq_false_2 (i :: levels = [])) by done.
    assert (Ht1 : json_get "metadata" (ome_level_entry n m i)
                  = Some downsampling_metadata).
    { unfold ome_level_entry. apply json_get_set_same.
      now apply is_object_set, is_object_push. }
    rewrite Ht1. now destruct (bool_decide (levels = [])).
Qed.

Lemma ome_axes_step_push (n i : nat) (dim : ZarrDimension) (axes : json) :
  (Z.of_nat n < 2 ^ 64)%Z -> 2 <= n ->
  ome_axes_step n axes (i, dim) = json_push_back (ome_axis n i dim) axes.
Proof.
  intros Hn64 Hn2. unfold ome_axes_step, ome_axis.
  assert (Hsub : size_t_sub n 2 = Z.of_nat (n - 2)).
  { unfold size_t_sub. rewrite Z.mod_small by lia. lia. }
  rewrite Hsub.
  destruct (Z.ltb_spec (Z.of_nat i) (Z.of_nat (n - 2))) as [Hlt|Hge].
  - replace (n - 2 <=? i) with false by (symmetry; apply Nat.leb_gt; lia).
    reflexivity.
  - replace (n - 2 <=? i) with true by (symmetry; apply Nat.leb_le; lia).
    reflexivity.
Qed.

Lemma ome_axes_loop (n : nat) (dims : list ZarrDimension) (start : nat)
      (done : list json) :
  (Z.of_nat n < 2 ^ 64)%Z -> 2 <= n ->
  fold_left (ome_axes_step n) (imap (fun i dim => (start + i, dim)) dims)
            (JArray done)
  = JArray (done ++ imap (fun i => ome_axis n (start + i)) dims).
Proof.
  intros Hn64 Hn2. revert start done.
  induction dims as [|dim dims IH]; intros start done'; cbn [imap fold_left].
  { now rewrite app_nil_r. }
  rewrite ome_axes_step_push by done. cbn [json_push_back].
  rewrite (imap_ext _ (fun i dim0 => (S start + i, dim0)) dims).
  2: { intros i x _. cbn [compose]. f_equal. lia. }
  rewrite IH, <- app_assoc, Nat.add_0_r. cbn [app]. do 3 f_equal.
  apply imap_ext. intros i x _. cbn [compose]. f_equal. lia.
Qed.

Lemma ome_axes_array (dims : list ZarrDimension) :
  (Z.of_nat (ndims dims) < 2 ^ 64)%Z -> 2 <= ndims dims ->
  ome_axes dims = JArray (imap (ome_axis (ndims dims)) dims).
Proof.
  intros Hn64 Hn2.
  change (ome_axes dims)
    with (fold_left (ome_axes_step (ndims dims))
                    (imap (fun i dim => (i, dim)) dims) JNull).
  destruct dims as [|dim dims]; [simpl in Hn2; lia|].
  cbn [imap fold_left].
  rewrite ome_axes_step_push by done. cbn [json_push_back].
  rewrite (imap_ext _ (fun i dim0 => (1 + i, dim0)) dims).
  2: { intros i x _. reflexivity. }
  rewrite (ome_axes_loop (ndims (dim :: dims)) dims 1 _ Hn64 Hn2).
  cbn [app]. do 2 f_equal.
Qed.

Section OmeHeaderFacts.
Context {W K : Type}.

(** [multiscales[0]] as [make_ome_metadata_] builds it. *)
Lemma ome_multiscales_keys (s : ZarrStream_s W K) :
  exists m,
    ome_multiscales (version_ s) (make_ome_metadata_ s) = Some m
    /\ json_get "axes" m = Some (ome_axes (dimensions_ s))
    /\ json_get "type" m
       = (if 1 <? length (writers_ s) then Some (JString "local_mean") else None)
    /\ json_get "metadata" m
       = (if 1 <? length (writers_ s) then Some downsampling_metadata else None)
    /\ json_get "version" m
       = (if version_ s =? ZarrVersion_2 then Some (JString "0.4") else None)
    /\ json_get "name" m
       = (if version_ s =? ZarrVersion_2 then Some (JString "/") else None).
Proof.
  unfold make_ome_metadata_, ome_multiscales.
  set (m0 := json_set "datasets" _ (json_set "axes" _ JNull)).
  assert (Hm0 : is_object m0 = true) by reflexivity.
  destruct (levels_loop_keys (ndims (dimensions_ s))
              (seq 1 (length (writers_ s) - 1)) m0 Hm0)
    as (Hobj & Hother & Htype & Hmeta).
  change (fold_left _ (seq 1 (length (writers_ s) - 1)) m0)
    with (fold_left (ome_level_entry (ndims (dimensions_ s)))
                    (seq 1 (length (writers_ s) - 1)) m0).
  set (m1 := fold_left _ _ m0) in *.
  assert (Hlevels : bool_decide (seq 1 (length (writers_ s) - 1) = [])
                    = negb (1 <? length (writers_ s))).
  { destruct (length (writers_ s)) as [|[|n]]; reflexivity. }
  rewrite Hlevels in Htype, Hmeta.
  change (json_get "type" m0) with (@None json) in Htype.
  change (json_get "metadata" m0) with (@None json) in Hmeta.
  assert (Haxes : json_get "axes" m1 = Some (ome_axes (dimensions_ s))).
  { rewrite Hother by done. reflexivity. }
  assert (Hversion : json_get "version" m1 = None).
  { rewrite Hother by done. reflexivity. }
  assert (Hname : json_get "name" m1 = None).
  { rewrite Hother by done. reflexivity. }
  destruct (version_ s =? ZarrVersion_2) eqn:Ev.
  - eexists. split; [reflexivity|].
    rewrite !json_get_set_other by done.
    split; [exact Haxes|]. split.
    { rewrite Htype. now destruct (1 <? length (writers_ s)). }
    split.
    { rewrite Hmeta. now destruct (1 <? length (writers_ s)). }
    split.
    + apply json_get_set_same. exact Hobj.
    + apply json_get_set_same. now apply is_object_set.
  - eexists. split; [reflexivity|].
    split; [exact Haxes|]. split.
    { rewrite Htype. now destruct (1 <? length (writers_ s)). }
    split.
    { rewrite Hmeta. now destruct (1 <? length (writers_ s)). }
    split; done.
Qed.

(** X13. The OME metadata lists one axis per dimension, in order, with
    the dimension's name and the name of its type; the last two axes, and
    only they, carry the unit "micrometer". *)
Theorem ome_axes_per_dimension (s : ZarrStream_s W K) :
  2 <= ndims (dimensions_ s) ->
  (Z.of_nat (ndims (dimensions_ s)) < 2 ^ 64)%Z ->
  exists m,
    ome_multiscales (version_ s) (make_ome_metadata_ s) = Some m
    /\ json_get "axes" m
       = Some (JArray (imap (ome_axis (ndims (dimensions_ s))) (dimensions_ s))).
Proof.
  intros Hn2 Hn64.
  destruct (ome_multiscales_keys s) as (m & Hm & Haxes & _).
  exists m. split; [exact Hm|]. rewrite Haxes. f_equal.
  now apply ome_axes_array.
Qed.

(** X14. The OME metadata names the downsampling method (["type"] and
    ["metadata"]) exactly when the stream has more than one writer.  For
    version 2 the multiscale entry itself carries version "0.4" and name "/";
    otherwise it carries neither, and the enclosing object carries version
    "0.5" and name "/". *)
Theorem ome_downsampling_keys (s : ZarrStream_s W K) :
  exists m,
    ome_multiscales (version_ s) (make_ome_metadata_ s) = Some m
    /\ json_get "type" m
       = (if 1 <? length (writers_ s) then Some (JString "local_mean") else None)
    /\ json_get "metadata" m
       = (if 1 <? length (writers_ s) then Some downsampling_metadata else None)
    /\ (if version_ s =? ZarrVersion_2
        then json_get "version" m = Some (JString "0.4")
             /\ json_get "name" m = Some (JString "/")
        else json_get "version" m = None
             /\ json_get "name" m = None
             /\ json_get "version" (make_ome_metadata_ s) = Some (JString "0.5")
             /\ json_get "name" (make_ome_metadata_ s) = Some (JString "/")).
Proof.
  destruct (ome_multiscales_keys s) as (m & Hm & _ & Htype & Hmeta & Hv & Hn).
  exists m. split; [exact Hm|]. split; [exact Htype|]. split; [exact Hmeta|].
  unfold make_ome_metadata_.
  destruct (version_ s =? ZarrVersion_2); repeat split; done.
Qed.

End OmeHeaderFacts.

Lemma ome_axes_per_dimension_witness :
  let s := test_stream 3 ZarrDataType_uint8
             [ dim "t" ZarrDimensionType_Time 0 5 1;
               dim "c" ZarrDimensionType_Channel 3 1 1;
               dim "y" ZarrDimensionType_Space 128 32 1;
               dim "x" ZarrDimensionType_Space 128 32 1 ]
             true (128 * 128) 3 in
  exists m,
    ome_multiscales 3 (make_ome_metadata_ s) = Some m
    /\ json_get "axes" m
       = Some (JArray
                 [ JObject [("name", JString "t"); ("type", JString "time")];
                   JObject [("name", JString "c"); ("type", JString "channel")];
                   JObject [("name", JString "y"); ("type", JString "space");
                            ("unit", JString "micrometer")];
                   JObject [("name", JString "x"); ("type", JString "space");
                            ("unit", JString "micrometer")] ]%string).
Proof.
  apply (ome_axes_per_dimension
           (test_stream 3 ZarrDataType_uint8
              [ dim "t" ZarrDimensionType_Time 0 5 1;
                dim "c" ZarrDimensionType_Channel 3 1 1;
                dim "y" ZarrDimensionType_Space 128 32 1;
                dim "x" ZarrDimensionType_Space 128 32 1 ]
              true (128 * 128) 3)).
  - simpl. lia.
  - simpl. lia.
Defined.

(** ** The cascade as a counter (zarr.stream.cpp) *)

Section CounterFacts.
Context {W K : Type} `{ArrayWriterOps W} `{SinkOps K} `{JsonLib} `{StringLib}.

(** One level of a cascade that returns: the frame is held, or it is
    averaged with the held one, written, and the cascade goes on. *)
Lemma multiscale_levels_step (T : PixelType) (i : nat) (levels : list nat)
      (data : list byte) (frame_width frame_height : nat) (s s' : ZarrStream_s W K) :
  multiscale_levels T (i :: levels) data frame_width frame_height s
  = (s', Returns tt) ->
  exists dst width' height',
    scale_image T data frame_width frame_height = Returns (dst, width', height')
    /\ ((scaled_frame s i = None
         /\ s' = with_scaled_frames_ (<[i := Some dst]> (scaled_frames_ s)) s)
        \/ exists held averaged w w' n data',
             scaled_frame s i = Some held
             /\ average_two_frames T dst held = Returns averaged
             /\ writers_ s !! i = Some w
             /\ write_frame w averaged = (w', n)
             /\ n <> 0
             /\ multiscale_levels T levels data' width' height'
                  (with_scaled_frames_ (<[i := None]> (scaled_frames_ s))
                     (with_writers_ (<[i := w']> (writers_ s)) s))
                = (s', Returns tt)).
Proof.
  cbn [multiscale_levels]. unfold bind at 1. unfold lift at 1.
  destruct (scale_image T data frame_width frame_height)
    as [[[dst width'] height']| | |]; try done.
  cbv beta iota. intros Hrun. exists dst, width', height'. split; [reflexivity|].
  destruct (scaled_frame s i) as [held|] eqn:Eh.
  - right. revert Hrun. unfold bind at 1. unfold lift at 1.
    destruct (average_two_frames T dst held) as [averaged| | |] eqn:Ea; try done.
    unfold bind at 1. unfold writer_write_frame.
    destruct (writers_ s !! i) as [w|] eqn:Ewr; [|done].
    destruct (write_frame w averaged) as [w' n] eqn:Ew.
    unfold bind at 1. unfold lift at 1.
    destruct (n =? 0) eqn:En; cbn [negb EXPECT]; [done|].
    unfold bind at 1. unfold modify.
    cbn [writers_ with_scaled_frames_ with_writers_ scaled_frames_].
    intros Hrun. apply Nat.eqb_neq in En.
    exists held, averaged, w, w', n. eexists.
    split; [reflexivity|]. split; [exact Ea|]. split; [reflexivity|].
    split; [exact Ew|]. split; [exact En|]. exact Hrun.
  - left. injection Hrun as <-. done.
Qed.

Lemma multiscale_levels_counts (T : PixelType) (n i : nat) (data : list byte)
      (frame_width frame_height : nat) (s s' : ZarrStream_s W K) :
  multiscale_levels T (seq i n) data frame_width frame_height s = (s', Returns tt) ->
  (forall j, i <= j < i + n ->
             (forall k, i <= k < j -> is_Some (scaled_frame s k)) ->
             (scaled_frame s j = None -> is_Some (scaled_frame s' j))
             /\ (is_Some (scaled_frame s j) -> scaled_frame s' j = None))
  /\ (forall j, j < i \/ i + n <= j
                \/ (exists k, i <= k < j /\ scaled_frame s k = None) ->
                scaled_frames_ s' !! j = scaled_frames_ s !! j)
  /\ (forall j, j < i \/ i + n <= j
                \/ (exists k, i <= k <= j /\ scaled_frame s k = None) ->
                writers_ s' !! j = writers_ s !! j).
Proof.
  revert i data frame_width frame_height s.
  induction n as [|n IH]; intros i data fw fh s Hrun.
  { injection Hrun as <-. split; [intros j Hj; lia|]. split; done. }
  cbn [seq] in Hrun.
  apply multiscale_levels_step in Hrun
    as (dst & fw' & fh' & _ & [[Hnone ->]|Hsome]).
  - split; [|split].
    + intros j Hj Hlow. destruct (decide (j = i)) as [->|Hne].
      * split; [|rewrite Hnone; intros [? ?]; done].
        intros _. unfold scaled_frame. cbn [scaled_frames_ with_scaled_frames_].
        rewrite lookup_insert_eq. eauto.
      * specialize (Hlow i ltac:(lia)). rewrite Hnone in Hlow.
        destruct Hlow; done.
    + intros j Hj. cbn [scaled_frames_ with_scaled_frames_].
      apply lookup_insert_ne. destruct Hj as [Hj|[Hj|(k & Hk & _)]]; lia.
    + intros j Hj. reflexivity.
  - destruct Hsome as (held & averaged & w & w' & n0 & data' & Hheld & _ & Hw
                       & _ & _ & Hrun).
    destruct (IH _ _ _ _ _ Hrun) as (Hflip & Hslots & Hwriters).
    set (s2 := with_scaled_frames_ (<[i := None]> (scaled_frames_ s))
                 (with_writers_ (<[i := w']> (writers_ s)) s)) in *.
    assert (Hsame : forall k, k <> i -> scaled_frame s2 k = scaled_frame s k).
    { intros k Hk. unfold scaled_frame, s2.
      cbn [scaled_frames_ with_scaled_frames_ with_writers_].
      now rewrite lookup_insert_ne. }
    split; [|split].
    + intros j Hj Hlow. destruct (decide (j = i)) as [->|Hne].
      * split; [rewrite Hheld; done|]. intros _.
        unfold scaled_frame. rewrite Hslots by lia.
        unfold s2. cbn [scaled_frames_ with_scaled_frames_ with_writers_].
        now rewrite lookup_insert_eq.
      * rewrite <- (Hsame j) by done. apply Hflip; [lia|].
        intros k Hk. rewrite Hsame by lia. apply Hlow. lia.
    + intros j Hj.
      assert (Hji : j <> i).
      { destruct Hj as [Hj|[Hj|(k & Hk & Hnone)]]; lia. }
      rewrite Hslots.
      * unfold s2. cbn [scaled_frames_ with_scaled_frames_ with_writers_].
        now rewrite lookup_insert_ne.
      * destruct Hj as [Hj|[Hj|(k & Hk & Hnone)]]; [left; lia|right; left; lia|].
        right. right. exists k. split.
        -- destruct (decide (k = i)) as [->|]; [rewrite Hheld in Hnone; done|lia].
        -- destruct (decide (k = i)) as [->|]; [rewrite Hheld in Hnone; done|].
           now rewrite Hsame.
    + intros j Hj.
      assert (Hji : j <> i).
      { destruct Hj as [Hj|[Hj|(k & Hk & Hnone)]]; try lia.
        intros ->. assert (k = i) as -> by lia. rewrite Hheld in Hnone. done. }
      rewrite Hwriters.
      * unfold s2. cbn [writers_ with_scaled_frames_ with_writers_].
        now rewrite list_lookup_insert_ne.
      * destruct Hj as [Hj|[Hj|(k & Hk & Hnone)]]; [left; lia|right; left; lia|].
        right. right. exists k.
        destruct (decide (k = i)) as [->|]; [rewrite Hheld in Hnone; done|].
        split; [lia|]. now rewrite Hsame.
Qed.

(** X15. The held frames of a multiscale stream count the frames in
    binary.  When [write_multiscale_frames_] returns, the slot of level [j]
    changes state (empty to held, held to empty) exactly when the slots of
    all levels below [j] held a frame; otherwise it is untouched.  Writer
    [j] is written to only when the slots of the levels 1 to [j] all held a
    frame. *)
Theorem write_multiscale_frames_counts_in_binary
    (data : list byte) (s s' : ZarrStream_s W K) :
  multiscale_ s = true ->
  write_multiscale_frames_ data s = (s', Returns tt) ->
  (forall j, 1 <= j < length (writers_ s) ->
             (forall k, 1 <= k < j -> is_Some (scaled_frame s k)) ->
             (scaled_frame s j = None -> is_Some (scaled_frame s' j))
             /\ (is_Some (scaled_frame s j) -> scaled_frame s' j = None))
  /\ (forall j, (exists k, 1 <= k < j /\ scaled_frame s k = None) ->
                scaled_frames_ s' !! j = scaled_frames_ s !! j)
  /\ (forall j, j = 0 \/ (exists k, 1 <= k <= j /\ scaled_frame s k = None) ->
                writers_ s' !! j = writers_ s !! j).
Proof.
  intros Hms Hrun. unfold write_multiscale_frames_ in Hrun.
  rewrite Hms in Hrun. cbn [negb] in Hrun.
  destruct (dtype_ s) as [t|raw]; [|done].
  destruct (width_dim (dimensions_ s)) as [wd|]; [|done].
  destruct (height_dim (dimensions_ s)) as [hd|]; [|done].
  destruct (multiscale_levels_counts _ _ _ _ _ _ _ _ Hrun)
    as (Hflip & Hslots & Hwriters).
  split; [|split].
  - intros j Hj Hlow. apply Hflip; [lia|exact Hlow].
  - intros j Hj. apply Hslots. right. right. exact Hj.
  - intros j [->|Hj]; apply Hwriters; [left; lia|]. right. right. exact Hj.
Qed.

End CounterFacts.

Lemma write_multiscale_frames_counts_in_binary_witness :
  let s := pyramid_stream in
  let s' := (write_multiscale_frames_ dark_frame pyramid_stream).1 in
  (forall j, 1 <= j < length (writers_ s) ->
             (forall k, 1 <= k < j -> is_Some (scaled_frame s k)) ->
             (scaled_frame s j = None -> is_Some (scaled_frame s' j))
             /\ (is_Some (scaled_frame s j) -> scaled_frame s' j = None))
  /\ (forall j, (exists k, 1 <= k < j /\ scaled_frame s k = None) ->
                scaled_frames_ s' !! j = scaled_frames_ s !! j)
  /\ (forall j, j = 0 \/ (exists k, 1 <= k <= j /\ scaled_frame s k = None) ->
                writers_ s' !! j = writers_ s !! j).
Proof.
  apply (write_multiscale_frames_counts_in_binary dark_frame pyramid_stream).
  - reflexivity.
  - vm_compute. reflexivity.
Defined.

(** ** What [append] leaves alone (zarr.stream.cpp) *)

Section AppendKeeps.
Context {W K : Type} `{ArrayWriterOps W} `{SinkOps K} `{JsonLib} `{StringLib}.

(** A property of streams that filling the frame buffer and writing a whole
    frame preserve is preserved by the loop of [append], whatever its
    outcome; so is the size of the frame buffer, and the offset stays inside
    it. *)
Section Invariant.
Variable Q : ZarrStream_s W K -> Prop.
Hypothesis Q_frame_buffer : forall b o s, Q s -> Q (with_frame_buffer_ b o s).
Hypothesis Q_write_frame :
  forall data s, Q s -> length data = length (frame_buffer_ s) ->
                 Q (write_frame_ data s).1.

Lemma append_loop_keeps (F fuel : nat) (input : list byte)
      (data bytes_written : nat) (s : ZarrStream_s W K) :
  Q s ->
  length (frame_buffer_ s) = F ->
  0 < F ->
  frame_buffer_offset_ s < F ->
  bytes_written <= length input ->
  (bytes_written = length input
   \/ (data = bytes_written /\ (frame_buffer_offset_ s = 0 \/ bytes_written = 0))) ->
  keeps Q F (append_loop fuel input (length input) F data bytes_written s).
Proof.
  revert data bytes_written s.
  induction fuel as [|fuel IH]; intros data bw s HQ HF Hpos Ho Hbw Hinv.
  { unfold keeps. cbn [append_loop lift fst snd]. repeat split; try done; lia. }
  cbn [append_loop].
  destruct (bw <? length input) eqn:Ebw; cbn [negb].
  2: { unfold keeps. cbn [ret fst snd]. repeat split; try done; lia. }
  apply Nat.ltb_lt in Ebw.
  destruct Hinv as [Hinv | [Hdata Hinv]]; [lia|]. subst data.
  destruct (0 <? frame_buffer_offset_ s) eqn:Eo.
  - (* add to / finish a partial frame *)
    apply Nat.ltb_lt in Eo.
    destruct Hinv as [Hinv | ->]; [lia|].
    rewrite Nat.sub_0_r in *. rewrite Nat.add_0_l.
    set (o := frame_buffer_offset_ s) in *.
    set (c := Nat.min (F - o) (length input)).
    set (b1 := memcpy (frame_buffer_ s) o input 0 c).
    assert (Hlb1 : length b1 = F).
    { unfold b1, memcpy. rewrite drop_0, !length_app, !length_take, length_drop.
      unfold c. lia. }
    cbn [frame_buffer_offset_ with_frame_buffer_ frame_buffer_].
    destruct (o + c =? F) eqn:Efull.
    + apply Nat.eqb_eq in Efull.
      unfold bind at 1.
      pose proof (Q_write_frame b1 (with_frame_buffer_ b1 (o + c) s)
                    (Q_frame_buffer _ _ _ HQ) eq_refl) as HQ2.
      destruct (write_frame_ b1 (with_frame_buffer_ b1 (o + c) s)) as [s2 r] eqn:Hw.
      pose proof (write_frame__frame_buffer _ _ _ _ Hw) as [Hfb Hfo].
      cbn [frame_buffer_ frame_buffer_offset_ with_frame_buffer_ fst] in Hfb, Hfo, HQ2.
      destruct r as [k| | |];
        try (unfold keeps; cbn [fst snd]; repeat split; try done;
             try congruence; lia).
      pose proof (write_frame__returns _ _ _ _ Hw) as Hk.
      cbn [frame_buffer_ with_frame_buffer_] in Hk.
      rewrite Hk, Hlb1, Nat.ltb_irrefl.
      unfold bind at 1. unfold modify.
      apply IH; cbn [frame_buffer_ frame_buffer_offset_ with_frame_buffer_];
        try lia; try congruence.
      now apply Q_frame_buffer.
    + apply Nat.eqb_neq in Efull.
      assert (Hc : c = length input) by (unfold c in *; lia).
      apply IH; cbn [frame_buffer_ frame_buffer_offset_ with_frame_buffer_];
        try lia.
      now apply Q_frame_buffer.
  - (* no partial frame *)
    apply Nat.ltb_ge in Eo.
    assert (Ho0 : frame_buffer_offset_ s = 0) by lia.
    destruct (length input - bw <? F) eqn:Esmall.
    + apply Nat.ltb_lt in Esmall.
      set (b1 := memcpy (frame_buffer_ s) 0 input bw (length input - bw)).
      assert (Hlb1 : length b1 = F).
      { unfold b1, memcpy. rewrite take_0. cbn [app].
        rewrite length_app, length_take, !length_drop. lia. }
      apply IH; cbn [frame_buffer_ frame_buffer_offset_ with_frame_buffer_];
        try lia.
      now apply Q_frame_buffer.
    + apply Nat.ltb_ge in Esmall.
      unfold bind at 1.
      assert (Hlen : length (take F (drop bw input)) = length (frame_buffer_ s)).
      { rewrite length_take, length_drop. lia. }
      pose proof (Q_write_frame _ s HQ Hlen) as HQ2.
      destruct (write_frame_ (take F (drop bw input)) s) as [s2 r] eqn:Hw.
      pose proof (write_frame__frame_buffer _ _ _ _ Hw) as [Hfb Hfo].
      cbn [fst] in HQ2.
      destruct r as [k| | |];
        try (unfold keeps; cbn [fst snd]; repeat split; try done;
             try congruence; lia).
      pose proof (write_frame__returns _ _ _ _ Hw) as Hk.
      rewrite Hk, HF, Nat.ltb_irrefl.
      apply IH; try lia; try congruence.
Qed.

Lemma append_keeps (input : list byte) (s : ZarrStream_s W K) :
  Q s ->
  0 < length (frame_buffer_ s) ->
  frame_buffer_offset_ s < length (frame_buffer_ s) ->
  keeps Q (length (frame_buffer_ s)) (append input s).
Proof.
  intros HQ Hpos Ho. unfold append. unfold bind at 1. unfold lift at 1.
  destruct (String.eqb (error_ s) ""); cbn [EXPECT];
    [|unfold keeps; cbn [fst snd]; repeat split; try done; lia].
  destruct (length input =? 0) eqn:E0;
    [unfold keeps; cbn [ret fst snd]; repeat split; try done; lia|].
  apply append_loop_keeps; try done; try lia.
Qed.

End Invariant.

Lemma same_but_frames_refl {A} (s : ZarrStream_s W K) (r : outcome A) :
  same_but_frames s (s, r).
Proof. split; reflexivity. Qed.

Lemma same_but_frames_trans {A B} (s s1 : ZarrStream_s W K) (a : outcome A)
      (r : ZarrStream_s W K * outcome B) :
  same_but_frames s (s1, a) -> same_but_frames s1 r -> same_but_frames s r.
Proof. intros [H1' H2'] [H3' H4']. split; cbn [fst] in *; congruence. Qed.

Lemma same_but_frames_writer (s : ZarrStream_s W K) (i : nat) (w : W) {A}
      (r : outcome A) :
  same_but_frames s (with_writers_ (<[i := w]> (writers_ s)) s, r).
Proof. split; [reflexivity|]. apply length_insert. Qed.

Lemma multiscale_levels_erase (T : PixelType) (levels : list nat)
      (data : list byte) (frame_width frame_height : nat) (s : ZarrStream_s W K) :
  same_but_frames s (multiscale_levels T levels data frame_width frame_height s).
Proof.
  revert data frame_width frame_height s.
  induction levels as [|i levels IH]; intros data fw fh s;
    [apply same_but_frames_refl|].
  cbn [multiscale_levels]. unfold bind at 1. unfold lift at 1.
  destruct (scale_image T data fw fh) as [[[dst fw'] fh']| | |];
    try apply same_but_frames_refl.
  cbv beta iota.
  destruct (scaled_frame s i) as [held|]; [|split; reflexivity].
  unfold bind at 1. unfold lift at 1.
  destruct (average_two_frames T dst held) as [averaged| | |];
    try apply same_but_frames_refl.
  unfold bind at 1. unfold writer_write_frame.
  destruct (writers_ s !! i) as [w|]; [|apply same_but_frames_refl].
  destruct (write_frame w averaged) as [w' n].
  unfold bind at 1. unfold lift at 1.
  destruct (negb (n =? 0)); cbn [EXPECT]; [|apply same_but_frames_writer].
  unfold bind at 1. unfold modify.
  eapply (same_but_frames_trans _ _ (Returns tt)); [|apply IH].
  split; [reflexivity|]. apply length_insert.
Qed.

Lemma write_multiscale_frames__erase (data : list byte) (s : ZarrStream_s W K) :
  same_but_frames s (write_multiscale_frames_ data s).
Proof.
  unfold write_multiscale_frames_.
  destruct (negb (multiscale_ s)); [apply same_but_frames_refl|].
  destruct (dtype_ s) as [t|raw]; [|apply same_but_frames_refl].
  destruct (width_dim (dimensions_ s)) as [wd|]; [|apply same_but_frames_refl].
  destruct (height_dim (dimensions_ s)) as [hd|]; [|apply same_but_frames_refl].
  apply multiscale_levels_erase.
Qed.

Lemma write_frame__erase (data : list byte) (s : ZarrStream_s W K) :
  length data = length (frame_buffer_ s) ->
  same_but_frames s (write_frame_ data s).
Proof.
  intros Hlen. unfold write_frame_.
  unfold bind at 1. unfold writer_write_frame.
  destruct (writers_ s !! 0) as [w|]; [|apply same_but_frames_refl].
  destruct (write_frame w data) as [w' n].
  unfold bind at 1. unfold lift at 1.
  destruct (n =? length (frame_buffer_ s)) eqn:En; cbn [EXPECT];
    [|apply same_but_frames_writer].
  apply Nat.eqb_eq in En. rewrite Hlen, <- En, Nat.eqb_refl. cbn [negb].
  unfold bind at 1.
  pose proof (write_multiscale_frames__erase data
                (with_writers_ (<[0 := w']> (writers_ s)) s)) as Hms.
  destruct (write_multiscale_frames_ data _) as [s2 [[]| | |]]; unfold ret;
    (eapply (same_but_frames_trans _ _ (Returns tt));
     [apply same_but_frames_writer|exact Hms]).
Qed.

(** X16. Whatever its outcome, a call of [append] on a stream whose
    frame buffer is not empty and whose offset lies inside it changes only
    the frame buffer, the writers and the held frames: the error state, the
    settings and the metadata sinks are what they were.  The frame buffer
    keeps its size, the number of writers stays, the offset never passes the
    end of the buffer, and after a call that returns it lies before the end
    again. *)
Theorem append_keeps_the_rest (input : list byte) (s : ZarrStream_s W K) :
  0 < length (frame_buffer_ s) ->
  frame_buffer_offset_ s < length (frame_buffer_ s) ->
  let s' := (append input s).1 in
  erase_frames s' = erase_frames s
  /\ error_ s' = error_ s
  /\ metadata_sinks_ s' = metadata_sinks_ s
  /\ length (writers_ s') = length (writers_ s)
  /\ length (frame_buffer_ s') = length (frame_buffer_ s)
  /\ frame_buffer_offset_ s' <= length (frame_buffer_ s)
  /\ (forall n, (append input s).2 = Returns n ->
                frame_buffer_offset_ s' < length (frame_buffer_ s)).
Proof.
  intros Hpos Ho s'.
  destruct (append_keeps
              (fun x => erase_frames x = erase_frames s
                        /\ length (writers_ x) = length (writers_ s)))
    with (input := input) (s := s) as ([He Hw] & Hlen & Hoff & Hret); try done.
  { intros data x [Hx1 Hx2] Hlen.
    destruct (write_frame__erase data x Hlen) as [H1' H2']. split; congruence. }
  fold s' in He, Hw, Hlen, Hoff, Hret.
  split; [exact He|]. split; [exact (f_equal error_ He)|].
  split; [exact (f_equal metadata_sinks_ He)|].
  split; [exact Hw|]. split; [exact Hlen|].
  split.
  - exact Hoff.
  - exact Hret.
Qed.

(** X17. On a stream without multiscale, [append] touches no writer but
    writer 0 and holds no frame, whatever its outcome. *)
Theorem append_without_multiscale (input : list byte) (s : ZarrStream_s W K) :
  multiscale_ s = false ->
  0 < length (frame_buffer_ s) ->
  frame_buffer_offset_ s < length (frame_buffer_ s) ->
  let s' := (append input s).1 in
  scaled_frames_ s' = scaled_frames_ s
  /\ drop 1 (writers_ s') = drop 1 (writers_ s).
Proof.
  intros Hms Hpos Ho s'.
  set (Q := fun x : ZarrStream_s W K =>
              multiscale_ x = false
              /\ scaled_frames_ x = scaled_frames_ s
              /\ drop 1 (writers_ x) = drop 1 (writers_ s)).
  assert (HQw : forall data x, Q x -> length data = length (frame_buffer_ x) ->
                               Q (write_frame_ data x).1).
  { intros data x (Hx1 & Hx2 & Hx3) _. unfold write_frame_.
    unfold bind at 1. unfold writer_write_frame.
    destruct (writers_ x !! 0) as [w|] eqn:Ew; [|split; auto].
    destruct (write_frame w data) as [w' n].
    assert (Hdrop : drop 1 (<[0 := w']> (writers_ x)) = drop 1 (writers_ s)).
    { rewrite <- Hx3. destruct (writers_ x); done. }
    unfold bind at 1. unfold lift at 1.
    destruct (n =? _); cbn [EXPECT]; [|split; auto].
    destruct (negb (n =? length data)).
    - unfold bind, modify, ret. split; auto.
    - unfold bind at 1. unfold write_multiscale_frames_.
      cbn [multiscale_ with_writers_]. rewrite Hx1. cbn [negb ret fst].
      split; auto. }
  destruct (append_keeps Q) with (input := input) (s := s)
    as ((_ & Hsf & Hw) & _); try done.
Qed.

End AppendKeeps.

Lemma append_keeps_the_rest_witness :
  let s := failing_stream in
  let s' := (append frame_2x2 failing_stream).1 in
  erase_frames s' = erase_frames s
  /\ error_ s' = error_ s
  /\ metadata_sinks_ s' = metadata_sinks_ s
  /\ length (writers_ s') = length (writers_ s)
  /\ length (frame_buffer_ s') = length (frame_buffer_ s)
  /\ frame_buffer_offset_ s' <= length (frame_buffer_ s)
  /\ (forall n, (append frame_2x2 failing_stream).2 = Returns n ->
                frame_buffer_offset_ s' < length (frame_buffer_ s)).
Proof.
  apply (append_keeps_the_rest frame_2x2 failing_stream).
  - simpl. lia.
  - simpl. lia.
Defined.

Lemma append_without_multiscale_witness :
  let s := test_stream 2 ZarrDataType_uint8 dims_2x2 false 4 3 in
  let s' := (append (frame_2x2 ++ frame_2x2) s).1 in
  scaled_frames_ s' = scaled_frames_ s
  /\ drop 1 (writers_ s') = drop 1 (writers_ s).
Proof.
  apply (append_without_multiscale (frame_2x2 ++ frame_2x2)
           (test_stream 2 ZarrDataType_uint8 dims_2x2 false 4 3)).
  - reflexivity.
  - simpl. lia.
  - simpl. lia.
Defined.

(** ** How the steps of the constructor report failure (zarr.stream.cpp) *)

Section FailureReports.
Context {W K : Type} `{ArrayWriterOps W} `{SinkOps K} `{JsonLib} `{StringLib}.

(** X18. [create_store_] reports through the error state: when it
    returns false the error state holds a message, and when it returns true
    the error state is what it was.  For an S3 store the filesystem is never
    touched, and the call succeeds exactly when the connection pool can be
    made and its connection is valid. *)
Theorem create_store__reports (s s' : ZarrStream_s W K) (w w' : World) (ok : bool) :
  create_store_ s w = (s', w', ok) ->
  (if ok then error_ s' = error_ s else error_ s' <> ""%string)
  /\ (is_Some (s3_settings_ s) ->
      w' = w
      /\ (ok = true <-> s3_pool_error w = None /\ s3_connection_valid w = true)).
Proof.
  unfold create_store_, is_s3_acquisition_. intros Hc.
  destruct (s3_settings_ s) as [s3|].
  - rewrite bool_decide_eq_true_2 in Hc by eauto.
    destruct (s3_pool_error w) as [what|].
    + injection Hc as <- <- <-. split; [|intros _; split; [done|]].
      * cbn [error_ set_error_ with_error_]. done.
      * split; [done|]. now intros [? _].
    + destruct (s3_connection_valid w); cbn [negb] in Hc;
        injection Hc as <- <- <-; (split; [|intros _; split; [done|]]);
        try done.
      * split; [done|]. now intros [_ ?].
  - rewrite bool_decide_eq_false_2 in Hc by (intros [? ?]; done).
    split; [|intros [? ?]; done].
    destruct (fs_exists w (store_path_ s)).
    + destruct (fs_remove_all w (store_path_ s)) as [w1 [message|]].
      * injection Hc as <- <- <-. cbn [error_ set_error_ with_error_]. done.
      * destruct (fs_create_directories w1 (store_path_ s))
          as [[w2 created] ec].
        destruct created; cbn [negb] in Hc; injection Hc as <- <- <-; [done|].
        cbn [error_ set_error_ with_error_]. done.
    + destruct (fs_create_directories w (store_path_ s))
        as [[w2 created] ec].
      destruct created; cbn [negb] in Hc; injection Hc as <- <- <-; [done|].
      cbn [error_ set_error_ with_error_]. done.
Qed.

Lemma write_to_metadata_sink_reports (key text message : string)
      (s s' : ZarrStream_s W K) (ok : bool) :
  message <> ""%string ->
  write_to_metadata_sink key text
    (let! _ := modify (set_error_ ("Metadata sink '" +:+ key +:+ "'not found")) in
     ret false)
    (fun ok =>
       if negb ok then
         let! _ := modify (set_error_ message) in
         ret false
       else ret true) s
  = (s', Returns ok) ->
  (if ok then error_ s' = error_ s else error_ s' <> ""%string)
  /\ (ok = true ->
      exists sink,
        metadata_sinks_ s !! key = Some (Some sink)
        /\ (sink_write sink 0 (list_byte_of_string text)).2 = true
        /\ metadata_sinks_ s'
           = <[key := Some (sink_write sink 0 (list_byte_of_string text)).1]>
               (metadata_sinks_ s)).
Proof.
  intros Hm. unfold write_to_metadata_sink.
  destruct (metadata_sinks_ s !! key) as [[sink|]|] eqn:Ek; [| |done].
  - destruct (sink_write sink 0 (list_byte_of_string text)) as [sink' written]
      eqn:Ew.
    destruct written; cbn [negb].
    + intros [= <- <-]. split; [reflexivity|]. intros _. exists sink.
      rewrite Ew. done.
    + intros [= <- <-]. split; [|done]. cbn [error_ set_error_ with_error_]. done.
  - intros [= <- <-]. split; [|done]. cbn [error_ set_error_ with_error_]. done.
Qed.

(** X19. [write_base_metadata_] and [write_group_metadata_] report
    through the error state: a false result comes with a message in the
    error state, and after a true result the error state is what it was and
    the sink of the document ([.zattrs] and [.zgroup] for version 2,
    [zarr.json] otherwise, the same sink for both documents) has taken a
    write at offset 0. *)
Theorem metadata_writers_report (s s' : ZarrStream_s W K) (ok : bool) :
  (write_base_metadata_ s = (s', Returns ok) ->
   (if ok then error_ s' = error_ s else error_ s' <> ""%string)
   /\ (ok = true ->
       exists sink text,
         metadata_sinks_ s !! (if version_ s =? 2 then ".zattrs"%string else "zarr.json"%string)
         = Some (Some sink)
         /\ metadata_sinks_ s'
            = <[(if version_ s =? 2 then ".zattrs"%string else "zarr.json"%string)
                := Some (sink_write sink 0 (list_byte_of_string text)).1]>
                (metadata_sinks_ s)))
  /\ (write_group_metadata_ s = (s', Returns ok) ->
      (if ok then error_ s' = error_ s else error_ s' <> ""%string)
      /\ (ok = true ->
          exists sink text,
            metadata_sinks_ s !! (if version_ s =? 2 then ".zgroup"%string else "zarr.json"%string)
            = Some (Some sink)
            /\ metadata_sinks_ s'
               = <[(if version_ s =? 2 then ".zgroup"%string else "zarr.json"%string)
                   := Some (sink_write sink 0 (list_byte_of_string text)).1]>
                   (metadata_sinks_ s))).
Proof.
  split.
  - unfold write_base_metadata_. destruct (version_ s =? 2); intros Hw;
      apply write_to_metadata_sink_reports in Hw as [He Hs]; try done;
      (split; [exact He|]); intros Hok;
      destruct (Hs Hok) as (sink & Hk & _ & Hm); eauto.
  - unfold write_group_metadata_. destruct (version_ s =? 2); intros Hw;
      apply write_to_metadata_sink_reports in Hw as [He Hs]; try done;
      (split; [exact He|]); intros Hok;
      destruct (Hs Hok) as (sink & Hk & _ & Hm); eauto.
Qed.

End FailureReports.

Lemma create_store__reports_witness :
  let s := test_stream 2 ZarrDataType_uint8 dims_S1 false (48 * 48) 1 in
  let s' := (create_store_ s locked_world).1.1 in
  let w' := (create_store_ s locked_world).1.2 in
  (if false then error_ s' = error_ s else error_ s' <> ""%string)
  /\ (is_Some (s3_settings_ s) ->
      w' = locked_world
      /\ (false = true <-> s3_pool_error locked_world = None
                           /\ s3_connection_valid locked_world = true)).
Proof.
  apply (create_store__reports
           (test_stream 2 ZarrDataType_uint8 dims_S1 false (48 * 48) 1) _
           locked_world _ false).
  vm_compute. reflexivity.
Defined.

Lemma metadata_writers_report_witness :
  let s := test_stream 3 ZarrDataType_uint8 dims_S1 false (48 * 48) 1 in
  (if true then error_ (write_group_metadata_ s).1 = error_ s
   else error_ (write_group_metadata_ s).1 <> ""%string).
Proof.
  apply (metadata_writers_report
           (test_stream 3 ZarrDataType_uint8 dims_S1 false (48 * 48) 1)
           (write_group_metadata_
              (test_stream 3 ZarrDataType_uint8 dims_S1 false (48 * 48) 1)).1
           true).
  vm_compute. reflexivity.
Defined.

(** ** Exact arithmetic on small integers in doubles *)

Section ExactArithmetic.
Local Open Scope Z_scope.

Lemma digits2_pos_bounds (p : positive) :
  2 ^ (Zpos (digits2_pos p) - 1) <= Zpos p < 2 ^ Zpos (digits2_pos p).
Proof.
  induction p as [p IH|p IH|]; cbn [digits2_pos].
  - rewrite Pos2Z.inj_succ.
    replace (Z.succ (Zpos (digits2_pos p)) - 1) with (Z.succ (Zpos (digits2_pos p) - 1))
      by lia.
    rewrite !Z.pow_succ_r by lia. lia.
  - rewrite Pos2Z.inj_succ.
    replace (Z.succ (Zpos (digits2_pos p)) - 1) with (Z.succ (Zpos (digits2_pos p) - 1))
      by lia.
    rewrite !Z.pow_succ_r by lia. lia.
  - simpl. lia.
Qed.

Lemma digits2_pos_unique (p : positive) (d : Z) :
  2 ^ (d - 1) <= Zpos p < 2 ^ d -> Zpos (digits2_pos p) = d.
Proof.
  intros [Hlo Hhi]. pose proof (digits2_pos_bounds p) as [Hlo' Hhi'].
  assert (Hd : 0 < d).
  { destruct (Z.lt_trichotomy d 0) as [Hn|[->|Hp]]; [|simpl in Hhi; lia|done].
    rewrite Z.pow_neg_r in Hhi by lia. lia. }
  destruct (Z.lt_trichotomy (Zpos (digits2_pos p)) d) as [Hlt|[Heq|Hgt]]; [|done|].
  - assert (2 ^ Zpos (digits2_pos p) <= 2 ^ (d - 1))
      by (apply Z.pow_le_mono_r; lia).
    lia.
  - assert (2 ^ d <= 2 ^ (Zpos (digits2_pos p) - 1))
      by (apply Z.pow_le_mono_r; lia).
    lia.
Qed.

Lemma pos_iter_xO (m d : positive) :
  Zpos (Pos.iter xO m d) = Zpos m * 2 ^ Zpos d.
Proof.
  induction d as [|d IH] using Pos.peano_ind.
  - simpl. lia.
  - rewrite Pos.iter_succ, Pos2Z.inj_succ, Z.pow_succ_r by lia.
    rewrite Pos2Z.inj_xO, IH. lia.
Qed.

Lemma digits2_pos_shift (m d : positive) :
  Zpos (digits2_pos (Pos.iter xO m d)) = Zpos (digits2_pos m) + Zpos d.
Proof.
  induction d as [|d IH] using Pos.peano_ind.
  - simpl. lia.
  - rewrite Pos.iter_succ. cbn [digits2_pos]. rewrite !Pos2Z.inj_succ, IH. lia.
Qed.

Lemma iter_pos_iter {A} (f : A -> A) (p : positive) (x : A) :
  SpecFloat.iter_pos f p x = Pos.iter f x p.
Proof.
  revert x. induction p as [p IH|p IH|]; intros x; cbn [SpecFloat.iter_pos Pos.iter].
  - rewrite !IH. now rewrite <- !Pos.iter_swap.
  - now rewrite !IH.
  - reflexivity.
Qed.

(** Shifting out zero bits loses nothing. *)
Lemma shr_exact (m k : positive) :
  SpecFloat.iter_pos shr_1 k {| shr_m := Zpos (Pos.iter xO m k); shr_r := false; shr_s := false |}
  = {| shr_m := Zpos m; shr_r := false; shr_s := false |}.
Proof.
  rewrite iter_pos_iter.
  induction k as [|k IH] using Pos.peano_ind.
  - reflexivity.
  - rewrite Pos.iter_succ_r. rewrite Pos.iter_succ. cbn [shr_1 orb]. exact IH.
Qed.

(** Rounding a number that needs no rounding. *)
Lemma binary_round_aux_exact (s : bool) (m : positive) (k e : Z) (M : positive) :
  Zpos (digits2_pos m) = 53 ->
  0 <= k ->
  Zpos M = Zpos m * 2 ^ k ->
  -1074 <= e + k <= 971 ->
  binary_round_aux 53 1024 s (Zpos M) e loc_Exact = S754_finite s m (e + k).
Proof.
  intros Hd Hk HM He.
  assert (Hstep : shr_fexp 53 1024 (Zpos M) e loc_Exact
                  = ({| shr_m := Zpos m; shr_r := false; shr_s := false |}, e + k)).
  { unfold shr_fexp, shr. cbn [Zdigits2 shr_record_of_loc].
    destruct k as [|k|k]; [| |lia].
    - rewrite Z.mul_1_r in HM. injection HM as ->.
      rewrite Hd. unfold fexp, emin.
      replace (Z.max (53 + e - 53) (3 - 1024 - 53) - e) with 0 by lia.
      now rewrite Z.add_0_r.
    - assert (HMk : M = Pos.iter xO m k).
      { apply Pos2Z.inj. now rewrite pos_iter_xO. }
      subst M. rewrite digits2_pos_shift, Hd. unfold fexp, emin.
      replace (Z.max (53 + Zpos k + e - 53) (3 - 1024 - 53) - e) with (Zpos k) by lia.
      rewrite shr_exact. f_equal. }
  unfold binary_round_aux. rewrite Hstep.
  cbn [loc_of_shr_record shr_m round_nearest_even].
  assert (Hstep2 : shr_fexp 53 1024 (Zpos m) (e + k) loc_Exact
                   = ({| shr_m := Zpos m; shr_r := false; shr_s := false |}, e + k)).
  { unfold shr_fexp, shr. cbn [Zdigits2 shr_record_of_loc].
    rewrite Hd. unfold fexp, emin.
    replace (Z.max (53 + (e + k) - 53) (3 - 1024 - 53) - (e + k)) with 0 by lia.
    reflexivity. }
  rewrite Hstep2. cbn [shr_m].
  replace (e + k <=? 1024 - 53) with true by (symmetry; apply Z.leb_le; lia).
  reflexivity.
Qed.

(** [binary_round] gives the normal form of a value that has one. *)
Lemma binary_round_exact (s : bool) (M m : positive) (e E : Z) :
  Zpos (digits2_pos m) = 53 ->
  -1074 <= E <= 971 ->
  (if e <=? E then Zpos M = Zpos m * 2 ^ (E - e)
   else Zpos M * 2 ^ (e - E) = Zpos m) ->
  binary_round 53 1024 s M e = S754_finite s m E.
Proof.
  intros Hd HE Hval. unfold binary_round.
  assert (Hdigits : Zpos (digits2_pos M) + e = 53 + E).
  { pose proof (digits2_pos_bounds m) as Hm. rewrite Hd in Hm.
    destruct (Z.leb_spec e E) as [Hle|Hgt].
    - enough (Zpos (digits2_pos M) = 53 + (E - e)) by lia.
      apply digits2_pos_unique. rewrite Hval.
      replace (53 + (E - e) - 1) with (52 + (E - e)) by lia.
      rewrite !Z.pow_add_r by lia.
      assert (0 < 2 ^ (E - e)) by (apply Z.pow_pos_nonneg; lia).
      change (53 - 1) with 52 in Hm. nia.
    - pose proof (digits2_pos_bounds M) as HM.
      assert (Hp : 0 < 2 ^ (e - E)) by (apply Z.pow_pos_nonneg; lia).
      enough (Zpos (digits2_pos M) + (e - E) = 53) by lia.
      assert (Zpos (digits2_pos (Pos.iter xO M (Z.to_pos (e - E)))) = 53) as Hs.
      { rewrite <- Hd. do 2 f_equal. apply Pos2Z.inj.
        rewrite pos_iter_xO, Z2Pos.id by lia. exact Hval. }
      rewrite digits2_pos_shift, Z2Pos.id in Hs by lia. exact Hs. }
  unfold fexp, emin. rewrite Hdigits.
  replace (Z.max (53 + E - 53) (3 - 1024 - 53)) with E by lia.
  unfold shl_align.
  destruct (Z.leb_spec e E) as [Hle|Hgt].
  - assert (Hsub : exists n, E - e = Z.of_N n).
    { exists (Z.to_N (E - e)). lia. }
    destruct (E - e) as [|d|d] eqn:Ed; [| |lia].
    + replace E with (e + 0) by lia.
      apply binary_round_aux_exact; try done; try lia.
    + replace E with (e + Zpos d) by lia.
      apply binary_round_aux_exact; try done; try lia.
  - destruct (E - e) as [|d|d] eqn:Ed; [lia|lia|].
    replace E with (E + 0) at 2 by lia.
    apply binary_round_aux_exact; try done; try lia.
    rewrite pos_iter_xO, Z.mul_1_r, <- Hval. do 2 f_equal. lia.
Qed.

Lemma digits_below (S : positive) :
  Zpos S < 2 ^ 53 -> Zpos (digits2_pos S) <= 53.
Proof.
  intros HS. pose proof (digits2_pos_bounds S) as [Hlo Hhi].
  destruct (Z.le_gt_cases (Zpos (digits2_pos S)) 53) as [?|Hgt]; [done|].
  assert (2 ^ 53 <= 2 ^ (Zpos (digits2_pos S) - 1))
    by (apply Z.pow_le_mono_r; lia).
  lia.
Qed.

Lemma normal_mantissa_spec (S : positive) :
  Zpos S < 2 ^ 53 ->
  Zpos (normal_mantissa S) = Zpos S * 2 ^ (- normal_exponent S)
  /\ Zpos (digits2_pos (normal_mantissa S)) = 53
  /\ -52 <= normal_exponent S <= 0.
Proof.
  intros HS. pose proof (digits_below S HS) as Hd.
  assert (Hd1 : 1 <= Zpos (digits2_pos S)) by lia.
  unfold normal_mantissa, normal_exponent.
  destruct (53 - Zpos (digits2_pos S)) as [|k|k] eqn:Ek; [| |lia].
  - replace (- (Zpos (digits2_pos S) - 53)) with 0 by lia.
    split; [simpl; lia|]. split; lia.
  - replace (- (Zpos (digits2_pos S) - 53)) with (Zpos k) by lia.
    rewrite pos_iter_xO, digits2_pos_shift. split; [done|]. split; lia.
Qed.

(** The double of a non-zero integer below [2^53], scaled by a power of 2. *)
Lemma dbl_normal (z e : Z) :
  z <> 0 -> Z.abs z < 2 ^ 53 ->
  -1022 <= e <= 971 ->
  dbl z e = S754_finite (z <? 0) (normal_mantissa (Z.to_pos (Z.abs z)))
                        (e + normal_exponent (Z.to_pos (Z.abs z))).
Proof.
  intros Hz Habs He. unfold dbl, binary_normalize.
  assert (Hcase : forall (s : bool) (p : positive),
             Zpos p < 2 ^ 53 ->
             binary_round 53 1024 s p e
             = S754_finite s (normal_mantissa p) (e + normal_exponent p)).
  { intros s p Hp.
    destruct (normal_mantissa_spec p Hp) as (Hm & Hdm & Hr).
    apply binary_round_exact; [exact Hdm|lia|].
    destruct (Z.leb_spec e (e + normal_exponent p)) as [Hle|Hgt].
    - assert (Hn : normal_exponent p = 0) by lia.
      rewrite Hm, Hn. replace (e + 0 - e) with 0 by lia. simpl. lia.
    - rewrite Hm. do 2 f_equal. lia. }
  destruct z as [|p|p]; [done| |]; cbn [Z.abs Z.to_pos Z.ltb Z.compare];
    apply Hcase; exact Habs.
Qed.

Lemma dbl_zero (e : Z) : dbl 0 e = S754_zero false.
Proof. reflexivity. Qed.

(** A scaled integer and its unscaled form are the same double. *)
Lemma binary_normalize_scaled (S c e : Z) :
  Z.abs S < 2 ^ 53 -> 0 <= c -> -1022 <= e <= 971 ->
  binary_normalize 53 1024 (S * 2 ^ c) (e - c) false = dbl S e.
Proof.
  intros Habs Hc He.
  destruct (Z.eq_dec S 0) as [->|Hne]; [reflexivity|].
  rewrite dbl_normal by done.
  assert (Hp : 0 < 2 ^ c) by (apply Z.pow_pos_nonneg; lia).
  assert (Hcase : forall (s : bool) (p M : positive),
             Zpos p < 2 ^ 53 -> Zpos M = Zpos p * 2 ^ c ->
             binary_round 53 1024 s M (e - c)
             = S754_finite s (normal_mantissa p) (e + normal_exponent p)).
  { intros s p M Hp53 HM.
    destruct (normal_mantissa_spec p Hp53) as (Hm & Hdm & Hr).
    apply binary_round_exact; [exact Hdm|lia|].
    destruct (Z.leb_spec (e - c) (e + normal_exponent p)) as [Hle|Hgt].
    - rewrite HM, Hm, <- Z.mul_assoc, <- Z.pow_add_r by lia. do 2 f_equal. lia.
    - rewrite HM, Hm, <- Z.mul_assoc, <- Z.pow_add_r by lia. do 2 f_equal. lia. }
  unfold binary_normalize.
  destruct S as [|p|p]; [done| |]; cbn [Z.abs Z.to_pos Z.ltb Z.compare] in *.
  - assert (Hpos : 0 < Zpos p * 2 ^ c) by (apply Z.mul_pos_pos; lia).
    destruct (Zpos p * 2 ^ c) as [|M|M] eqn:EM; try lia.
    apply Hcase; [exact Habs|symmetry; exact EM].
  - assert (Hpos : 0 < Zpos p * 2 ^ c) by (apply Z.mul_pos_pos; lia).
    assert (EN : Zneg p * 2 ^ c = - (Zpos p * 2 ^ c)).
    { change (Zneg p) with (- Zpos p). apply Z.mul_opp_l. }
    destruct (Zneg p * 2 ^ c) as [|M|M] eqn:EM; try lia.
    apply Hcase; [exact Habs|].
    change (Zneg M) with (- Zpos M) in EN. cbn [Z.abs Z.to_pos].
    apply Z.opp_inj. exact EN.
Qed.

Lemma shl_align_value (m : positive) (e e' : Z) :
  e' <= e -> Zpos (fst (shl_align m e e')) = Zpos m * 2 ^ (e - e').
Proof.
  intros Hle. unfold shl_align.
  destruct (e' - e) as [|d|d] eqn:Ed; cbn [fst]; try lia.
  - replace (e - e') with 0 by lia. lia.
  - rewrite pos_iter_xO. do 2 f_equal. lia.
Qed.

Lemma cond_Zopp_ltb (z : Z) : z <> 0 -> cond_Zopp (z <? 0) (Z.abs z) = z.
Proof. intros Hz. destruct z; [done| |]; reflexivity. Qed.

(** Sums of integers are exact while they stay below [2^53]. *)
Lemma dadd_exact (x y : Z) :
  Z.abs x < 2 ^ 53 -> Z.abs y < 2 ^ 53 -> Z.abs (x + y) < 2 ^ 53 ->
  dadd (dbl x 0) (dbl y 0) = dbl (x + y) 0.
Proof.
  intros Hx Hy Hxy.
  destruct (Z.eq_dec x 0) as [->|Hx0].
  { rewrite dbl_zero, Z.add_0_l.
    destruct (Z.eq_dec y 0) as [->|Hy0]; [reflexivity|].
    rewrite (dbl_normal y 0) by (try done; lia). reflexivity. }
  destruct (Z.eq_dec y 0) as [->|Hy0].
  { rewrite dbl_zero, Z.add_0_r. rewrite (dbl_normal x 0) by (try done; lia).
    reflexivity. }
  rewrite (dbl_normal x 0), (dbl_normal y 0) by (try done; lia).
  set (px := Z.to_pos (Z.abs x)). set (py := Z.to_pos (Z.abs y)).
  assert (Hpx : Zpos px = Z.abs x) by (unfold px; lia).
  assert (Hpy : Zpos py = Z.abs y) by (unfold py; lia).
  destruct (normal_mantissa_spec px) as (Hmx & _ & Hrx); [lia|].
  destruct (normal_mantissa_spec py) as (Hmy & _ & Hry); [lia|].
  unfold dadd, SFadd. rewrite !Z.add_0_l.
  set (ez := Z.min (normal_exponent px) (normal_exponent py)).
  rewrite !shl_align_value by lia.
  rewrite Hmx, Hmy, <- !Z.mul_assoc, <- !Z.pow_add_r by lia.
  replace (- normal_exponent px + (normal_exponent px - ez)) with (- ez) by lia.
  replace (- normal_exponent py + (normal_exponent py - ez)) with (- ez) by lia.
  assert (Hsx : cond_Zopp (x <? 0) (Zpos px * 2 ^ (- ez)) = x * 2 ^ (- ez)).
  { rewrite Hpx. destruct x; [done| |]; cbn [Z.ltb Z.compare cond_Zopp Z.abs]; lia. }
  assert (Hsy : cond_Zopp (y <? 0) (Zpos py * 2 ^ (- ez)) = y * 2 ^ (- ez)).
  { rewrite Hpy. destruct y; [done| |]; cbn [Z.ltb Z.compare cond_Zopp Z.abs]; lia. }
  rewrite Hsx, Hsy, <- Z.mul_add_distr_r.
  replace ez with (0 - (- ez)) at 2 by lia.
  apply binary_normalize_scaled; lia.
Qed.

(** Halving and quartering an integer below [2^53] is exact. *)
Lemma dmul_pow2_exact (k s : Z) :
  0 <= k <= 2 -> Z.abs s < 2 ^ 53 ->
  dmul (dbl 1 (- k)) (dbl s 0) = dbl s (- k).
Proof.
  intros Hk Hs.
  rewrite (dbl_normal 1 (- k)) by (try done; simpl; lia).
  change (normal_mantissa (Z.to_pos (Z.abs 1))) with 4503599627370496%positive.
  change (normal_exponent (Z.to_pos (Z.abs 1))) with (-52).
  change (1 <? 0) with false.
  destruct (Z.eq_dec s 0) as [->|Hs0]; [reflexivity|].
  rewrite (dbl_normal s 0), (dbl_normal s (- k)) by (try done; lia).
  set (p := Z.to_pos (Z.abs s)).
  destruct (normal_mantissa_spec p) as (Hm & Hdm & Hr); [unfold p; lia|].
  unfold dmul, SFmul. cbn [xorb].
  replace (- k + normal_exponent p)
    with ((- k + -52 + (0 + normal_exponent p)) + 52) by lia.
  apply binary_round_aux_exact; try done; try lia.
Qed.

(** The integer part of a halved or quartered integer. *)
Lemma trunc_dbl (k s : Z) :
  1 <= k <= 2 -> Z.abs s < 2 ^ 53 ->
  trunc_double (dbl s (- k)) = Some (Z.quot s (2 ^ k)).
Proof.
  intros Hk Hs.
  destruct (Z.eq_dec s 0) as [->|Hs0].
  { rewrite dbl_zero. cbn [trunc_double]. now rewrite Z.quot_0_l by lia. }
  rewrite (dbl_normal s (- k)) by (try done; lia).
  set (p := Z.to_pos (Z.abs s)).
  assert (Hp : Zpos p = Z.abs s) by (unfold p; lia).
  destruct (normal_mantissa_spec p) as (Hm & Hdm & Hr); [lia|].
  cbn [trunc_double].
  destruct (- k + normal_exponent p) as [|q|q] eqn:Eq; try lia.
  rewrite Z.shiftr_div_pow2 by lia.
  assert (Hmag : Zpos (normal_mantissa p) / 2 ^ Zpos q = Z.abs s / 2 ^ k).
  { rewrite Hm, Hp.
    replace (Zpos q) with (k + - normal_exponent p) by lia.
    rewrite Z.pow_add_r by lia.
    rewrite Z.div_mul_cancel_r; [reflexivity| |];
      apply Z.pow_nonzero; lia. }
  rewrite Hmag. f_equal.
  assert (H2k : 0 < 2 ^ k) by (apply Z.pow_pos_nonneg; lia).
  rewrite Z.quot_div by lia.
  rewrite (Z.sgn_pos (2 ^ k)), (Z.abs_eq (2 ^ k)) by lia.
  destruct s as [|s|s]; [done| |]; cbn [Z.ltb Z.compare Z.sgn Z.abs]; lia.
Qed.

(** ** The scalers on integer frames (zarr.stream.cpp) *)

Lemma double_of_Z_dbl (z : Z) : double_of_Z z = dbl z 0.
Proof. reflexivity. Qed.

Lemma le_value_bounds (bs : list byte) :
  0 <= le_value bs < 256 ^ Z.of_nat (length bs).
Proof.
  induction bs as [|b bs IH]; [simpl; lia|].
  cbn [le_value length]. rewrite Nat2Z.inj_succ, Z.pow_succ_r by lia.
  assert (Hb : 0 <= Z.of_N (Byte.to_N b) < 256).
  { pose proof (Byte.to_N_bounded b). lia. }
  lia.
Qed.

Lemma load_unsigned_bounds (n : nat) (bs : list byte) :
  0 <= load_unsigned n bs < 2 ^ (8 * Z.of_nat n).
Proof.
  unfold load_unsigned. pose proof (le_value_bounds (take n bs)) as [Hlo Hhi].
  split; [exact Hlo|].
  eapply Z.lt_le_trans; [exact Hhi|].
  change 256 with (2 ^ 8). rewrite <- Z.pow_mul_r by lia.
  apply Z.pow_le_mono_r; [lia|]. rewrite length_take. lia.
Qed.

Lemma load_signed_bounds (n : nat) (bs : list byte) :
  (1 <= n)%nat ->
  - 2 ^ (8 * Z.of_nat n - 1) <= load_signed n bs < 2 ^ (8 * Z.of_nat n - 1).
Proof.
  intros Hn. unfold load_signed.
  pose proof (load_unsigned_bounds n bs) as [Hlo Hhi].
  assert (Hpow : 2 ^ (8 * Z.of_nat n) = 2 * 2 ^ (8 * Z.of_nat n - 1)).
  { rewrite <- Z.pow_succ_r by lia. f_equal. lia. }
  destruct (Z.ltb_spec (load_unsigned n bs) (2 ^ (8 * Z.of_nat n - 1))); lia.
Qed.

Lemma pow2_le_32 (n : nat) : (n <= 4)%nat -> 2 ^ (8 * Z.of_nat n) <= 2 ^ 32.
Proof. intros Hn. apply Z.pow_le_mono_r; lia. Qed.

Lemma quot_bounds (lo hi s k : Z) :
  0 < k -> lo <= 0 <= hi -> k * lo <= s <= k * hi -> lo <= Z.quot s k <= hi.
Proof.
  intros Hk H0 Hs.
  destruct (Z.le_gt_cases 0 s) as [Hpos|Hneg].
  - rewrite Z.quot_div_nonneg by lia.
    assert (0 <= s / k) by (apply Z.div_pos; lia).
    assert (s / k <= hi) by (apply Z.div_le_upper_bound; lia).
    lia.
  - replace s with (- - s) by lia. rewrite Z.quot_opp_l by lia.
    rewrite Z.quot_div_nonneg by lia.
    assert (0 <= - s / k) by (apply Z.div_pos; lia).
    assert (- s / k <= - lo) by (apply Z.div_le_upper_bound; lia).
    lia.
Qed.

(** A quarter of the sum of four integers below [2^50], cast to an integer
    type that holds the four. *)
Lemma quarter_of_four (lo hi a b c d : Z) :
  lo <= 0 <= hi -> - 2 ^ 50 <= lo -> hi <= 2 ^ 50 ->
  lo <= a <= hi -> lo <= b <= hi -> lo <= c <= hi -> lo <= d <= hi ->
  int_of_double lo hi
    (dmul quarter
       (dadd (dadd (dadd (double_of_Z a) (double_of_Z b)) (double_of_Z c))
             (double_of_Z d)))
  = Some (Z.quot (a + b + c + d) 4).
Proof.
  intros H0 Hlo Hhi Ha Hb Hc Hd.
  assert (H53 : 2 ^ 53 = 8 * 2 ^ 50) by reflexivity.
  rewrite !double_of_Z_dbl.
  rewrite !dadd_exact by lia.
  change quarter with (dbl 1 (Z.opp 2)).
  rewrite dmul_pow2_exact by lia.
  unfold int_of_double. rewrite trunc_dbl by lia.
  change (2 ^ 2) with 4.
  assert (Hq : lo <= Z.quot (a + b + c + d) 4 <= hi)
    by (apply quot_bounds; lia).
  replace (lo <=? Z.quot (a + b + c + d) 4) with true
    by (symmetry; apply Z.leb_le; lia).
  replace (Z.quot (a + b + c + d) 4 <=? hi) with true
    by (symmetry; apply Z.leb_le; lia).
  reflexivity.
Qed.

(** Half of an integer below [2^53], cast to an integer type. *)
Lemma half_of_sum (lo hi s : Z) :
  Z.abs s < 2 ^ 53 ->
  lo <= Z.quot s 2 <= hi ->
  int_of_double lo hi (dmul half (double_of_Z s)) = Some (Z.quot s 2).
Proof.
  intros Hs Hq. rewrite double_of_Z_dbl. change half with (dbl 1 (Z.opp 1)).
  rewrite dmul_pow2_exact by lia.
  unfold int_of_double. rewrite trunc_dbl by lia. change (2 ^ 1) with 2.
  replace (lo <=? Z.quot s 2) with true by (symmetry; apply Z.leb_le; lia).
  replace (Z.quot s 2 <=? hi) with true by (symmetry; apply Z.leb_le; lia).
  reflexivity.
Qed.

Lemma traverse_total {A B} (f : A -> option B) (g : A -> B) (l : list A) :
  (forall a, In a l -> f a = Some (g a)) -> traverse f l = Some (map g l).
Proof.
  induction l as [|a l IH]; intros Hf; [reflexivity|].
  cbn [traverse map]. rewrite (Hf a) by now left.
  rewrite IH; [reflexivity|]. intros x Hx. apply Hf. now right.
Qed.

Lemma flat_map_map {A B C} (f : B -> list C) (g : A -> B) (l : list A) :
  flat_map f (map g l) = flat_map (fun a => f (g a)) l.
Proof. induction l as [|a l IH]; [reflexivity|]. simpl. now rewrite IH. Qed.

Lemma downsampled_pixel_unsigned (n : nat) (sum : Z -> Z -> option Z)
      (src : list byte) (width height : nat) (rc : nat * nat) :
  (n <= 4)%nat ->
  downsampled_pixel (unsigned_pixel n sum) src width height rc
  = Some (let '(r, c) := rc in
          let P r c :=
            load_unsigned n
              (drop ((Nat.min r (height - 1) * width + Nat.min c (width - 1)) * n)%nat
                    src) in
          Z.quot (P (2 * r)%nat (2 * c)%nat + P (2 * r)%nat (2 * c + 1)%nat
                  + P (2 * r + 1)%nat (2 * c)%nat
                  + P (2 * r + 1)%nat (2 * c + 1)%nat) 4).
Proof.
  intros Hn. destruct rc as [r c].
  unfold downsampled_pixel, padded_pixel, peek.
  cbn [unsigned_pixel to_double of_double load sizeof].
  pose proof (pow2_le_32 n Hn) as H32.
  assert (Hb : forall bs, 0 <= load_unsigned n bs <= 2 ^ (8 * Z.of_nat n) - 1).
  { intros bs. pose proof (load_unsigned_bounds n bs). lia. }
  assert (0 < 2 ^ (8 * Z.of_nat n)) by (apply Z.pow_pos_nonneg; lia).
  apply quarter_of_four; try apply Hb; lia.
Qed.

Lemma downsampled_pixel_signed (n : nat) (sum : Z -> Z -> option Z)
      (src : list byte) (width height : nat) (rc : nat * nat) :
  (1 <= n <= 4)%nat ->
  downsampled_pixel (signed_pixel n sum) src width height rc
  = Some (let '(r, c) := rc in
          let P r c :=
            load_signed n
              (drop ((Nat.min r (height - 1) * width + Nat.min c (width - 1)) * n)%nat
                    src) in
          Z.quot (P (2 * r)%nat (2 * c)%nat + P (2 * r)%nat (2 * c + 1)%nat
                  + P (2 * r + 1)%nat (2 * c)%nat
                  + P (2 * r + 1)%nat (2 * c + 1)%nat) 4).
Proof.
  intros Hn. destruct rc as [r c].
  unfold downsampled_pixel, padded_pixel, peek.
  cbn [signed_pixel to_double of_double load sizeof].
  assert (H32 : 2 ^ (8 * Z.of_nat n - 1) <= 2 ^ 31)
    by (apply Z.pow_le_mono_r; lia).
  assert (Hp : 0 < 2 ^ (8 * Z.of_nat n - 1)) by (apply Z.pow_pos_nonneg; lia).
  assert (Hb : forall bs, - 2 ^ (8 * Z.of_nat n - 1) <= load_signed n bs
                          <= 2 ^ (8 * Z.of_nat n - 1) - 1).
  { intros bs. pose proof (load_signed_bounds n bs ltac:(lia)). lia. }
  apply quarter_of_four; try apply Hb; try lia.
Qed.

(** X20. For the integer types of at most 32 bits [scale_image]
    computes in exact arithmetic: every output pixel is the sum of the four
    input pixels of its block (the last row and column standing in beyond the
    edges) divided by 4 with the fraction dropped, that is rounded toward
    zero, also for negative sums; the doubles it goes through lose nothing,
    and no conversion is undefined. *)
Theorem scale_image_integer_mean
    (t : ZarrDataType) (src : list byte) (width height : nat) :
  narrow_integer t = true ->
  (width * height * sizeof (pixel_of t) <= length src)%nat ->
  Z.of_nat (half_up width * half_up height * sizeof (pixel_of t)) < 2 ^ 32 ->
  scale_image (pixel_of t) src width height
  = Returns (flat_map (fun rc => le_bytes (sizeof (pixel_of t))
                                   (integer_mean t src width height rc))
                      (grid (half_up height) (half_up width)),
             half_up width, half_up height).
Proof.
  intros Hnarrow Hsrc Hsize.
  rewrite (scale_image_refines (pixel_of t) (pixel_store_length t)) by done.
  unfold downsampled_image.
  destruct t; try discriminate Hnarrow;
    cbn [pixel_of];
    match goal with
    | |- context [integer_mean ?t0 _ _ _] =>
        rewrite (traverse_total _ (integer_mean t0 src width height));
        [ cbn [fmap option_fmap option_map]; rewrite flat_map_map; reflexivity
        | intros [r c] _;
          first [ apply downsampled_pixel_unsigned; lia
                | apply downsampled_pixel_signed; lia ] ]
    end.
Qed.

Lemma scale_image_integer_mean_witness :
  scale_image (pixel_of ZarrDataType_int8)
    (flat_map (le_bytes 1) [-5; -1; -1; -1; 0; 1; 7; 8; 9]%Z) 3 3
  = Returns (flat_map (le_bytes 1) [-1; 0; 7; 9]%Z, 2%nat, 2%nat).
Proof.
  apply (scale_image_integer_mean ZarrDataType_int8
           (flat_map (le_bytes 1) [-5; -1; -1; -1; 0; 1; 7; 8; 9]%Z) 3 3).
  - reflexivity.
  - simpl. lia.
  - vm_compute. reflexivity.
Defined.

Lemma averaged_value_integer (lo hi : Z) (sum : option Z) :
  (forall s, sum = Some s -> Z.abs s < 2 ^ 53 /\ lo <= Z.quot s 2 <= hi) ->
  match double_of_Z <$> sum with
  | Some sum => int_of_double lo hi (dmul half sum)
  | None => None
  end
  = (fun s => Z.quot s 2) <$> sum.
Proof.
  intros Hs. destruct sum as [s|]; [|reflexivity].
  destruct (Hs s eq_refl) as [H53 Hq].
  cbn [fmap option_fmap option_map]. now apply half_of_sum.
Qed.

(** The average of two pixels of a narrow integer type. *)
Lemma averaged_value_narrow (t : ZarrDataType) (dst src : list byte) (i : nat) :
  narrow_integer t = true ->
  match t return option (px (pixel_of t)) -> Prop with
  | ZarrDataType_float32 | ZarrDataType_float64
  | ZarrDataType_uint64 | ZarrDataType_int64 => fun _ => True
  | _ => fun v => v = integer_average t (integer_at t dst i) (integer_at t src i)
  end (averaged_value (pixel_of t) (peek (pixel_of t) dst i) (peek (pixel_of t) src i)).
Proof.
  intros Hn. unfold integer_average, integer_at, averaged_value, peek.
  assert (H53 : 2 ^ 53 = 2 ^ 21 * 2 ^ 32) by reflexivity.
  destruct t; try discriminate Hn;
    cbn [pixel_of unsigned_pixel signed_pixel sum_as_double of_double load sizeof
         integer_layout integer_sum].
  - pose proof (load_unsigned_bounds 1 (drop (i * 1) dst)).
    pose proof (load_unsigned_bounds 1 (drop (i * 1) src)).
    apply averaged_value_integer. intros s [= <-]. simpl in *.
    split; [lia|apply quot_bounds; lia].
  - pose proof (load_unsigned_bounds 2 (drop (i * 2) dst)).
    pose proof (load_unsigned_bounds 2 (drop (i * 2) src)).
    apply averaged_value_integer. intros s [= <-]. simpl in *.
    split; [lia|apply quot_bounds; lia].
  - apply averaged_value_integer. intros s [= <-].
    pose proof (Z.mod_pos_bound
                  (load_unsigned 4 (drop (i * 4) dst)
                   + load_unsigned 4 (drop (i * 4) src)) (2 ^ 32) ltac:(lia)).
    simpl in *. split; [lia|apply quot_bounds; lia].
  - pose proof (load_signed_bounds 1 (drop (i * 1) dst) ltac:(lia)).
    pose proof (load_signed_bounds 1 (drop (i * 1) src) ltac:(lia)).
    apply averaged_value_integer. intros s [= <-]. simpl in *.
    split; [lia|apply quot_bounds; lia].
  - pose proof (load_signed_bounds 2 (drop (i * 2) dst) ltac:(lia)).
    pose proof (load_signed_bounds 2 (drop (i * 2) src) ltac:(lia)).
    apply averaged_value_integer. intros s [= <-]. simpl in *.
    split; [lia|apply quot_bounds; lia].
  - unfold checked_sum.
    change (- 2 ^ (32 - 1)) with (- 2 ^ 31). change (2 ^ (32 - 1)) with (2 ^ 31).
    apply averaged_value_integer. intros s Hs.
    destruct ((- 2 ^ 31 <=? _) && (_ <? 2 ^ 31)) eqn:E; [|discriminate Hs].
    injection Hs as <-.
    apply andb_true_iff in E as [E1 E2].
    apply Z.leb_le in E1. apply Z.ltb_lt in E2. simpl in *.
    split; [lia|apply quot_bounds; lia].
Qed.

(** X21. For the integer types of at most 32 bits
    [average_two_frames] computes in exact arithmetic: pixel [i] of the
    destination becomes half the sum of the two pixels [i], the fraction
    dropped (rounded toward zero).  The sum is the one of the C++ operands:
    exact for 8- and 16-bit pixels, reduced modulo [2^32] for [uint32_t] (the
    average of two large values is small), and undefined for [int32_t] when
    it leaves the range of [int]. *)
Theorem average_two_frames_integer
    (t : ZarrDataType) (dst src : list byte) :
  narrow_integer t = true ->
  length dst = length src ->
  average_two_frames (pixel_of t) dst src
  = match traverse (fun i => integer_average t (integer_at t dst i)
                                              (integer_at t src i))
                   (seq 0 (length src / sizeof (pixel_of t))) with
    | Some vs =>
        Returns (flat_map (le_bytes (sizeof (pixel_of t))) vs
                 ++ drop (length src / sizeof (pixel_of t) * sizeof (pixel_of t))
                         dst)
    | None => Undefined
    end.
Proof.
  intros Hn Hlen.
  rewrite (average_two_frames_pairwise (pixel_of t) (pixel_store_length t)) by done.
  unfold averaged_pixels.
  destruct t; try discriminate Hn;
    match goal with
    | |- context [integer_at ?t0 _ _] =>
        rewrite (traverse_ext _
                   (fun i => integer_average t0 (integer_at t0 dst i)
                                             (integer_at t0 src i)));
        [ reflexivity
        | intros i _; exact (averaged_value_narrow t0 dst src i eq_refl) ]
    end.
Qed.

Lemma average_two_frames_integer_witness :
  average_two_frames (pixel_of ZarrDataType_uint32)
    (le_bytes 4 4294967295 ++ le_bytes 4 7)
    (le_bytes 4 1 ++ le_bytes 4 8)
  = Returns (le_bytes 4 0 ++ le_bytes 4 7).
Proof.
  apply (average_two_frames_integer ZarrDataType_uint32
           (le_bytes 4 4294967295 ++ le_bytes 4 7)
           (le_bytes 4 1 ++ le_bytes 4 8)).
  - reflexivity.
  - reflexivity.
Defined.

End ExactArithmetic.

(** ** The constructor (zarr.stream.cpp) *)

Section ConstructionFacts.
Context {W K : Type} `{ArrayWriterOps W} `{SinkOps K} `{JsonLib} `{StringLib}
        `{ConfigLib} `{WriterMakers W} `{SinkMakers K}.

Lemma create_store__true (s s' : ZarrStream_s W K) (w w' : World) :
  create_store_ s w = (s', w', true) ->
  s' = if is_s3_acquisition_ s then with_s3_connection_pool_ true s else s.
Proof.
  unfold create_store_. destruct (is_s3_acquisition_ s).
  - destruct (s3_pool_error w) as [what|]; [intros [= _ _]|].
    destruct (s3_connection_valid w); cbn [negb]; now intros [= <- _].
  - destruct (fs_exists w (store_path_ s)).
    + destruct (fs_remove_all w (store_path_ s)) as [w1 [message|]];
        [intros [= _ _]|].
      destruct (fs_create_directories w1 (store_path_ s))
        as [[w2 created] ec].
      destruct created; cbn [negb]; now intros [= <- _].
    + destruct (fs_create_directories w (store_path_ s))
        as [[w2 created] ec].
      destruct created; cbn [negb]; now intros [= <- _].
Qed.

Lemma create_store__false (s s' : ZarrStream_s W K) (w w' : World) :
  create_store_ s w = (s', w', false) -> error_ s' <> ""%string.
Proof.
  unfold create_store_. destruct (is_s3_acquisition_ s).
  - destruct (s3_pool_error w) as [what|].
    + intros [= <- _]. cbn [error_ set_error_ with_error_]. done.
    + destruct (s3_connection_valid w); cbn [negb]; intros [= <- _].
      cbn [error_ set_error_ with_error_]. done.
  - destruct (fs_exists w (store_path_ s)).
    + destruct (fs_remove_all w (store_path_ s)) as [w1 [message|]].
      * intros [= <- _]. cbn [error_ set_error_ with_error_]. done.
      * destruct (fs_create_directories w1 (store_path_ s))
          as [[w2 created] ec].
        destruct created; cbn [negb]; intros [= <- _].
        cbn [error_ set_error_ with_error_]. done.
    + destruct (fs_create_directories w (store_path_ s))
        as [[w2 created] ec].
      destruct created; cbn [negb]; intros [= <- _].
      cbn [error_ set_error_ with_error_]. done.
Qed.

(** What a run of the loop appends to [writers_], and what it throws. *)
Lemma downsample_loop_outcome (fuel : nat) (config : ArrayWriterConfig)
      (s : ZarrStream_s W K) :
  match downsample_loop fuel config s with
  | (s', Returns _) =>
      exists ws, ws <> [] /\ s' = with_writers_ (writers_ s ++ ws) s
  | (_, Throws what) =>
      exists version pool config,
        construct_writer (W := W) version pool config = Throws what
  | _ => True
  end.
Proof.
  revert config s. induction fuel as [|fuel IH]; intros config s; [exact I|].
  cbn [downsample_loop]. destruct (downsample config) as [downsampled_config go].
  unfold bind at 1. unfold new_writer at 1.
  destruct (construct_writer (version_ s) (s3_connection_pool_ s) downsampled_config)
    as [w|what| |] eqn:Ew; [|eauto|exact I|exact I].
  unfold bind at 1. unfold push_writer, modify.
  destruct go.
  - specialize (IH downsampled_config (with_writers_ (writers_ s ++ [w]) s)).
    destruct (downsample_loop fuel downsampled_config
                (with_writers_ (writers_ s ++ [w]) s)) as [s' [[]|what| |]];
      [|exact IH|exact I|exact I].
    destruct IH as (ws & _ & ->). exists (w :: ws). split; [done|].
    cbn [writers_ with_writers_]. now rewrite <- app_assoc.
  - exists [w]. done.
Qed.

Lemma create_writers__outcome (fuel : nat) (s : ZarrStream_s W K) :
  match create_writers_ fuel s with
  | (s', Returns ok) =>
      ok = true
      /\ exists ws, s' = with_writers_ ws s
                    /\ if multiscale_ s then 2 <= length ws else length ws = 1
  | (_, Throws what) =>
      exists version pool config,
        construct_writer (W := W) version pool config = Throws what
  | _ => True
  end.
Proof.
  unfold create_writers_. unfold bind at 1. unfold modify at 1.
  unfold bind at 1. unfold new_writer at 1.
  cbn [version_ s3_connection_pool_ with_writers_].
  destruct (construct_writer (version_ s) (s3_connection_pool_ s)
              (base_config (with_writers_ [] s))) as [w|what| |] eqn:Ew;
    [|eauto|exact I|exact I].
  unfold bind at 1. unfold push_writer, modify.
  cbn [writers_ with_writers_ multiscale_ app].
  unfold bind at 1.
  destruct (multiscale_ s).
  - pose proof (downsample_loop_outcome fuel (base_config (with_writers_ [] s))
                  (with_writers_ [w] (with_writers_ [] s))) as Hl.
    destruct (downsample_loop fuel (base_config (with_writers_ [] s))
                (with_writers_ [w] (with_writers_ [] s))) as [s' [[]|what| |]];
      [|exact Hl|exact I|exact I].
    destruct Hl as (ws & Hws & ->). split; [reflexivity|].
    exists (w :: ws). split; [reflexivity|].
    destruct ws; [done|]. cbn [length]. lia.
  - split; [reflexivity|]. exists [w]. done.
Qed.

(** [create_scaled_frames_] adds an empty slot for every level above 0 that
    has none, and touches nothing else. *)
Lemma create_scaled_frames__slots (s : ZarrStream_s W K) (level : nat) :
  scaled_frames_ (create_scaled_frames_ s) !! level
  = match scaled_frames_ s !! level with
    | Some slot => Some slot
    | None => if bool_decide (1 <= level < length (writers_ s))
              then Some None else None
    end.
Proof.
  unfold create_scaled_frames_. cbn [scaled_frames_ with_scaled_frames_].
  assert (Hgen : forall n (frames : gmap nat (option (list byte))),
             fold_left (fun frames level =>
                          match frames !! level with
                          | None => <[level := None]> frames
                          | Some _ => frames
                          end) (seq 1 n) frames !! level
             = match frames !! level with
               | Some slot => Some slot
               | None => if bool_decide (1 <= level < 1 + n)
                         then Some None else None
               end).
  { intros n. induction n as [|n IH]; intros frames.
    - cbn [seq fold_left]. destruct (frames !! level); [done|].
      rewrite bool_decide_eq_false_2 by lia. done.
    - rewrite seq_S, fold_left_app. cbn [fold_left].
      set (g := fold_left _ (seq 1 n) frames) in *.
      specialize (IH frames). fold g in IH.
      destruct (g !! (1 + n)) as [slot|] eqn:Eg.
      + rewrite IH. destruct (frames !! level) eqn:Ef; [done|].
        destruct (decide (level = 1 + n)) as [->|Hne].
        * rewrite IH in Eg. rewrite bool_decide_eq_false_2 in Eg by lia. done.
        * repeat case_bool_decide; try lia; done.
      + destruct (decide (level = 1 + n)) as [->|Hne].
        * rewrite lookup_insert_eq. rewrite IH in Eg.
          destruct (frames !! (1 + n)); [done|].
          rewrite bool_decide_eq_true_2 by lia. done.
        * rewrite lookup_insert_ne by done. rewrite IH.
          destruct (frames !! level); [done|].
          repeat case_bool_decide; try lia; done. }
  rewrite Hgen. destruct (scaled_frames_ s !! level); [done|].
  repeat case_bool_decide; try lia; done.
Qed.

Lemma create_metadata_sinks__outcome (s s' : ZarrStream_s W K) (w w' : World)
      (r : outcome bool) :
  create_metadata_sinks_ s w = (s', w', r) ->
  match r with
  | Returns true => exists sinks, s' = with_metadata_sinks_ sinks s
  | Returns false => error_ s' <> ""%string
  | Throws _ => False
  | _ => True
  end.
Proof.
  unfold create_metadata_sinks_.
  destruct (if s3_connection_pool_ s then _ else _) as [[w1 sinks] made].
  destruct made as [[]|what| |]; intros [= <- _ <-]; try exact I.
  - eauto.
  - cbn [error_ set_error_ with_error_]. done.
  - cbn [error_ set_error_ with_error_]. done.
Qed.

(** The two writers of metadata, as the constructor uses them. *)
Lemma metadata_writer_outcome (key text message : string)
      (s s' : ZarrStream_s W K) (r : outcome bool) :
  message <> ""%string ->
  write_to_metadata_sink key text
    (let! _ := modify (set_error_ ("Metadata sink '" +:+ key +:+ "'not found")) in
     ret false)
    (fun ok =>
       if negb ok then
         let! _ := modify (set_error_ message) in
         ret false
       else ret true) s
  = (s', r) ->
  match r with
  | Returns true => exists sinks, s' = with_metadata_sinks_ sinks s
  | Returns false => error_ s' <> ""%string
  | Throws what => what <> ""%string
  | _ => False
  end.
Proof.
  intros Hm. unfold write_to_metadata_sink.
  destruct (metadata_sinks_ s !! key) as [[sink|]|] eqn:Ek.
  - destruct (sink_write sink 0 (list_byte_of_string text)) as [sink' written].
    destruct written; cbn [negb]; intros [= <- <-].
    + eauto.
    + cbn [error_ set_error_ with_error_]. done.
  - intros [= <- <-]. cbn [error_ set_error_ with_error_]. done.
  - intros [= <- <-]. done.
Qed.

Lemma write_base_metadata__outcome (s s' : ZarrStream_s W K) (r : outcome bool) :
  write_base_metadata_ s = (s', r) ->
  match r with
  | Returns true => exists sinks, s' = with_metadata_sinks_ sinks s
  | Returns false => error_ s' <> ""%string
  | Throws what => what <> ""%string
  | _ => False
  end.
Proof.
  unfold write_base_metadata_. destruct (version_ s =? 2);
    apply metadata_writer_outcome; done.
Qed.

Lemma write_group_metadata__outcome (s s' : ZarrStream_s W K) (r : outcome bool) :
  write_group_metadata_ s = (s', r) ->
  match r with
  | Returns true => exists sinks, s' = with_metadata_sinks_ sinks s
  | Returns false => error_ s' <> ""%string
  | Throws what => what <> ""%string
  | _ => False
  end.
Proof.
  unfold write_group_metadata_. destruct (version_ s =? 2);
    apply metadata_writer_outcome; done.
Qed.

End ConstructionFacts.

Section ConstructorTheorems.
Context {W K : Type} `{ArrayWriterOps W} `{SinkOps K} `{JsonLib} `{StringLib}
        `{ConfigLib} `{WriterMakers W} `{SinkMakers K}.

Lemma new_ZarrStream_s_steps (fuel : nat) (settings : option ZarrStreamSettings_s)
      (w w' : World) (r : outcome (ZarrStream_s W K)) :
  new_ZarrStream_s fuel settings w = (w', r) ->
  match r with
  | Returns s =>
      exists st path dims,
        settings = Some st /\ valid_settings w st
        /\ store_path st = Some path /\ dimensions st = Some dims
        /\ error_ s = ""%string
        /\ version_ s = version st
        /\ store_path_ s = trim path
        /\ dtype_ s = data_type st
        /\ dimensions_ s = dims
        /\ multiscale_ s = multiscale st
        /\ s3_settings_ s = construct_s3_settings <$> s3_settings st
        /\ compression_settings_ s = compression_settings st
        /\ s3_connection_pool_ s = is_s3_acquisition st
        /\ frame_buffer_ s = repeat x00 (bytes_of_frame dims (data_type st))
        /\ frame_buffer_offset_ s = 0
        /\ (if multiscale st then 2 <= length (writers_ s)
            else length (writers_ s) = 1)
        /\ forall level,
             scaled_frames_ s !! level
             = if multiscale st && bool_decide (1 <= level < length (writers_ s))
               then Some None else None
  | Throws what =>
      what <> ""%string
      \/ exists version pool config,
           construct_writer (W := W) version pool config = Throws what
  | _ => True
  end.
Proof.
  unfold new_ZarrStream_s. destruct settings as [st|].
  2:{ cbn. intros [= _ <-]. left. done. }
  cbn [error_ blank_stream].
  destruct (validate_settings__verdict w st "")
    as [[Hv ->]|(Hv & message & -> & Hm)].
  2:{ cbn. intros [= _ <-]. left. done. }
  cbn [expect_step obind EXPECT negb error_ with_error_].
  pose proof Hv as (_ & (path & Hpath & _) & _ & _ & (dims & Hdims & _)).
  unfold commit_settings_ at 1. rewrite Hpath.
  match goal with
  | |- context [create_store_ ?s0 w] => set (sb := s0)
  end.
  destruct (create_store_ sb w) as [[s1 w1] ok1] eqn:Ecs.
  destruct ok1; cbn [expect_step obind EXPECT negb].
  2:{ apply create_store__false in Ecs. intros [= _ <-]. left. exact Ecs. }
  apply create_store__true in Ecs.
  pose proof (create_writers__outcome fuel s1) as Hcw.
  destruct (create_writers_ fuel s1) as [s2 [ok2|what| |]];
    cbn [expect_step obind EXPECT negb].
  2:{ intros [= _ <-]. right. exact Hcw. }
  2,3: now intros [= _ <-].
  destruct Hcw as (-> & ws & Es2 & Hws). cbn [negb].
  set (s2' := if multiscale_ s2 then create_scaled_frames_ s2 else s2).
  destruct (create_metadata_sinks_ s2' w1) as [[s3 w3] r3] eqn:Ems.
  apply create_metadata_sinks__outcome in Ems.
  destruct r3 as [[]|what| |]; cbn [expect_step obind EXPECT negb];
    [|intros [= _ <-]; left; exact Ems|done|now intros [= _ <-]..].
  destruct Ems as (sinks3 & Es3).
  destruct (write_base_metadata_ s3) as [s4 r4] eqn:Ewb.
  apply write_base_metadata__outcome in Ewb.
  destruct r4 as [[]|what| |]; cbn [expect_step obind EXPECT negb];
    [|intros [= _ <-]; left; exact Ewb..|done|done].
  destruct Ewb as (sinks4 & Es4).
  destruct (write_group_metadata_ s4) as [s5 r5] eqn:Ewg.
  apply write_group_metadata__outcome in Ewg.
  destruct r5 as [[]|what| |]; cbn [expect_step obind EXPECT negb];
    [|intros [= _ <-]; left; exact Ewg..|done|done].
  destruct Ewg as (sinks5 & Es5).
  intros [= _ <-]. exists st, path, dims.
  subst s5 s4 s3 s2' s2 s1. unfold is_s3_acquisition_, is_s3_acquisition in *.
  subst sb. rewrite Hdims in *.
  cbn [error_ version_ store_path_ s3_settings_ compression_settings_ dtype_
       dimensions_ multiscale_ frame_buffer_ frame_buffer_offset_
       s3_connection_pool_ writers_ metadata_sinks_ scaled_frames_
       with_error_ with_frame_buffer_ with_writers_ with_metadata_sinks_
       with_scaled_frames_ with_s3_connection_pool_ blank_stream default] in *.
  assert (Hpool : forall (o : option S3Settings),
             bool_decide (is_Some (match o with
                                   | Some s3 => Some (construct_s3_settings s3)
                                   | None => None
                                   end))
             = bool_decide (is_Some o)).
  { intros [s3|]; [|reflexivity]. rewrite !bool_decide_eq_true_2 by eauto. done. }
  rewrite Hpool in *.
  assert (Hcomp : match compression_settings st with
                  | Some c => Some {| compressor := compressor c; codec := codec c;
                                      level := level c; shuffle := shuffle c |}
                  | None => None
                  end = compression_settings st).
  { destruct (compression_settings st) as [[]|]; reflexivity. }
  set (pool := bool_decide (is_Some (s3_settings st))) in *.
  destruct pool, (multiscale st) eqn:Em;
    cbn [error_ version_ store_path_ s3_settings_ compression_settings_ dtype_
         dimensions_ multiscale_ frame_buffer_ frame_buffer_offset_
         s3_connection_pool_ writers_ metadata_sinks_ scaled_frames_
         with_error_ with_frame_buffer_ with_writers_ with_metadata_sinks_
         with_scaled_frames_ with_s3_connection_pool_ create_scaled_frames_
         andb id] in *;
    (repeat (split; [done|])); intros level;
    try (rewrite lookup_empty; reflexivity).
  - pose proof (create_scaled_frames__slots
                  (with_writers_ ws (with_s3_connection_pool_ true
                     (with_frame_buffer_ [] 0 (blank_stream (W := W) (K := K)))))
                  level) as Hs.
    unfold create_scaled_frames_ in Hs.
    cbn [scaled_frames_ writers_ with_writers_ with_s3_connection_pool_
         with_frame_buffer_ with_scaled_frames_ blank_stream] in Hs.
    rewrite lookup_empty in Hs. exact Hs.
  - pose proof (create_scaled_frames__slots
                  (with_writers_ ws (blank_stream (W := W) (K := K))) level) as Hs.
    unfold create_scaled_frames_ in Hs.
    cbn [scaled_frames_ writers_ with_writers_ with_scaled_frames_ blank_stream]
      in Hs.
    rewrite lookup_empty in Hs. exact Hs.
Qed.

Lemma downsampled_succ (config : ArrayWriterConfig) (i : nat) :
  downsampled config (S i) = downsampled (downsample config).1 i.
Proof.
  unfold downsampled.
  exact (Nat.iter_succ_r i (fun config => (downsample config).1) config).
Qed.

Lemma downsample_loop_levels (n : nat) :
  forall (fuel : nat) (config : ArrayWriterConfig) (s : ZarrStream_s W K)
         (made : nat -> W),
    n < fuel ->
    (forall i, i < n -> (downsample (downsampled config i)).2 = true) ->
    (downsample (downsampled config n)).2 = false ->
    (forall i, i <= n ->
               construct_writer (version_ s) (s3_connection_pool_ s)
                                (downsampled config (S i)) = Returns (made i)) ->
    downsample_loop fuel config s
    = (with_writers_ (writers_ s ++ map made (seq 0 (S n))) s, Returns tt).
Proof.
  induction n as [|n IH]; intros fuel config s made Hfuel Hgo Hstop Hmade;
    (destruct fuel as [|fuel]; [lia|]); cbn [downsample_loop].
  - pose proof (Hmade 0 (Nat.le_refl 0)) as Hw. rewrite downsampled_succ in Hw.
    change (downsampled config 0) with config in Hstop.
    change (downsampled (downsample config).1 0) with (downsample config).1 in Hw.
    destruct (downsample config) as [downsampled_config go].
    cbn [fst snd] in Hstop, Hw. subst go.
    unfold bind at 1. unfold new_writer at 1. rewrite Hw.
    reflexivity.
  - pose proof (Hmade 0 (Nat.le_0_l _)) as Hw. rewrite downsampled_succ in Hw.
    pose proof (Hgo 0 (Nat.lt_0_succ _)) as Hfirst.
    change (downsampled config 0) with config in Hfirst.
    change (downsampled (downsample config).1 0) with (downsample config).1 in Hw.
    assert (Hnext : forall i, downsampled config (S i)
                              = downsampled (downsample config).1 i)
      by (intros i; apply downsampled_succ).
    destruct (downsample config) as [downsampled_config go].
    cbn [fst snd] in Hfirst, Hw, Hnext. subst go.
    unfold bind at 1. unfold new_writer at 1. rewrite Hw.
    unfold bind at 1. unfold push_writer, modify.
    rewrite (IH fuel downsampled_config
               (with_writers_ (writers_ s ++ [made 0]) s)
               (fun i => made (S i))).
    + cbn [writers_ with_writers_]. rewrite <- app_assoc.
      cbn [app]. change (seq 0 (S (S n))) with (0 :: seq 1 (S n)).
      cbn [map]. rewrite <- (seq_shift (S n) 0), map_map. reflexivity.
    + lia.
    + intros i Hi. rewrite <- Hnext. apply Hgo. lia.
    + rewrite <- Hnext. exact Hstop.
    + intros i Hi. cbn [version_ s3_connection_pool_ with_writers_].
      rewrite <- Hnext. apply Hmade. lia.
Qed.

(** X22. When [validate_settings_] rejects the settings, the constructor
    throws the message the validation left, which is not empty, and the
    filesystem is what it was: an existing store is not removed. *)
Theorem constructor_rejects_invalid_settings (fuel : nat)
    (settings : option ZarrStreamSettings_s) (w : World) :
  (validate_settings_ w settings "").1 = false ->
  new_ZarrStream_s (W := W) (K := K) fuel settings w
  = (w, Throws (validate_settings_ w settings "").2)
  /\ (validate_settings_ w settings "").2 <> ""%string.
Proof.
  intros Hrej. split.
  - unfold new_ZarrStream_s. cbn [error_ blank_stream].
    destruct (validate_settings_ w settings "") as [ok error]. cbn [fst] in Hrej.
    subst ok. cbn [snd]. destruct settings; reflexivity.
  - destruct settings as [st|]; [|done].
    destruct (validate_settings__verdict w st "")
      as [[Hv Hr]|(Hv & message & Hr & Hm)]; rewrite Hr in *; done.
Qed.

(** X23. A stream that the constructor returns was made from settings that are
    valid, has an empty error state, holds the settings' version, data
    type, dimensions, multiscale flag and compression settings, the trimmed
    store path and the trimmed S3 settings, has an S3 connection pool exactly
    when S3 settings were given, a zeroed frame buffer of [bytes_of_frame]
    bytes with offset 0, one writer without multiscale and at least two with
    it, and an empty slot for a scaled frame at every level from 1 up to the
    last writer's, and at no other level. *)
Theorem constructor_result (fuel : nat) (settings : option ZarrStreamSettings_s)
    (w w' : World) (s : ZarrStream_s W K) :
  new_ZarrStream_s fuel settings w = (w', Returns s) ->
  exists st path dims,
    settings = Some st /\ valid_settings w st
    /\ store_path st = Some path /\ dimensions st = Some dims
    /\ error_ s = ""%string
    /\ version_ s = version st
    /\ store_path_ s = trim path
    /\ dtype_ s = data_type st
    /\ dimensions_ s = dims
    /\ multiscale_ s = multiscale st
    /\ s3_settings_ s = construct_s3_settings <$> s3_settings st
    /\ compression_settings_ s = compression_settings st
    /\ s3_connection_pool_ s = is_s3_acquisition st
    /\ frame_buffer_ s = repeat x00 (bytes_of_frame dims (data_type st))
    /\ frame_buffer_offset_ s = 0
    /\ (if multiscale st then 2 <= length (writers_ s)
        else length (writers_ s) = 1)
    /\ forall level,
         scaled_frames_ s !! level
         = if multiscale st && bool_decide (1 <= level < length (writers_ s))
           then Some None else None.
Proof. intros Hnew. exact (new_ZarrStream_s_steps _ _ _ _ _ Hnew). Qed.

(** X24. What the constructor throws carries a message: the message is
    not empty, unless it is the message of an exception that the
    constructor of an array writer threw. *)
Theorem constructor_failure_has_message (fuel : nat)
    (settings : option ZarrStreamSettings_s) (w w' : World) (what : string) :
  new_ZarrStream_s (W := W) (K := K) fuel settings w = (w', Throws what) ->
  what <> ""%string
  \/ exists version pool config,
       construct_writer (W := W) version pool config = Throws what.
Proof. intros Hnew. exact (new_ZarrStream_s_steps _ _ _ _ _ Hnew). Qed.

(** X25. With multiscale, [create_writers_] makes the writer of the
    stream's own configuration and then one writer for every configuration
    that [downsample] gives in turn, the one for which [downsample] reports
    that no further round is possible included: when that report comes in
    round [n + 1], and the writers can be constructed, the stream gets
    [n + 2] writers, in the order of the levels, and the call returns
    true. *)
Theorem create_writers_levels (fuel n : nat) (s : ZarrStream_s W K)
    (made : nat -> W) :
  multiscale_ s = true ->
  n < fuel ->
  (forall i, i < n -> (downsample (downsampled (base_config s) i)).2 = true) ->
  (downsample (downsampled (base_config s) n)).2 = false ->
  (forall i, i <= S n ->
             construct_writer (version_ s) (s3_connection_pool_ s)
                              (downsampled (base_config s) i) = Returns (made i)) ->
  create_writers_ fuel s
  = (with_writers_ (map made (seq 0 (S (S n)))) s, Returns true).
Proof.
  intros Hms Hfuel Hgo Hstop Hmade.
  unfold create_writers_. unfold bind at 1. unfold modify at 1.
  unfold bind at 1. unfold new_writer at 1.
  cbn [version_ s3_connection_pool_ with_writers_].
  change (base_config (with_writers_ [] s)) with (base_config s).
  pose proof (Hmade 0 (Nat.le_0_l _)) as Hw.
  change (downsampled (base_config s) 0) with (base_config s) in Hw.
  rewrite Hw. unfold bind at 1. unfold push_writer, modify.
  cbn [writers_ with_writers_ multiscale_ app]. rewrite Hms.
  unfold bind at 1.
  rewrite (downsample_loop_levels n fuel (base_config s)
             (with_writers_ [made 0] (with_writers_ [] s))
             (fun i => made (S i))); try done.
  - cbn [writers_ with_writers_ app ret].
    change (seq 0 (S (S n))) with (0 :: seq 1 (S n)).
    cbn [map]. rewrite <- (seq_shift (S n) 0), map_map. reflexivity.
  - intros i Hi. cbn [version_ s3_connection_pool_ with_writers_].
    apply Hmade. lia.
Qed.

(** X26. [create_metadata_sinks_] never throws: an exception of the
    maker of the sinks is caught, and then, as when the maker returns false,
    the result is false and the error state holds a message.  After a true
    result the error state is what it was.  With an S3 connection pool the
    filesystem is not touched. *)
Theorem create_metadata_sinks__reports (s s' : ZarrStream_s W K) (w w' : World)
    (r : outcome bool) :
  create_metadata_sinks_ s w = (s', w', r) ->
  (forall what, r <> Throws what)
  /\ (r = Returns false -> error_ s' <> ""%string)
  /\ (r = Returns true -> error_ s' = error_ s)
  /\ (s3_connection_pool_ s = true -> w' = w).
Proof.
  intros Hc. pose proof (create_metadata_sinks__outcome _ _ _ _ _ Hc) as Ho.
  split; [|split; [|split]].
  - intros what ->. exact Ho.
  - intros ->. exact Ho.
  - intros ->. destruct Ho as (sinks & ->). reflexivity.
  - intros Hpool. unfold create_metadata_sinks_ in Hc. rewrite Hpool in Hc.
    destruct (s3_settings_ s) as [s3|].
    + destruct (make_metadata_s3_sinks (version_ s) (bucket_name s3)
                  (store_path_ s) (metadata_sinks_ s)) as [sinks made].
      destruct made as [[]|what| |]; now injection Hc as _ <- _.
    + now injection Hc as _ <- _.
Qed.

End ConstructorTheorems.

Lemma constructor_rejects_invalid_settings_witness :
  new_ZarrStream_s (W := TestWriter) (K := TestSink) 10
    (Some (test_settings (take 2 dims_S1))) used_world
  = (used_world,
     Throws (validate_settings_ used_world
               (Some (test_settings (take 2 dims_S1))) "").2)
  /\ (validate_settings_ used_world
        (Some (test_settings (take 2 dims_S1))) "").2 <> ""%string.
Proof.
  apply (constructor_rejects_invalid_settings 10
           (Some (test_settings (take 2 dims_S1))) used_world).
  vm_compute. reflexivity.
Defined.

Lemma constructor_result_witness :
  let written := Some {| contents := list_byte_of_string "..."; broken := false |} in
  let s := with_metadata_sinks_
             {[ ".zattrs"%string := written; ".zgroup"%string := written ]}
             (test_stream 2 ZarrDataType_uint8 dims_S1 true (48 * 48) 3) in
  exists st path dims,
    Some (multiscale_settings dims_S1) = Some st /\ valid_settings empty_world st
    /\ store_path st = Some path /\ dimensions st = Some dims
    /\ error_ s = ""%string
    /\ version_ s = version st
    /\ store_path_ s = trim path
    /\ dtype_ s = data_type st
    /\ dimensions_ s = dims
    /\ multiscale_ s = multiscale st
    /\ s3_settings_ s = construct_s3_settings <$> s3_settings st
    /\ compression_settings_ s = compression_settings st
    /\ s3_connection_pool_ s = is_s3_acquisition st
    /\ frame_buffer_ s = repeat x00 (bytes_of_frame dims (data_type st))
    /\ frame_buffer_offset_ s = 0
    /\ (if multiscale st then 2 <= length (writers_ s)
        else length (writers_ s) = 1)
    /\ forall level,
         scaled_frames_ s !! level
         = if multiscale st && bool_decide (1 <= level < length (writers_ s))
           then Some None else None.
Proof.
  apply (constructor_result 10 (Some (multiscale_settings dims_S1)) empty_world
           (new_ZarrStream_s (W := TestWriter) (K := TestSink) 10
              (Some (multiscale_settings dims_S1)) empty_world).1
           (with_metadata_sinks_
              {[ ".zattrs"%string
                 := Some {| contents := list_byte_of_string "..."; broken := false |};
                 ".zgroup"%string
                 := Some {| contents := list_byte_of_string "..."; broken := false |} ]}
              (test_stream 2 ZarrDataType_uint8 dims_S1 true (48 * 48) 3))).
  vm_compute. reflexivity.
Defined.

Lemma constructor_failure_has_message_witness :
  "Failed to remove existing store path 'out.zarr': Permission denied"%string <> ""%string
  \/ exists version pool config,
       construct_writer (W := TestWriter) version pool config
       = Throws "Failed to remove existing store path 'out.zarr': Permission denied".
Proof.
  apply (constructor_failure_has_message (K := TestSink) 10
           (Some (test_settings dims_S1)) locked_world locked_world).
  vm_compute. reflexivity.
Defined.

Lemma create_writers_levels_witness :
  let s := test_stream 2 ZarrDataType_uint8 dims_S1 true (48 * 48) 0 in
  create_writers_ 10 s
  = (with_writers_
       (map (fun _ => {| accepted := []; capacity := 1000 |}) (seq 0 3)) s,
     Returns true).
Proof.
  apply (create_writers_levels 10 1
           (test_stream 2 ZarrDataType_uint8 dims_S1 true (48 * 48) 0)
           (fun _ => {| accepted := []; capacity := 1000 |})).
  - reflexivity.
  - lia.
  - intros i Hi. destruct i as [|i]; [vm_compute; reflexivity|lia].
  - vm_compute. reflexivity.
  - intros i Hi. reflexivity.
Defined.

Lemma create_metadata_sinks__reports_witness :
  let s := test_stream 3 ZarrDataType_uint8 dims_S1 false (48 * 48) 1 in
  (forall what, Returns true <> Throws what)
  /\ (Returns true = Returns false -> error_ s <> ""%string)
  /\ (Returns true = Returns true -> error_ s = error_ s)
  /\ (s3_connection_pool_ s = true -> empty_world = empty_world).
Proof.
  apply (create_metadata_sinks__reports
           (test_stream 3 ZarrDataType_uint8 dims_S1 false (48 * 48) 1)
           (test_stream 3 ZarrDataType_uint8 dims_S1 false (48 * 48) 1)
           empty_world empty_world (Returns true)).
  vm_compute. reflexivity.
Defined.
